(** * Vote ledger, aggregation, feed pagination and topic handling of the
      Q&A application, embedded from the TypeScript sources

    Definitions, in the order of the sources they embed:
    - [JS]: the JavaScript string and number primitives the sources call;
    - [Slug]: the transforms of [createTopicSchema];
    - [Zod]: the schema combinators of the validation library;
    - the tables of [db/schema/qa] and [Store], their constraints as the
      migration declares them;
    - [Validations]: the schemas of [lib/validations];
    - the request, the response and the handler monad [M];
    - [ApiUtils]: [lib/api-utils.ts];
    - [VotesRoute], [QuestionsRoute], [TopicsRoute]: the route handlers;
    - [Aggregation], [Ledger], [Errors], [Listing], [Topics]: the
      vocabulary in which the properties are stated, and worked data.

    Properties follow, one module per subject.

    The strings that requests carry are modelled as sequences of code
    units below 256 (the Latin-1 range of UTF-16); [Utf16] has the
    transforms of [createTopicSchema] on every sequence of 16-bit code
    units, and agrees with [JS] and [Slug] on the Latin-1 range.  Numbers
    are exact rationals together with NaN and the two infinities.  A
    handler runs alone on the database, and the database answers every
    read: interleavings of concurrent requests and failures of the
    connection are outside the model. *)

From Stdlib Require Import List String Ascii Bool Arith NArith ZArith QArith Qround Lia.
Import ListNotations.

Close Scope Q_scope.
Local Open Scope string_scope.
Local Open Scope nat_scope.

(* ================================================================== *)
(** ** JavaScript primitives *)
(* ================================================================== *)

Module JS.

(** Code units that ECMAScript classes as WhiteSpace or LineTerminator, in
    the range below 256: TAB, LF, VT, FF, CR, SPACE and NBSP.  Both
    [String.prototype.trim] and the regular expression class [\s] use this
    set. *)
Definition isWhiteSpace (c : ascii) : bool :=
  let n := nat_of_ascii c in
  ((9 <=? n) && (n <=? 13)) || (n =? 32) || (n =? 160).

(** [toLowerCase] on one code unit: A-Z and the Latin-1 capitals
    U+00C0..U+00DE (U+00D7, the multiplication sign, excepted) move up by
    32; everything else is unchanged. *)
Definition toLowerCaseUnit (c : ascii) : ascii :=
  let n := nat_of_ascii c in
  if ((65 <=? n) && (n <=? 90))
     || ((192 <=? n) && (n <=? 222) && negb (n =? 215))
  then ascii_of_nat (n + 32)
  else c.

Fixpoint toLowerCase (s : string) : string :=
  match s with
  | EmptyString => EmptyString
  | String c s' => String (toLowerCaseUnit c) (toLowerCase s')
  end.

Fixpoint trimStart (s : string) : string :=
  match s with
  | EmptyString => EmptyString
  | String c s' => if isWhiteSpace c then trimStart s' else s
  end.

Definition isEmpty (s : string) : bool :=
  match s with EmptyString => true | _ => false end.

Fixpoint trimEnd (s : string) : string :=
  match s with
  | EmptyString => EmptyString
  | String c s' =>
      let r := trimEnd s' in
      if isWhiteSpace c && isEmpty r then EmptyString else String c r
  end.

(** [s.trim()] *)
Definition trim (s : string) : string := trimEnd (trimStart s).

(** [s.replace(/\s+/g, r)]: every maximal run of white space becomes one
    copy of [r].  [inRun] records that the previous code unit was white
    space, so that the run has already been replaced. *)
Fixpoint replaceWhiteSpaceRuns (r : string) (inRun : bool) (s : string) : string :=
  match s with
  | EmptyString => EmptyString
  | String c s' =>
      if isWhiteSpace c
      then (if inRun then replaceWhiteSpaceRuns r true s'
            else r ++ replaceWhiteSpaceRuns r true s')
      else String c (replaceWhiteSpaceRuns r false s')
  end.

(** [hay.includes(needle)] *)
Fixpoint includes (hay needle : string) : bool :=
  String.prefix needle hay ||
  match hay with
  | EmptyString => false
  | String _ hay' => includes hay' needle
  end.

(** A JavaScript number: NaN, an infinity, or a finite value (held
    exactly). *)
Inductive number : Type :=
| NaN
| PosInfinity
| NegInfinity
| Finite (q : Q).

(** The values that reach the schemas: what [JSON.parse] and
    [URLSearchParams.get] produce, and [undefined] for a missing property. *)
Inductive value : Type :=
| Undefined
| Null
| Bool (b : bool)
| Num (n : number)
| Str (s : string).

(** [Number.isInteger] *)
Definition isInteger (n : number) : bool :=
  match n with
  | Finite q => Pos.eqb (Qden (Qred q)) 1
  | _ => false
  end.

(** [a > b] on numbers with a finite right operand *)
Definition gtFinite (a : number) (b : Q) : bool :=
  match a with
  | NaN => false
  | PosInfinity => true
  | NegInfinity => false
  | Finite q => negb (Qle_bool q b)
  end.

(** [Math.ceil] of a finite number *)
Definition ceil (q : Q) : Z := Qceiling q.

Section Coercion.

(** The StringToNumber operation of ECMAScript (7.1.4.1.1) belongs to the
    language runtime. *)
Variable StringToNumber : string -> number.

(** [Number(v)] *)
Definition toNumber (v : value) : number :=
  match v with
  | Undefined => NaN
  | Null => Finite 0%Q
  | Bool true => Finite 1%Q
  | Bool false => Finite 0%Q
  | Num n => n
  | Str s => StringToNumber s
  end.

End Coercion.

(** An instance of StringToNumber on the fragment the examples use: the
    empty string is 0, a string of decimal digits is its value, any other
    string is NaN.  ECMAScript agrees with it on the first two. *)
Definition digitValue (c : ascii) : option Z :=
  let n := nat_of_ascii c in
  if (48 <=? n) && (n <=? 57) then Some (Z.of_nat (n - 48)) else None.

Fixpoint digitsValue (acc : Z) (s : string) : option Z :=
  match s with
  | EmptyString => Some acc
  | String c s' =>
      match digitValue c with
      | Some d => digitsValue (10 * acc + d)%Z s'
      | None => None
      end
  end.

Definition decimalStringToNumber (s : string) : number :=
  match digitsValue 0%Z s with
  | Some z => Finite (inject_Z z)
  | None => NaN
  end.

End JS.

(* ================================================================== *)
(** ** lib/validations: the transforms of [createTopicSchema] *)
(* ================================================================== *)

Module Slug.

(** [val => val.trim().toLowerCase()], the transform of [name] *)
Definition nameTransform (val : string) : string :=
  JS.toLowerCase (JS.trim val).

(** [val => val.trim().toLowerCase().replace(/\s+/g, '-')], the transform
    of [slug] *)
Definition slugTransform (val : string) : string :=
  JS.replaceWhiteSpaceRuns "-" false (JS.toLowerCase (JS.trim val)).

(** A string is settled when no code unit of it is white space and every
    code unit is its own lower case. *)
Fixpoint settled (s : string) : Prop :=
  match s with
  | EmptyString => True
  | String c s' =>
      JS.isWhiteSpace c = false /\ JS.toLowerCaseUnit c = c /\ settled s'
  end.

End Slug.

(* ================================================================== *)
(** ** The schema combinators of Zod that [lib/validations] uses *)
(* ================================================================== *)

Module Zod.

(** One entry of [ZodError.issues]: the issue code, the property it is
    about, and the message when the schema supplies one. *)
Record issue : Type := mkIssue {
  code : string;
  path : string;
  schemaMessage : option string
}.

(** The outcome of [schema.safeParse]: the issues, or the parsed value. *)
Definition result (A : Type) : Type := (list issue + A)%type.

Definition issuesOf {A} (r : result A) : list issue :=
  match r with inl errs => errs | inr _ => [] end.

Definition fromChecks {A} (checks : list issue) (a : A) : result A :=
  match checks with [] => inr a | _ => inl checks end.

Definition check (failed : bool) (i : issue) : list issue :=
  if failed then [i] else [].

(** [z.string()] with optional [.min(n, msg)] and [.max(n, msg)] *)
Definition string_ (p : string) (min max : option (nat * string))
  (v : JS.value) : result string :=
  match v with
  | JS.Str s =>
      fromChecks
        (match min with
         | Some (n, msg) => check (String.length s <? n) (mkIssue "too_small" p (Some msg))
         | None => []
         end ++
         match max with
         | Some (n, msg) => check (n <? String.length s) (mkIssue "too_big" p (Some msg))
         | None => []
         end) s
  | _ => inl [mkIssue "invalid_type" p None]
  end.

Fixpoint lookupEnum {A} (table : list (string * A)) (s : string) : option A :=
  match table with
  | [] => None
  | (k, a) :: rest => if String.eqb k s then Some a else lookupEnum rest s
  end.

(** [z.enum([...])]: the input must be one of the listed strings. *)
Definition enum {A} (p : string) (table : list (string * A))
  (v : JS.value) : result A :=
  match v with
  | JS.Str s =>
      match lookupEnum table s with
      | Some a => inr a
      | None => inl [mkIssue "invalid_enum_value" p None]
      end
  | _ => inl [mkIssue "invalid_type" p None]
  end.

(** [schema.optional()]: [undefined], and only [undefined], is accepted
    without consulting the inner schema. *)
Definition optional {A} (inner : JS.value -> result A)
  (v : JS.value) : result (option A) :=
  match v with
  | JS.Undefined => inr None
  | _ => match inner v with inl errs => inl errs | inr a => inr (Some a) end
  end.

(** [schema.default(d)]: [undefined], and only [undefined], is replaced by
    the default. *)
Definition default {A} (inner : JS.value -> result A) (d : A)
  (v : JS.value) : result A :=
  match v with
  | JS.Undefined => inr d
  | _ => inner v
  end.

(** [schema.transform(f)] *)
Definition transform {A B} (inner : JS.value -> result A) (f : A -> B)
  (v : JS.value) : result B :=
  match inner v with inl errs => inl errs | inr a => inr (f a) end.

(** The text of [ZodError.message] in the shape Zod 3 gives it: the JSON
    text of the issue list.  The handlers are stated for any rendering;
    this one serves the worked examples. *)
Definition quoted (s : string) : string :=
  String (ascii_of_nat 34) s ++ String (ascii_of_nat 34) EmptyString.

Definition renderIssue (i : issue) : string :=
  "{ " ++ quoted "code" ++ ": " ++ quoted (code i) ++ ", "
  ++ quoted "path" ++ ": [" ++ quoted (path i) ++ "]"
  ++ match schemaMessage i with
     | Some m => ", " ++ quoted "message" ++ ": " ++ quoted m
     | None => ""
     end
  ++ " }".

Definition renderIssues (l : list issue) : string :=
  "[" ++ String.concat ", " (map renderIssue l) ++ "]".

Section Coerce.

Variable StringToNumber : string -> JS.number.

(** [z.coerce.number().int().positive()], with [.max(m)] when [max] is
    given: the input goes through [Number(...)]; NaN is a type error; the
    checks are all run. *)
Definition coerceIntPositive (p : string) (max : option Z) (v : JS.value) : result Z :=
  match JS.toNumber StringToNumber v with
  | JS.NaN => inl [mkIssue "invalid_type" p None]
  | n =>
      fromChecks
        (check (negb (JS.isInteger n)) (mkIssue "invalid_type" p None) ++
         check (negb (JS.gtFinite n 0%Q)) (mkIssue "too_small" p None) ++
         match max with
         | Some m => check (JS.gtFinite n (inject_Z m)) (mkIssue "too_big" p None)
         | None => []
         end)%list
        (match n with JS.Finite q => Qnum (Qred q) | _ => 0%Z end)
  end.

End Coerce.

End Zod.

(* ================================================================== *)
(** ** db/schema/qa: the tables *)
(* ================================================================== *)

Inductive ItemType : Type := question | answer.
Inductive VoteType : Type := upvote | downvote.
Inductive SortOrder : Type := recent | most_voted.

Definition ItemType_eqb (a b : ItemType) : bool :=
  match a, b with
  | question, question | answer, answer => true
  | _, _ => false
  end.

Definition VoteType_eqb (a b : VoteType) : bool :=
  match a, b with
  | upvote, upvote | downvote, downvote => true
  | _, _ => false
  end.

Definition ItemType_text (t : ItemType) : string :=
  match t with question => "question" | answer => "answer" end.

Module User.
Record t : Type := mk {
  id : string; name : string; email : string; image : option string
}.
End User.

Module Topic.
Record t : Type := mk {
  id : string; name : string; slug : string; description : option string;
  createdAt : Z; updatedAt : Z
}.
End Topic.

Module Question.
Record t : Type := mk {
  id : string; title : string; content : string; authorId : string;
  createdAt : Z; updatedAt : Z
}.
End Question.

Module Answer.
Record t : Type := mk {
  id : string; content : string; questionId : string; authorId : string;
  createdAt : Z; updatedAt : Z
}.
End Answer.

Module Vote.
Record t : Type := mk {
  id : string; userId : string; itemId : string; itemType : ItemType;
  voteType : VoteType; createdAt : Z
}.
End Vote.

Module QuestionTopic.
Record t : Type := mk {
  id : string; questionId : string; topicId : string; createdAt : Z
}.
End QuestionTopic.

(** The database: one list of rows per table, in insertion order. *)
Record DB : Type := mkDB {
  users : list User.t;
  topics : list Topic.t;
  questions : list Question.t;
  answers : list Answer.t;
  votes : list Vote.t;
  questionTopics : list QuestionTopic.t
}.

(** What a handler can find thrown at its [catch]. *)
Inductive Thrown : Type :=
| JsError (message : string)            (* an [Error] instance *)
| ZodError (issues : list Zod.issue)    (* thrown by [schema.parse] *)
| NonError.                             (* any other thrown value *)

Module Store.

Definition quote : string := String (ascii_of_nat 34) EmptyString.

(** The message of the driver's error for a violated unique constraint *)
Definition uniqueViolation (constraint : string) : Thrown :=
  JsError ("duplicate key value violates unique constraint "
           ++ quote ++ constraint ++ quote).

(** The message of the driver's error for a violated foreign key *)
Definition foreignKeyViolation (table constraint : string) : Thrown :=
  JsError ("insert or update on table " ++ quote ++ table ++ quote
           ++ " violates foreign key constraint "
           ++ quote ++ constraint ++ quote).

(** The columns of [votes_user_item_unique] agree on two rows. *)
Definition sameUserItem (a b : Vote.t) : bool :=
  String.eqb (Vote.userId a) (Vote.userId b)
  && String.eqb (Vote.itemId a) (Vote.itemId b)
  && ItemType_eqb (Vote.itemType a) (Vote.itemType b).

(** The predicate of the handlers' look-up of one voter's vote on one
    item. *)
Definition voteOf (uid iid : string) (ty : ItemType) (v : Vote.t) : bool :=
  String.eqb (Vote.userId v) uid
  && String.eqb (Vote.itemId v) iid
  && ItemType_eqb (Vote.itemType v) ty.

Definition setVotes (d : DB) (vs : list Vote.t) : DB :=
  mkDB (users d) (topics d) (questions d) (answers d) vs (questionTopics d).

Definition setTopics (d : DB) (ts : list Topic.t) : DB :=
  mkDB (users d) ts (questions d) (answers d) (votes d) (questionTopics d).

(** [insert into votes]: the primary key on [id], the unique constraint on
    [(user_id, item_id, item_type)] and the foreign key to [user] are
    checked by the database. *)
Definition insertVote (v : Vote.t) (d : DB) : Thrown + DB :=
  if existsb (fun r => String.eqb (Vote.id r) (Vote.id v)) (votes d)
  then inl (uniqueViolation "votes_pkey")
  else if existsb (sameUserItem v) (votes d)
  then inl (uniqueViolation "votes_user_item_unique")
  else if negb (existsb (fun u => String.eqb (User.id u) (Vote.userId v)) (users d))
  then inl (foreignKeyViolation "votes" "votes_user_id_fkey")
  else inr (setVotes d (votes d ++ [v])).

(** [delete from votes where id = i] *)
Definition deleteVoteById (i : string) (d : DB) : DB :=
  setVotes d (filter (fun r => negb (String.eqb (Vote.id r) i)) (votes d)).

(** [update votes set vote_type = vt, created_at = now where id = i
    returning *]: the new table and the rows that were updated. *)
Definition retype (vt : VoteType) (now : Z) (r : Vote.t) : Vote.t :=
  Vote.mk (Vote.id r) (Vote.userId r) (Vote.itemId r) (Vote.itemType r) vt now.

Definition updateVoteById (i : string) (vt : VoteType) (now : Z) (d : DB)
  : DB * list Vote.t :=
  (setVotes d (map (fun r => if String.eqb (Vote.id r) i then retype vt now r else r)
                   (votes d)),
   map (retype vt now) (filter (fun r => String.eqb (Vote.id r) i) (votes d))).

(** [insert into topics]: primary key on [id], unique [name], unique
    [slug]. *)
Definition insertTopic (t : Topic.t) (d : DB) : Thrown + DB :=
  if existsb (fun r => String.eqb (Topic.id r) (Topic.id t)) (topics d)
  then inl (uniqueViolation "topics_pkey")
  else if existsb (fun r => String.eqb (Topic.name r) (Topic.name t)) (topics d)
  then inl (uniqueViolation "topics_name_unique")
  else if existsb (fun r => String.eqb (Topic.slug r) (Topic.slug t)) (topics d)
  then inl (uniqueViolation "topics_slug_unique")
  else inr (setTopics d (topics d ++ [t])).

(** [a left join b on p]: every match, or one null row when there is
    none. *)
Definition leftJoin {B} (p : B -> bool) (rows : list B) : list (option B) :=
  match filter p rows with
  | [] => [None]
  | ms => map Some ms
  end.

End Store.

(* ================================================================== *)
(** ** lib/validations: the schemas *)
(* ================================================================== *)

Module Validations.

(** Two parsed properties of one object: the issues of both are kept. *)
Definition both {A B} (a : Zod.result A) (b : Zod.result B) : Zod.result (A * B) :=
  match a, b with
  | inr x, inr y => inr (x, y)
  | _, _ => inl (Zod.issuesOf a ++ Zod.issuesOf b)%list
  end.

(** The properties of a request body sent to [POST /api/votes] *)
Module VoteBody.
Record t : Type := mk { itemId : JS.value; itemType : JS.value; voteType : JS.value }.
End VoteBody.

Module CreateVoteInput.
Record t : Type := mk { itemId : string; itemType : ItemType; voteType : VoteType }.
End CreateVoteInput.

Definition createVoteSchema (o : VoteBody.t) : Zod.result CreateVoteInput.t :=
  match
    both (Zod.string_ "itemId" (Some (1, "Item ID is required")) None (VoteBody.itemId o))
      (both (Zod.enum "itemType" [("question", question); ("answer", answer)]
               (VoteBody.itemType o))
            (Zod.enum "voteType" [("upvote", upvote); ("downvote", downvote)]
               (VoteBody.voteType o)))
  with
  | inr (i, (t, v)) => inr (CreateVoteInput.mk i t v)
  | inl errs => inl errs
  end.

(** The properties of a request body sent to [POST /api/topics] *)
Module TopicBody.
Record t : Type := mk { name : JS.value; slug : JS.value; description : JS.value }.
End TopicBody.

Module CreateTopicInput.
Record t : Type := mk { name : string; slug : string; description : option string }.
End CreateTopicInput.

Definition createTopicSchema (o : TopicBody.t) : Zod.result CreateTopicInput.t :=
  match
    both (Zod.transform
            (Zod.string_ "name" (Some (1, "Topic name is required"))
               (Some (50, "Topic name cannot exceed 50 characters")))
            Slug.nameTransform (TopicBody.name o))
      (both (Zod.transform
               (Zod.string_ "slug" (Some (1, "Slug is required"))
                  (Some (50, "Slug cannot exceed 50 characters")))
               Slug.slugTransform (TopicBody.slug o))
            (Zod.optional
               (Zod.string_ "description" None
                  (Some (200, "Description cannot exceed 200 characters")))
               (TopicBody.description o)))
  with
  | inr (n, (s, d)) => inr (CreateTopicInput.mk n s d)
  | inl errs => inl errs
  end.

(** The object the questions listing hands to [questionsQuerySchema.parse] *)
Module QueryParams.
Record t : Type := mk {
  page : JS.value; limit : JS.value; sort : JS.value; topic : JS.value
}.
End QueryParams.

Module QuestionsQuery.
Record t : Type := mk {
  page : Z; limit : Z; sort : SortOrder; topic : option string
}.
End QuestionsQuery.

Section Query.

Variable StringToNumber : string -> JS.number.

Definition questionsQuerySchema (o : QueryParams.t) : Zod.result QuestionsQuery.t :=
  match
    both (Zod.default (Zod.coerceIntPositive StringToNumber "page" None) 1%Z
            (QueryParams.page o))
      (both (Zod.default (Zod.coerceIntPositive StringToNumber "limit" (Some 50%Z)) 20%Z
               (QueryParams.limit o))
         (both (Zod.default
                  (Zod.enum "sort" [("recent", recent); ("most_voted", most_voted)])
                  recent (QueryParams.sort o))
               (Zod.optional (Zod.string_ "topic" None None) (QueryParams.topic o))))
  with
  | inr (p, (l, (s, t))) => inr (QuestionsQuery.mk p l s t)
  | inl errs => inl errs
  end.

End Query.

End Validations.

(* ================================================================== *)
(** ** The request, the response and the handler monad *)
(* ================================================================== *)

(** A request as the handlers read it: the user id of the session the
    identity provider verified (if any), the query string as the list of
    its name/value pairs, and the properties of the JSON body. *)
Record NextRequest (Body : Type) : Type := mkRequest {
  session : option string;
  searchParams : list (string * string);
  json : Body
}.
Arguments mkRequest {Body}.
Arguments session {Body}.
Arguments searchParams {Body}.
Arguments json {Body}.

(** [searchParams.get(name)]: the first value of that name, or [null]. *)
Fixpoint searchParams_get (ps : list (string * string)) (name : string) : option string :=
  match ps with
  | [] => None
  | (k, v) :: rest => if String.eqb k name then Some v else searchParams_get rest name
  end.

Definition nullable (o : option string) : JS.value :=
  match o with Some s => JS.Str s | None => JS.Null end.

(** What the runtime hands to one request: the result of
    [crypto.randomUUID()] and of [new Date()]. *)
Record Env : Type := mkEnv { uuid : string; now : Z }.

Record Pagination : Type := mkPagination {
  page : Z; limit : Z; total : Z; totalPages : Z
}.

(** [ApiSuccessResponse<T>] and [ApiErrorResponse]; no caller in the
    modelled routes passes [details]. *)
Inductive ApiBody (T : Type) : Type :=
| ApiSuccess (data : T) (message : option string) (pagination : option Pagination)
| ApiError (error : string).
Arguments ApiSuccess {T}.
Arguments ApiError {T}.

Record NextResponse (T : Type) : Type := mkResponse {
  status : Z;
  body : ApiBody T
}.
Arguments mkResponse {T}.
Arguments status {T}.
Arguments body {T}.

(** One call of [console.error] *)
Inductive LogEntry : Type :=
| LogApiError (error : string)          (* "API Error:", error, details *)
| LogUnhandled (error : Thrown).        (* "Unhandled API error:", error *)

Record World : Type := mkWorld {
  db : DB;
  console : list LogEntry
}.

(** A computation of the server: it reads and writes the database, writes
    to the console, and returns or throws.  A read always returns, and a
    write throws only when a constraint of the table rejects it. *)
Definition M (A : Type) : Type := World -> (Thrown + A) * World.

Definition ret {A} (a : A) : M A := fun w => (inr a, w).

Definition bind {A B} (c : M A) (k : A -> M B) : M B :=
  fun w => match c w with
           | (inr a, w') => k a w'
           | (inl e, w') => (inl e, w')
           end.

Definition throw {A} (e : Thrown) : M A := fun w => (inl e, w).

Definition tryCatch {A} (c : M A) (handler : Thrown -> M A) : M A :=
  fun w => match c w with
           | (inl e, w') => handler e w'
           | r => r
           end.

Definition query {A} (f : DB -> A) : M A := fun w => (inr (f (db w)), w).

Definition execute (f : DB -> Thrown + DB) : M unit :=
  fun w => match f (db w) with
           | inr d => (inr tt, mkWorld d (console w))
           | inl e => (inl e, w)
           end.

Definition console_error (l : LogEntry) : M unit :=
  fun w => (inr tt, mkWorld (db w) (console w ++ [l])).

Declare Scope handler_scope.
Delimit Scope handler_scope with handler.
Notation "x <- c ;; k" := (bind c (fun x => k))
  (at level 100, c at next level, right associativity) : handler_scope.
Notation "c ;;; k" := (bind c (fun _ => k))
  (at level 100, right associativity) : handler_scope.

(* ================================================================== *)
(** ** lib/api-utils.ts *)
(* ================================================================== *)

Module ApiUtils.

Local Open Scope handler_scope.
Local Open Scope Z_scope.

Record VoteCounts : Type := mkCounts { upvotes : Z; downvotes : Z; total : Z }.

(** [createSuccessResponse(data, message, pagination)];
    [Math.ceil(total / limit)] is taken on the exact quotient. *)
Definition createSuccessResponse {T} (data : T) (message : string)
  (pagination : option (Z * Z * Z)) : NextResponse T :=
  mkResponse 200
    (ApiSuccess data
       (if JS.isEmpty message then None else Some message)
       (match pagination with
        | Some (p, l, t) =>
            Some (mkPagination p l t (JS.ceil (inject_Z t / inject_Z l)%Q))
        | None => None
        end)).

(** [createErrorResponse(error, status)] *)
Definition createErrorResponse {T} (error : string) (st : Z) : M (NextResponse T) :=
  console_error (LogApiError error) ;;;
  ret (mkResponse st (ApiError error)).

(** [getAuthenticatedUser]: no session, or a session without a user id,
    gives [null]; otherwise the first row of [user] with that id. *)
Definition getAuthenticatedUser {B} (request : NextRequest B) : M (option User.t) :=
  match session request with
  | None => ret None
  | Some uid =>
      if JS.isEmpty uid then ret None
      else
        userData <- query (fun d =>
          firstn 1 (filter (fun u => String.eqb (User.id u) uid) (users d))) ;;
        ret (hd_error userData)
  end.

Definition requireAuth {B} (request : NextRequest B) : M User.t :=
  user <- getAuthenticatedUser request ;;
  match user with
  | None => throw (JsError "Authentication required")
  | Some u => ret u
  end.

(** [validateRequestBody(request, schema)]: [schema.parse] throws the
    [ZodError] carrying the issues. *)
Definition validateRequestBody {B T} (request : NextRequest B)
  (schema : B -> Zod.result T) : M T :=
  match schema (json request) with
  | inr v => ret v
  | inl issues => throw (ZodError issues)
  end.

Definition generateId (env : Env) : string := uuid env.

Definition getPaginationParams (page limit : Z) : Z * Z :=
  let offset := (page - 1) * limit in
  (limit, offset).

(** SQL [count(e)]: the number of rows on which [e] is not null. *)
Definition sqlCount {R A} (e : R -> option A) (rows : list R) : Z :=
  Z.of_nat (List.length (filter (fun r => match e r with Some _ => true | None => false end) rows)).

(** [CASE WHEN vote_type = ty THEN 1 END] *)
Definition caseVoteType (ty : VoteType) (v : Vote.t) : option Z :=
  if VoteType_eqb (Vote.voteType v) ty then Some 1 else None.

(** [getItemVoteCounts(itemId, itemType)] *)
Definition getItemVoteCounts (itemId : string) (itemType : ItemType) : M VoteCounts :=
  result <- query (fun d =>
    let rows := filter (fun v => String.eqb (Vote.itemId v) itemId
                                 && ItemType_eqb (Vote.itemType v) itemType)
                       (votes d) in
    (sqlCount (caseVoteType upvote) rows, sqlCount (caseVoteType downvote) rows)) ;;
  ret (mkCounts (fst result) (snd result) (fst result - snd result)).

Section WithRuntime.

(** [ZodError.prototype.message]: the serialisation of the issues, made by
    the validation library. *)
Variable zodErrorMessage : list Zod.issue -> string.

(** [error instanceof Error] together with [error.message] *)
Definition errorMessage (error : Thrown) : option string :=
  match error with
  | JsError m => Some m
  | ZodError issues => Some (zodErrorMessage issues)
  | NonError => None
  end.

(** [handleApiError(error)] *)
Definition handleApiError {T} (error : Thrown) : M (NextResponse T) :=
  console_error (LogUnhandled error) ;;;
  match errorMessage error with
  | Some message =>
      if String.eqb message "Authentication required"
      then createErrorResponse "Authentication required" 401
      else if JS.includes message "not found"
      then createErrorResponse "Resource not found" 404
      else if JS.includes message "unauthorized"
      then createErrorResponse "Unauthorized" 403
      else createErrorResponse message 500
  | None => createErrorResponse "Internal server error" 500
  end.

End WithRuntime.

End ApiUtils.

(* ================================================================== *)
(** ** app/api/votes/route.ts *)
(* ================================================================== *)

Module VotesRoute.

Import ApiUtils Validations.
Local Open Scope handler_scope.

(** The [data] of the response of [POST] *)
Record VoteResult : Type := mkVoteResult {
  vote : option Vote.t;
  voteCounts : VoteCounts;
  userVoteType : option VoteType
}.

(** The [data] of the response of [DELETE] *)
Record RemoveResult : Type := mkRemoveResult {
  removedCounts : VoteCounts;
  removedUserVoteType : option VoteType
}.

(** The kind-specific existence check: [select id from questions] or
    [from answers], [where id = itemId limit 1]. *)
Definition selectItem (itemType : ItemType) (itemId : string) : M (list string) :=
  match itemType with
  | question =>
      query (fun d => firstn 1 (map Question.id
               (filter (fun q => String.eqb (Question.id q) itemId) (questions d))))
  | answer =>
      query (fun d => firstn 1 (map Answer.id
               (filter (fun a => String.eqb (Answer.id a) itemId) (answers d))))
  end.

(** [select * from votes where user_id = .. and item_id = .. and
    item_type = .. limit 1] *)
Definition selectExistingVote (userId itemId : string) (itemType : ItemType)
  : M (list Vote.t) :=
  query (fun d => firstn 1 (filter (Store.voteOf userId itemId itemType) (votes d))).

Definition deleteVote (i : string) : M unit :=
  execute (fun d => inr (Store.deleteVoteById i d)).

Definition updateVote (i : string) (vt : VoteType) (now : Z) : M (list Vote.t) :=
  fun w =>
    let (d, returned) := Store.updateVoteById i vt now (db w) in
    (inr returned, mkWorld d (console w)).

Definition insertVote (v : Vote.t) : M (list Vote.t) :=
  execute (Store.insertVote v) ;;; ret [v].

(** [["question", "answer"].includes(itemType)], with the item type it
    names *)
Definition parseItemType (s : string) : option ItemType :=
  if String.eqb s "question" then Some question
  else if String.eqb s "answer" then Some answer
  else None.

Section WithRuntime.

Variable zodErrorMessage : list Zod.issue -> string.

(** [POST /api/votes] *)
Definition POST (env : Env) (request : NextRequest VoteBody.t)
  : M (NextResponse VoteResult) :=
  tryCatch
    (authenticatedUser <- requireAuth request ;;
     body <- validateRequestBody request createVoteSchema ;;
     itemExists <- selectItem (CreateVoteInput.itemType body)
                              (CreateVoteInput.itemId body) ;;
     match itemExists with
     | [] =>
         createErrorResponse
           (ItemType_text (CreateVoteInput.itemType body) ++ " not found") 404
     | _ :: _ =>
         existingVote <- selectExistingVote (User.id authenticatedUser)
                           (CreateVoteInput.itemId body)
                           (CreateVoteInput.itemType body) ;;
         vote <- match existingVote with
                 | existing :: _ =>
                     if VoteType_eqb (Vote.voteType existing)
                                     (CreateVoteInput.voteType body)
                     then deleteVote (Vote.id existing) ;;; ret None
                     else
                       returned <- updateVote (Vote.id existing)
                                     (CreateVoteInput.voteType body) (now env) ;;
                       ret (hd_error returned)
                 | [] =>
                     returned <- insertVote
                                   (Vote.mk (generateId env)
                                      (User.id authenticatedUser)
                                      (CreateVoteInput.itemId body)
                                      (CreateVoteInput.itemType body)
                                      (CreateVoteInput.voteType body)
                                      (now env)) ;;
                     ret (hd_error returned)
                 end ;;
         voteCounts <- getItemVoteCounts (CreateVoteInput.itemId body)
                                         (CreateVoteInput.itemType body) ;;
         ret (createSuccessResponse
                (mkVoteResult vote voteCounts (option_map Vote.voteType vote))
                (match vote with
                 | Some _ => "Vote recorded successfully"
                 | None => "Vote removed successfully"
                 end)
                None)
     end)
    (handleApiError zodErrorMessage).

(** [DELETE /api/votes] *)
Definition DELETE (request : NextRequest unit) : M (NextResponse RemoveResult) :=
  tryCatch
    (authenticatedUser <- requireAuth request ;;
     match searchParams_get (searchParams request) "itemId",
           searchParams_get (searchParams request) "itemType" with
     | Some itemId, Some itemTypeText =>
         match JS.isEmpty itemId, parseItemType itemTypeText with
         | false, Some itemType =>
             itemExists <- selectItem itemType itemId ;;
             match itemExists with
             | [] => createErrorResponse (ItemType_text itemType ++ " not found") 404
             | _ :: _ =>
                 existingVote <- selectExistingVote (User.id authenticatedUser)
                                   itemId itemType ;;
                 match existingVote with
                 | [] => createErrorResponse "No vote found for this item" 404
                 | existing :: _ =>
                     deleteVote (Vote.id existing) ;;;
                     voteCounts <- getItemVoteCounts itemId itemType ;;
                     ret (createSuccessResponse
                            (mkRemoveResult voteCounts None)
                            "Vote removed successfully" None)
                 end
             end
         | _, _ =>
             createErrorResponse
               "itemId and itemType (question/answer) are required" 400
         end
     | _, _ =>
         createErrorResponse
           "itemId and itemType (question/answer) are required" 400
     end)
    (handleApiError zodErrorMessage).

End WithRuntime.

End VotesRoute.

(* ================================================================== *)
(** ** app/api/questions/route.ts: the listing *)
(* ================================================================== *)

Module QuestionsRoute.

Import ApiUtils Validations.
Local Open Scope handler_scope.
Local Open Scope Z_scope.

(** One element of [formattedQuestions], the data of a success response:
    the question, its author (the joined user or the placeholder), the
    counts and the topic names. *)
Record FormattedQuestion : Type := mkFormatted {
  f_question : Question.t;
  f_author : User.t;
  f_voteCount : Z;
  f_upvotes : Z;
  f_downvotes : Z;
  f_answerCount : Z;
  f_topics : list string
}.

(** The message of the [TypeError] that the engine throws when the value
    called is not a function, for the callee as the source writes it. *)
Definition notAFunction (callee : string) : string :=
  callee ++ " is not a function".

Section WithRuntime.

Variable StringToNumber : string -> JS.number.
Variable zodErrorMessage : list Zod.issue -> string.

(** [GET /api/questions].  After the parameters are parsed the handler
    builds the page query, a chain of calls on the query builder that
    reads nothing until it is awaited.  The third join of the chain is
    [.leftJoin(votes.as("v"), ..)] (and the fifth [topics.as("t")]):
    [votes] is the table object that [pgTable] returned, which has its
    columns as properties and no property [as], so evaluating the
    argument calls [undefined] and throws a [TypeError].  Nothing after
    it runs: neither the page query nor the count query is sent, and no
    success response is built. *)
Definition GET (request : NextRequest unit) : M (NextResponse (list FormattedQuestion)) :=
  tryCatch
    (let get name := nullable (searchParams_get (searchParams request) name) in
     match questionsQuerySchema StringToNumber
             (QueryParams.mk (get "page") (get "limit") (get "sort") (get "topic")) with
     | inl issues => throw (ZodError issues)
     | inr query_ =>
         let (limit, offset) :=
           getPaginationParams (QuestionsQuery.page query_) (QuestionsQuery.limit query_) in
         throw (JsError (notAFunction "votes.as"))
     end)
    (handleApiError zodErrorMessage).

End WithRuntime.

End QuestionsRoute.

(* ================================================================== *)
(** ** app/api/topics/route.ts: topic creation *)
(* ================================================================== *)

Module TopicsRoute.

Import ApiUtils Validations.
Local Open Scope handler_scope.

(** [(topics.name = name OR topics.slug = slug)] *)
Definition nameOrSlug (name slug : string) (t : Topic.t) : bool :=
  String.eqb (Topic.name t) name || String.eqb (Topic.slug t) slug.

(** [body.description || null] *)
Definition orNull (o : option string) : option string :=
  match o with
  | Some s => if JS.isEmpty s then None else Some s
  | None => None
  end.

Section WithRuntime.

Variable zodErrorMessage : list Zod.issue -> string.

(** [POST /api/topics] *)
Definition POST (env : Env) (request : NextRequest TopicBody.t)
  : M (NextResponse (option Topic.t)) :=
  tryCatch
    (body <- validateRequestBody request createTopicSchema ;;
     existingTopic <- query (fun d =>
       firstn 1 (filter (nameOrSlug (CreateTopicInput.name body)
                                    (CreateTopicInput.slug body)) (topics d))) ;;
     match existingTopic with
     | _ :: _ =>
         createErrorResponse "Topic with this name or slug already exists" 409
     | [] =>
         let row := Topic.mk (generateId env) (CreateTopicInput.name body)
                      (CreateTopicInput.slug body)
                      (orNull (CreateTopicInput.description body))
                      (now env) (now env) in
         execute (Store.insertTopic row) ;;;
         ret (createSuccessResponse (Some row) "Topic created successfully" None)
     end)
    (handleApiError zodErrorMessage).

End WithRuntime.

End TopicsRoute.

(* ================================================================== *)
(** ** The vocabulary of the properties, and worked data *)
(* ================================================================== *)

Module Aggregation.

Import ApiUtils.
Local Open Scope Z_scope.

(** The number of rows of [vs] that are votes of direction [dir] on the
    item [(itemId, itemType)]. *)
Definition rowsWith (itemId : string) (itemType : ItemType) (dir : VoteType)
  (vs : list Vote.t) : Z :=
  Z.of_nat (List.length
    (filter (fun v => String.eqb (Vote.itemId v) itemId
                      && ItemType_eqb (Vote.itemType v) itemType
                      && VoteType_eqb (Vote.voteType v) dir) vs)).

(** The tallies of an item over a vote table. *)
Definition tally (itemId : string) (itemType : ItemType) (vs : list Vote.t)
  : VoteCounts :=
  mkCounts (rowsWith itemId itemType upvote vs)
           (rowsWith itemId itemType downvote vs)
           (rowsWith itemId itemType upvote vs - rowsWith itemId itemType downvote vs).

End Aggregation.

Module Ledger.

Import ApiUtils Validations VotesRoute.

(** The votes that voter [uid] holds on item [(iid, ty)]. *)
Definition votesOf (uid iid : string) (ty : ItemType) (vs : list Vote.t) : list Vote.t :=
  filter (Store.voteOf uid iid ty) vs.

(** The constraint [votes_user_item_unique]: no voter has two rows on one
    item. *)
Definition uniquePerTriple (vs : list Vote.t) : Prop :=
  forall uid iid ty, List.length (votesOf uid iid ty vs) <= 1.

(** The primary key of [votes]. *)
Definition uniqueIds (vs : list Vote.t) : Prop := NoDup (map Vote.id vs).

(** The item a vote is about exists. *)
Definition targetExists (ty : ItemType) (iid : string) (d : DB) : bool :=
  match ty with
  | question => existsb (fun q => String.eqb (Question.id q) iid) (questions d)
  | answer => existsb (fun a => String.eqb (Answer.id a) iid) (answers d)
  end.

(** The two operations of the ledger, as requests to the route. *)
Inductive Operation : Type :=
| castVote (env : Env) (request : NextRequest VoteBody.t)
| removeVote (request : NextRequest unit).

Section WithRuntime.

Variable zodErrorMessage : list Zod.issue -> string.

Definition perform (op : Operation) (w : World) : World :=
  match op with
  | castVote env request => snd (POST zodErrorMessage env request w)
  | removeVote request => snd (DELETE zodErrorMessage request w)
  end.

Definition performAll (ops : list Operation) (w : World) : World :=
  fold_left (fun w op => perform op w) ops w.

End WithRuntime.

(** Running [c] from a state whose vote table satisfies the constraint
    ends in such a state, whether [c] returns or throws. *)
Definition Keeps {A} (c : M A) : Prop :=
  forall w, uniquePerTriple (votes (db w)) ->
            uniquePerTriple (votes (db (snd (c w)))).

(** The directions voter [uid] holds on item [(iid, ty)]. *)
Definition held (uid iid : string) (ty : ItemType) (w : World) : list VoteType :=
  map Vote.voteType (votesOf uid iid ty (votes (db w))).

(** The direction the response reports, when the response is a success. *)
Definition reportedDirection (r : NextResponse VoteResult) : option (option VoteType) :=
  match body r with
  | ApiSuccess data _ _ => Some (userVoteType data)
  | ApiError _ => None
  end.

(** The holding after a cast of [dir], from the holding before it *)
Definition toggled (before : list VoteType) (dir : VoteType) : list VoteType :=
  match before with
  | [] => [dir]
  | d :: _ => if VoteType_eqb d dir then [] else [dir]
  end.

(** Worked data: one user, one question, and the requests of that user *)
Definition alice : User.t := User.mk "alice" "Alice" "alice@example.org" None.

Definition q1 : Question.t :=
  Question.mk "q1" "How do I tag a question?" "I cannot find the field." "alice" 10 10.

Definition emptyLedger : World := mkWorld (mkDB [alice] [] [q1] [] [] []) [].

Definition upvoteHeld : World :=
  mkWorld (mkDB [alice] [] [q1] []
             [Vote.mk "v0" "alice" "q1" question upvote 20] []) [].

Definition castUp : NextRequest VoteBody.t :=
  mkRequest (Some "alice") []
    (VoteBody.mk (JS.Str "q1") (JS.Str "question") (JS.Str "upvote")).

Definition removeOnQ1 : NextRequest unit :=
  mkRequest (Some "alice") [("itemId", "q1"); ("itemType", "question")] tt.

Definition firstCall : Env := mkEnv "v1" 30.
Definition secondCall : Env := mkEnv "v2" 40.

End Ledger.

Module Errors.

(** The message of the driver's error when the database is down *)
Definition connectionRefused : string := "connect ECONNREFUSED 127.0.0.1:5432".

End Errors.

Module Listing.

Import ApiUtils Validations QuestionsRoute.
Local Open Scope Z_scope.

(** Worked data for the listing *)
Definition alice : User.t := User.mk "alice" "Alice" "alice@example.org" None.

Definition q1 : Question.t :=
  Question.mk "q1" "What is overfitting?" "Asking for a friend." "alice" 10 10.

Definition q2 : Question.t :=
  Question.mk "q2" "What is a tensor?" "A short answer, please." "alice" 20 20.

Definition machineLearning : Topic.t :=
  Topic.mk "t1" "machine learning" "machine-learning" None 5 5.

(** Two questions, both tagged with the topic whose name is "machine
    learning" and whose slug is "machine-learning". *)
Definition tagged : World :=
  mkWorld
    (mkDB [alice] [machineLearning] [q1; q2] [] []
       [QuestionTopic.mk "qt1" "q1" "t1" 11; QuestionTopic.mk "qt2" "q2" "t1" 21])
    [].

(** [GET /api/questions?page=..&limit=..&sort=..&topic=..] *)
Definition listing (page limit sort topic : string) : NextRequest unit :=
  mkRequest None
    [("page", page); ("limit", limit); ("sort", sort); ("topic", topic)] tt.

(** The listing with the worked instances of the runtime *)
Definition get : NextRequest unit -> M (NextResponse (list FormattedQuestion)) :=
  GET JS.decimalStringToNumber Zod.renderIssues.

End Listing.

Module Topics.

Import ApiUtils Validations TopicsRoute.
Local Open Scope Z_scope.

(** Worked data for topic creation: a request without a session *)
Definition rocq : NextRequest TopicBody.t :=
  mkRequest None []
    (TopicBody.mk (JS.Str "  Rocq Prover ") (JS.Str "Rocq  Prover") JS.Undefined).

Definition noTopics : World := mkWorld (mkDB [] [] [] [] [] []) [].

Definition callEnv : Env := mkEnv "t-1" 50.

End Topics.

From Stdlib Require Import Sorting.Sorted Sorting.Permutation.

(* ================================================================== *)
(** ** Further operations of the sources *)
(* ================================================================== *)

(** *** [order by], as a stable insertion sort over any row type *)

Module Sql.

Section Sort.

Variable A : Type.
Variable precedes : A -> A -> bool.

Fixpoint insertSorted (x : A) (l : list A) : list A :=
  match l with
  | [] => [x]
  | y :: l' => if precedes x y then x :: l else y :: insertSorted x l'
  end.

Definition orderBy (l : list A) : list A := fold_right insertSorted [] l.

End Sort.

Arguments insertSorted {A}.
Arguments orderBy {A}.

End Sql.

(** *** lib/api-utils.ts: the user's vote *)

Module UserVote.

Import ApiUtils.
Local Open Scope handler_scope.

(** [getUserVote(userId, itemId, itemType)] *)
Definition getUserVote (userId itemId : string) (itemType : ItemType)
  : M (option Vote.t) :=
  userVote <- query (fun d =>
    firstn 1 (filter (Store.voteOf userId itemId itemType) (votes d))) ;;
  ret (hd_error userVote).

End UserVote.

(** *** app/api/votes/route.ts: the listing of votes *)

Module VotesList.

Import ApiUtils.
Local Open Scope handler_scope.
Local Open Scope Z_scope.

(** A vote with the row of [user] joined to it (null when the left join
    found none) *)
Record JoinedVote : Type := mkJoined {
  j_vote : Vote.t;
  j_user : option User.t
}.

(** A vote of the response: the joined user, or the placeholder *)
Record FormattedVote : Type := mkFormattedVote {
  f_vote : Vote.t;
  f_user : User.t
}.

Record VotesData : Type := mkVotesData {
  d_votes : list FormattedVote;
  d_voteCounts : option VoteCounts
}.

(** What the [where] of the query keeps *)
Inductive Filter : Type :=
| ByItem (itemId : string) (itemType : ItemType)
| ByUser (userId : string).

Definition keeps (f : Filter) (v : Vote.t) : bool :=
  match f with
  | ByItem itemId itemType =>
      String.eqb (Vote.itemId v) itemId && ItemType_eqb (Vote.itemType v) itemType
  | ByUser userId => String.eqb (Vote.userId v) userId
  end.

(** [from votes left join user on votes.user_id = user.id where ..] *)
Definition joinUsers (f : Filter) (d : DB) : list JoinedVote :=
  flat_map (fun v =>
    map (mkJoined v)
        (Store.leftJoin (fun u => String.eqb (Vote.userId v) (User.id u)) (users d)))
    (filter (keeps f) (votes d)).

(** [order by votes.created_at desc] *)
Definition newestFirst (a b : JoinedVote) : bool :=
  Vote.createdAt (j_vote b) <=? Vote.createdAt (j_vote a).

Definition selectVotes (f : Filter) (d : DB) : list JoinedVote :=
  Sql.orderBy newestFirst (joinUsers f d).

Definition format (j : JoinedVote) : FormattedVote :=
  mkFormattedVote (j_vote j)
    (match j_user j with
     | Some u => u
     | None => User.mk (Vote.userId (j_vote j)) "Unknown User" "" None
     end).

(** A query parameter that is present and not the empty string *)
Definition truthy (o : option string) : option string :=
  match o with
  | Some s => if JS.isEmpty s then None else Some s
  | None => None
  end.

Section WithRuntime.

Variable zodErrorMessage : list Zod.issue -> string.

(** [GET /api/votes] *)
Definition GET (request : NextRequest unit) : M (NextResponse VotesData) :=
  tryCatch
    (let itemId := truthy (searchParams_get (searchParams request) "itemId") in
     let itemType := searchParams_get (searchParams request) "itemType" in
     let userId := truthy (searchParams_get (searchParams request) "userId") in
     match itemId, userId with
     | None, None =>
         createErrorResponse "Either itemId or userId must be provided" 400
     | Some iid, _ =>
         match match itemType with
               | Some t => VotesRoute.parseItemType t
               | None => None
               end with
         | None =>
             createErrorResponse
               "itemType (question/answer) is required when itemId is provided" 400
         | Some ty =>
             votesData <- query (selectVotes (ByItem iid ty)) ;;
             voteCounts <- getItemVoteCounts iid ty ;;
             ret (createSuccessResponse
                    (mkVotesData (map format votesData) (Some voteCounts))
                    "Votes retrieved successfully" None)
         end
     | None, Some uid =>
         votesData <- query (selectVotes (ByUser uid)) ;;
         ret (createSuccessResponse
                (mkVotesData (map format votesData) None)
                "Votes retrieved successfully" None)
     end)
    (handleApiError zodErrorMessage).

End WithRuntime.

(** How [GET /api/votes] reads its parameters *)
Inductive Selection : Type :=
| NothingSelected                (* neither [itemId] nor [userId] *)
| ItemTypeMissing                (* [itemId] without a valid [itemType] *)
| Selected (f : Filter).

Definition selection (request : NextRequest unit) : Selection :=
  match truthy (searchParams_get (searchParams request) "itemId"),
        truthy (searchParams_get (searchParams request) "userId") with
  | Some iid, _ =>
      match match searchParams_get (searchParams request) "itemType" with
            | Some t => VotesRoute.parseItemType t
            | None => None
            end with
      | Some ty => Selected (ByItem iid ty)
      | None => ItemTypeMissing
      end
  | None, Some uid => Selected (ByUser uid)
  | None, None => NothingSelected
  end.

(** Newest first, on votes *)
Definition notOlder (a b : Vote.t) : Prop := (Vote.createdAt b <= Vote.createdAt a)%Z.

End VotesList.

(** *** The vocabulary of the further properties *)

Module Access.

(** The request carries a session whose user id is not empty and names a
    row of [user]. *)
Definition signedIn {B} (request : NextRequest B) (d : DB) : bool :=
  match session request with
  | Some uid =>
      negb (JS.isEmpty uid)
      && existsb (fun u => String.eqb (User.id u) uid) (users d)
  | None => false
  end.

(** What [handleApiError] adds to the console for the error of
    [requireAuth] *)
Definition authenticationLog : list LogEntry :=
  [LogUnhandled (JsError "Authentication required");
   LogApiError "Authentication required"].

(** A response together with the state it was given in, for a handler
    that cannot throw *)
Definition answered {T} (c : M (NextResponse T)) (w : World)
  : option (NextResponse T * World) :=
  match c w with
  | (inr r, w') => Some (r, w')
  | (inl _, _) => None
  end.

(** The handler answers, and an answer whose status is not 200 comes with
    the database as it was. *)
Definition AllOrNothing {T} (c : M (NextResponse T)) : Prop :=
  forall w, exists r w',
    c w = (inr r, w') /\ (status r = 200%Z \/ db w' = db w).

(** The handler answers and never changes the database. *)
Definition ReadOnly {T} (c : M (NextResponse T)) : Prop :=
  forall w, exists r w', c w = (inr r, w') /\ db w' = db w.

(** Running [c] leaves the database as it was, whether it returns or
    throws. *)
Definition Reads {A} (c : M A) : Prop := forall w, db (snd (c w)) = db w.

(** When [c] throws, the database is as it was. *)
Definition FailsClean {A} (c : M A) : Prop :=
  forall w e w', c w = (inl e, w') -> db w' = db w.

(** [c] returns a response of status 200. *)
Definition Final200 {T} (c : M (NextResponse T)) : Prop :=
  forall w, exists r w', c w = (inr r, w') /\ status r = 200%Z.

(** [c] has written only if it returns a response of status 200. *)
Definition Atomic {T} (c : M (NextResponse T)) : Prop :=
  forall w,
    match c w with
    | (inl _, w') => db w' = db w
    | (inr r, w') => status r = 200%Z \/ db w' = db w
    end.

(** Every response that [c] returns has its status in [allowed]. *)
Definition AnswersWithin {T} (allowed : list Z) (c : M (NextResponse T)) : Prop :=
  forall w r w', c w = (inr r, w') -> In (status r) allowed.

(** The item a removal request names, when its two parameters are well
    formed: [itemId] present and not empty, [itemType] one of the two
    kinds. *)
Definition removalTarget (request : NextRequest unit) : option (string * ItemType) :=
  match searchParams_get (searchParams request) "itemId",
        searchParams_get (searchParams request) "itemType" with
  | Some i, Some t =>
      if JS.isEmpty i then None
      else match VotesRoute.parseItemType t with
           | Some ty => Some (i, ty)
           | None => None
           end
  | _, _ => None
  end.

End Access.

Module Tallies.

Import ApiUtils.

Definition opposite (dir : VoteType) : VoteType :=
  match dir with upvote => downvote | downvote => upvote end.

(** The count of one direction in a tally *)
Definition countOf (dir : VoteType) (c : VoteCounts) : Z :=
  match dir with upvote => upvotes c | downvote => downvotes c end.

(** The tally a cast reports, when the response is a success *)
Definition reportedCounts (r : NextResponse VotesRoute.VoteResult) : option VoteCounts :=
  match body r with
  | ApiSuccess data _ _ => Some (VotesRoute.voteCounts data)
  | ApiError _ => None
  end.

(** The vote a cast reports, when the response is a success *)
Definition reportedVote (r : NextResponse VotesRoute.VoteResult) : option (option Vote.t) :=
  match body r with
  | ApiSuccess data _ _ => Some (VotesRoute.vote data)
  | ApiError _ => None
  end.

(** How many of the directions [hs] are [d] *)
Definition directionCount (d : VoteType) (hs : list VoteType) : Z :=
  Z.of_nat (List.length (filter (fun h => VoteType_eqb h d) hs)).

(** Running [c] from a database satisfying [P] ends in one satisfying
    [P]. *)
Definition Preserves (P : DB -> Prop) {A} (c : M A) : Prop :=
  forall w, P (db w) -> P (db (snd (c w))).

(** The foreign key of [votes]: the voter of every vote is a row of
    [user]. *)
Definition votersExist (d : DB) : Prop :=
  forall v, In v (votes d) ->
            existsb (fun u => String.eqb (User.id u) (Vote.userId v)) (users d) = true.

End Tallies.

Module Shapes.

Import Validations QuestionsRoute.
Local Open Scope Z_scope.

Definition VoteType_text (t : VoteType) : string :=
  match t with upvote => "upvote" | downvote => "downvote" end.

(** Every code unit of the string is white space. *)
Fixpoint whiteSpaceOnly (s : string) : bool :=
  match s with
  | EmptyString => true
  | String c s' => JS.isWhiteSpace c && whiteSpaceOnly s'
  end.

(** The parameters of a listing request as the handler hands them to the
    schema *)
Definition queryParams (request : NextRequest unit) : QueryParams.t :=
  QueryParams.mk
    (nullable (searchParams_get (searchParams request) "page"))
    (nullable (searchParams_get (searchParams request) "limit"))
    (nullable (searchParams_get (searchParams request) "sort"))
    (nullable (searchParams_get (searchParams request) "topic")).

End Shapes.

Module TopicCreation.

Import Validations TopicsRoute.

(** The description of a parsed body against the property sent: absent,
    or a string of at most 200 code units, kept as it is *)
Definition describes (v : JS.value) (d : option string) : Prop :=
  match v, d with
  | JS.Undefined, None => True
  | JS.Str x, Some y => x = y /\ (String.length x <= 200)%nat
  | _, _ => False
  end.

(** The primary key and the two unique constraints of [topics] *)
Definition uniqueTopics (d : DB) : Prop :=
  NoDup (map Topic.id (topics d))
  /\ NoDup (map Topic.name (topics d))
  /\ NoDup (map Topic.slug (topics d)).

(** One creation request after the other, each with its own generated id
    and time *)
Definition createAll (zodErrorMessage : list Zod.issue -> string)
  (calls : list (Env * NextRequest TopicBody.t)) (w : World) : World :=
  fold_left (fun w c => snd (POST zodErrorMessage (fst c) (snd c) w)) calls w.

(** A creation request for the given name and slug, without description *)
Definition naming (name slug : string) : NextRequest TopicBody.t :=
  mkRequest None [] (TopicBody.mk (JS.Str name) (JS.Str slug) JS.Undefined).

(** The same body sent again, by any caller *)
Definition again (s : option string) (request : NextRequest TopicBody.t)
  : NextRequest TopicBody.t :=
  mkRequest s (searchParams request) (json request).

End TopicCreation.

(* ================================================================== *)
(** ** Deleting a question or an answer *)
(* ================================================================== *)

Module Cascade.

(** [delete from questions where id = i].  The foreign keys of [answers]
    and [question_topics] to [questions] are [on delete cascade], so the
    rows that reference a deleted question go with it.  [votes] has no
    foreign key to [questions]. *)
Definition deleteQuestionById (i : string) (d : DB) : DB :=
  if existsb (fun q => String.eqb (Question.id q) i) (questions d)
  then mkDB (users d) (topics d)
         (filter (fun q => negb (String.eqb (Question.id q) i)) (questions d))
         (filter (fun a => negb (String.eqb (Answer.questionId a) i)) (answers d))
         (votes d)
         (filter (fun qt => negb (String.eqb (QuestionTopic.questionId qt) i))
                 (questionTopics d))
  else d.

(** [delete from answers where id = i]; no table references [answers]. *)
Definition deleteAnswerById (i : string) (d : DB) : DB :=
  mkDB (users d) (topics d) (questions d)
       (filter (fun a => negb (String.eqb (Answer.id a) i)) (answers d))
       (votes d) (questionTopics d).

End Cascade.

(** app/api/questions/[id]/route.ts *)
Module QuestionRoute.

Import ApiUtils.
Local Open Scope handler_scope.

Section WithRuntime.

Variable zodErrorMessage : list Zod.issue -> string.

(** [DELETE /api/questions/[id]]; the response data is [null]. *)
Definition DELETE (questionId : string) (request : NextRequest unit)
  : M (NextResponse JS.value) :=
  tryCatch
    (authenticatedUser <- requireAuth request ;;
     existingQuestion <- query (fun d =>
       firstn 1 (filter (fun q => String.eqb (Question.id q) questionId) (questions d))) ;;
     match existingQuestion with
     | [] => createErrorResponse "Question not found" 404
     | existing :: _ =>
         if negb (String.eqb (Question.authorId existing) (User.id authenticatedUser))
         then createErrorResponse "You can only delete your own questions" 403
         else
           execute (fun d => inr (Cascade.deleteQuestionById questionId d)) ;;;
           ret (createSuccessResponse JS.Null "Question deleted successfully" None)
     end)
    (handleApiError zodErrorMessage).

End WithRuntime.

End QuestionRoute.

(** app/api/answers/[id]/route.ts *)
Module AnswerRoute.

Import ApiUtils.
Local Open Scope handler_scope.

Section WithRuntime.

Variable zodErrorMessage : list Zod.issue -> string.

(** [DELETE /api/answers/[id]]; the response data is [null]. *)
Definition DELETE (answerId : string) (request : NextRequest unit)
  : M (NextResponse JS.value) :=
  tryCatch
    (authenticatedUser <- requireAuth request ;;
     existingAnswer <- query (fun d =>
       firstn 1 (filter (fun a => String.eqb (Answer.id a) answerId) (answers d))) ;;
     match existingAnswer with
     | [] => createErrorResponse "Answer not found" 404
     | existing :: _ =>
         if negb (String.eqb (Answer.authorId existing) (User.id authenticatedUser))
         then createErrorResponse "You can only delete your own answers" 403
         else
           execute (fun d => inr (Cascade.deleteAnswerById answerId d)) ;;;
           ret (createSuccessResponse JS.Null "Answer deleted successfully" None)
     end)
    (handleApiError zodErrorMessage).

End WithRuntime.

End AnswerRoute.

Module Deletion.

Import Access.
Local Open Scope Z_scope.

(** The deletion of an item of either kind *)
Definition deleteItem (zodErrorMessage : list Zod.issue -> string)
  (ty : ItemType) (i : string) (request : NextRequest unit)
  : M (NextResponse JS.value) :=
  match ty with
  | question => QuestionRoute.DELETE zodErrorMessage i request
  | answer => AnswerRoute.DELETE zodErrorMessage i request
  end.

(** What a successful deletion does to the database *)
Definition deleteById (ty : ItemType) (i : string) (d : DB) : DB :=
  match ty with
  | question => Cascade.deleteQuestionById i d
  | answer => Cascade.deleteAnswerById i d
  end.

(** The author id of the first row with the given id, if there is one *)
Definition owner (ty : ItemType) (i : string) (d : DB) : option string :=
  match ty with
  | question =>
      option_map Question.authorId
        (hd_error (filter (fun q => String.eqb (Question.id q) i) (questions d)))
  | answer =>
      option_map Answer.authorId
        (hd_error (filter (fun a => String.eqb (Answer.id a) i) (answers d)))
  end.

(** The user id of the caller, when signed in *)
Definition caller {B} (request : NextRequest B) (d : DB) : option string :=
  if signedIn request d then session request else None.

(** The status of a deletion, from who calls and who owns the item *)
Definition verdict (caller owner : option string) : Z :=
  match caller, owner with
  | None, _ => 401
  | Some _, None => 404
  | Some uid, Some author => if String.eqb author uid then 200 else 403
  end.

(** The foreign keys to [questions]: every answer and every topic
    association refers to a question that exists. *)
Definition refersToQuestions (d : DB) : Prop :=
  (forall a, In a (answers d) ->
             existsb (fun q => String.eqb (Question.id q) (Answer.questionId a))
                     (questions d) = true)
  /\ (forall qt, In qt (questionTopics d) ->
                 existsb (fun q => String.eqb (Question.id q) (QuestionTopic.questionId qt))
                         (questions d) = true).

(** Worked data: a question of Alice with an answer of Bob, a topic
    association and one vote on each *)
Definition alice : User.t := User.mk "alice" "Alice" "alice@example.org" None.
Definition bob : User.t := User.mk "bob" "Bob" "bob@example.org" None.

Definition thread : World :=
  mkWorld
    (mkDB [alice; bob]
       [Topic.mk "t1" "proofs" "proofs" None 5 5]
       [Question.mk "q1" "What is a tactic?" "I keep reading about them." "alice" 10 10]
       [Answer.mk "a1" "A program that builds a proof." "q1" "bob" 11 11]
       [Vote.mk "v1" "bob" "q1" question upvote 12;
        Vote.mk "v2" "alice" "a1" answer upvote 13]
       [QuestionTopic.mk "qt1" "q1" "t1" 10])
    [].

Definition by_ (uid : string) : NextRequest unit := mkRequest (Some uid) [] tt.

Definition removeVoteOn (uid i ty : string) : NextRequest unit :=
  mkRequest (Some uid) [("itemId", i); ("itemType", ty)] tt.

End Deletion.

Module Worked.

Import Validations.

(** A cast whose session names no row of [user] *)
Definition stranger : NextRequest VoteBody.t :=
  mkRequest (Some "mallory") []
    (VoteBody.mk (JS.Str "q1") (JS.Str "question") (JS.Str "upvote")).

(** A removal without a session *)
Definition anonymousRemoval : NextRequest unit :=
  mkRequest None [("itemId", "q1"); ("itemType", "question")] tt.

(** A cast and a removal on an answer that does not exist *)
Definition castOnGhost : NextRequest VoteBody.t :=
  mkRequest (Some "alice") []
    (VoteBody.mk (JS.Str "ghost") (JS.Str "answer") (JS.Str "downvote")).

Definition removeOnGhost : NextRequest unit :=
  mkRequest (Some "alice") [("itemId", "ghost"); ("itemType", "answer")] tt.

(** A removal whose [itemType] is not one of the two kinds *)
Definition removalOfComment : NextRequest unit :=
  mkRequest (Some "alice") [("itemId", "q1"); ("itemType", "comment")] tt.


(** The listing of the votes on the question q1 *)
Definition votesOnQ1 : NextRequest unit :=
  mkRequest None [("itemId", "q1"); ("itemType", "question")] tt.

End Worked.

(* ================================================================== *)
(** ** Strings as sequences of UTF-16 code units *)
(* ================================================================== *)

(** The string functions of [createTopicSchema] on every JavaScript
    string: a sequence of 16-bit code units, read as code points where
    ECMAScript does so. *)
Module Utf16.

Local Open Scope N_scope.

(** Every element is a 16-bit code unit. *)
Definition wellFormed (s : list N) : Prop := Forall (fun u => u < 0x10000) s.

(** WhiteSpace and LineTerminator of ECMAScript: TAB, LF, VT, FF, CR,
    SPACE, NBSP, the other code points of category Zs (U+1680,
    U+2000..U+200A, U+202F, U+205F, U+3000), LS, PS and ZWNBSP.  Both
    [String.prototype.trim] and the class [\s] of a regular expression
    use this set; all of it lies below the surrogates. *)
Definition isWhiteSpace (u : N) : bool :=
  ((0x9 <=? u) && (u <=? 0xD)) || (u =? 0x20) || (u =? 0xA0) || (u =? 0x1680)
  || ((0x2000 <=? u) && (u <=? 0x200A)) || (u =? 0x2028) || (u =? 0x2029)
  || (u =? 0x202F) || (u =? 0x205F) || (u =? 0x3000) || (u =? 0xFEFF).

Fixpoint trimStart (s : list N) : list N :=
  match s with
  | [] => []
  | u :: s' => if isWhiteSpace u then trimStart s' else s
  end.

Definition isEmpty (s : list N) : bool :=
  match s with [] => true | _ => false end.

Fixpoint trimEnd (s : list N) : list N :=
  match s with
  | [] => []
  | u :: s' =>
      let r := trimEnd s' in
      if isWhiteSpace u && isEmpty r then [] else u :: r
  end.

(** [s.trim()] *)
Definition trim (s : list N) : list N := trimEnd (trimStart s).

(** [s.replace(/\s+/g, r)]; [inRun] as in [JS.replaceWhiteSpaceRuns]. *)
Fixpoint replaceWhiteSpaceRuns (r : list N) (inRun : bool) (s : list N) : list N :=
  match s with
  | [] => []
  | u :: s' =>
      if isWhiteSpace u
      then (if inRun then replaceWhiteSpaceRuns r true s'
            else (r ++ replaceWhiteSpaceRuns r true s')%list)
      else u :: replaceWhiteSpaceRuns r false s'
  end.

(** *** Code points *)

Definition isHigh (u : N) : bool := (0xD800 <=? u) && (u <=? 0xDBFF).
Definition isLow (u : N) : bool := (0xDC00 <=? u) && (u <=? 0xDFFF).
Definition isSurrogate (c : N) : bool := (0xD800 <=? c) && (c <=? 0xDFFF).

(** [UTF16SurrogatePairToCodePoint] *)
Definition pairToCodePoint (h l : N) : N :=
  0x10000 + (h - 0xD800) * 0x400 + (l - 0xDC00).

(** [StringToCodePoints]: a high surrogate followed by a low surrogate is
    one code point; every other code unit, an unpaired surrogate
    included, is the code point of its own value. *)
Fixpoint codePoints (s : list N) : list N :=
  match s with
  | [] => []
  | a :: t =>
      match t with
      | b :: r =>
          if isHigh a && isLow b then pairToCodePoint a b :: codePoints r
          else a :: codePoints t
      | [] => [a]
      end
  end.

(** [UTF16EncodeCodePoint] and [CodePointsToString] *)
Definition encodeCodePoint (c : N) : list N :=
  if c <? 0x10000 then [c]
  else [0xD800 + (c - 0x10000) / 0x400; 0xDC00 + (c - 0x10000) mod 0x400].

Definition codeUnits (cps : list N) : list N := flat_map encodeCodePoint cps.

(** The code points proper, surrogate code points included *)
Definition scalars (l : list N) : Prop := Forall (fun c => c < 0x110000) l.

(** A sequence of code points in which no high surrogate stands directly
    before a low surrogate: as code units the two would be one code
    point. *)
Definition startsLow (l : list N) : bool :=
  match l with
  | b :: _ => isLow b
  | [] => false
  end.

Fixpoint unsplit (l : list N) : bool :=
  match l with
  | [] => true
  | a :: r => negb (isHigh a && startsLow r) && unsplit r
  end.

(** No element is white space. *)
Definition spaceless (s : list N) : Prop := Forall (fun u => isWhiteSpace u = false) s.

(** *** Lower case *)

Definition capitalSigma : N := 0x3A3.
Definition smallSigma : N := 0x3C3.
Definition smallFinalSigma : N := 0x3C2.
Definition hyphen : N := 0x2D.

Section CaseMapping.

(** The data of the Unicode Character Database that
    [String.prototype.toLowerCase] consults belongs to the engine: the
    lower-case mapping of every code point that has one other than
    itself, and the properties Cased and Case_Ignorable. *)
Variable lowercase : list (N * list N).
Variable cased : N -> bool.
Variable caseIgnorable : N -> bool.

Fixpoint lookup (table : list (N * list N)) (c : N) : option (list N) :=
  match table with
  | [] => None
  | (k, l) :: rest => if k =? c then Some l else lookup rest c
  end.

Definition lowercaseMapping (c : N) : list N :=
  match lookup lowercase c with
  | Some l => l
  | None => [c]
  end.

(** The condition Final_Sigma of SpecialCasing: the sigma is preceded by
    a cased letter and then zero or more case-ignorable code points, and
    is not followed by zero or more case-ignorable code points and then a
    cased letter.  [before] is the text before the sigma, nearest code
    point first. *)
Fixpoint reachesCased (l : list N) : bool :=
  match l with
  | [] => false
  | c :: r => cased c || (caseIgnorable c && reachesCased r)
  end.

Definition finalSigma (before after : list N) : bool :=
  reachesCased before && negb (reachesCased after).

(** What one code point becomes, between the text before it and the
    text after it: the capital sigma one of the two small sigmas, by its
    context; any other code point its mapping. *)
Definition image (before : list N) (c : N) (after : list N) : list N :=
  if c =? capitalSigma
  then [if finalSigma before after then smallFinalSigma else smallSigma]
  else lowercaseMapping c.

(** [toLowercase] of the Unicode Default Case Conversion *)
Fixpoint toLowercaseFrom (before cps : list N) : list N :=
  match cps with
  | [] => []
  | c :: r => (image before c r ++ toLowercaseFrom (c :: before) r)%list
  end.

(** [s.toLowerCase()] *)
Definition toLowerCase (s : list N) : list N :=
  codeUnits (toLowercaseFrom [] (codePoints s)).

(** [val => val.trim().toLowerCase()] *)
Definition nameTransform (val : list N) : list N :=
  toLowerCase (trim val).

(** [val => val.trim().toLowerCase().replace(/\s+/g, '-')] *)
Definition slugTransform (val : list N) : list N :=
  replaceWhiteSpaceRuns [hyphen] false (toLowerCase (trim val)).

(** A code point that lower-casing leaves alone: it has no mapping and is
    not the capital sigma. *)
Definition fixed (c : N) : Prop :=
  lookup lowercase c = None /\ c <> capitalSigma /\ c < 0x110000.

(** What the proofs need of the table, and what holds of the Unicode
    Character Database: no mapping is that of a surrogate or is empty;
    the code points a mapping consists of are code points proper that
    have no mapping of their own and are not the capital sigma; and
    neither the hyphen nor the two small sigmas have a mapping. *)
Definition fixedScalar (c : N) : bool :=
  match lookup lowercase c with None => true | Some _ => false end
  && negb (c =? capitalSigma) && negb (isSurrogate c) && (c <? 0x110000).

Definition settledEntry (e : N * list N) : bool :=
  negb (isSurrogate (fst e)) && negb (isEmpty (snd e)) && forallb fixedScalar (snd e).

Definition settledTable : bool :=
  forallb settledEntry lowercase
  && fixedScalar hyphen && fixedScalar smallSigma && fixedScalar smallFinalSigma.

End CaseMapping.

(** A string of code units below 256 as a sequence of code units *)
Definition unitsOf (s : string) : list N :=
  map N_of_ascii (list_ascii_of_string s).

End Utf16.

(** The lower-case mappings of the Unicode Character Database, version
    14.0: the simple mappings of UnicodeData.txt, each run
    [(first, count, step, target)] standing for the mappings
    [first + i * step] to [target + i * step] with [i < count], and the
    one unconditional mapping of SpecialCasing.txt, that of U+0130. *)
Module Unicode.

Local Open Scope N_scope.

Definition simpleLowercaseRuns : list (N * N * N * N) :=
  [
    (0x41, 26, 1, 0x61); (0xC0, 23, 1, 0xE0); (0xD8, 7, 1, 0xF8);
    (0x100, 24, 2, 0x101); (0x132, 3, 2, 0x133); (0x139, 8, 2, 0x13A);
    (0x14A, 23, 2, 0x14B); (0x178, 1, 1, 0xFF); (0x179, 3, 2, 0x17A);
    (0x181, 1, 1, 0x253); (0x182, 2, 2, 0x183); (0x186, 1, 1, 0x254);
    (0x187, 1, 1, 0x188); (0x189, 2, 1, 0x256); (0x18B, 1, 1, 0x18C);
    (0x18E, 1, 1, 0x1DD); (0x18F, 1, 1, 0x259); (0x190, 1, 1, 0x25B);
    (0x191, 1, 1, 0x192); (0x193, 1, 1, 0x260); (0x194, 1, 1, 0x263);
    (0x196, 1, 1, 0x269); (0x197, 1, 1, 0x268); (0x198, 1, 1, 0x199);
    (0x19C, 1, 1, 0x26F); (0x19D, 1, 1, 0x272); (0x19F, 1, 1, 0x275);
    (0x1A0, 3, 2, 0x1A1); (0x1A6, 1, 1, 0x280); (0x1A7, 1, 1, 0x1A8);
    (0x1A9, 1, 1, 0x283); (0x1AC, 1, 1, 0x1AD); (0x1AE, 1, 1, 0x288);
    (0x1AF, 1, 1, 0x1B0); (0x1B1, 2, 1, 0x28A); (0x1B3, 2, 2, 0x1B4);
    (0x1B7, 1, 1, 0x292); (0x1B8, 1, 1, 0x1B9); (0x1BC, 1, 1, 0x1BD);
    (0x1C4, 1, 1, 0x1C6); (0x1C5, 1, 1, 0x1C6); (0x1C7, 1, 1, 0x1C9);
    (0x1C8, 1, 1, 0x1C9); (0x1CA, 1, 1, 0x1CC); (0x1CB, 9, 2, 0x1CC);
    (0x1DE, 9, 2, 0x1DF); (0x1F1, 1, 1, 0x1F3); (0x1F2, 2, 2, 0x1F3);
    (0x1F6, 1, 1, 0x195); (0x1F7, 1, 1, 0x1BF); (0x1F8, 20, 2, 0x1F9);
    (0x220, 1, 1, 0x19E); (0x222, 9, 2, 0x223); (0x23A, 1, 1, 0x2C65);
    (0x23B, 1, 1, 0x23C); (0x23D, 1, 1, 0x19A); (0x23E, 1, 1, 0x2C66);
    (0x241, 1, 1, 0x242); (0x243, 1, 1, 0x180); (0x244, 1, 1, 0x289);
    (0x245, 1, 1, 0x28C); (0x246, 5, 2, 0x247); (0x370, 2, 2, 0x371);
    (0x376, 1, 1, 0x377); (0x37F, 1, 1, 0x3F3); (0x386, 1, 1, 0x3AC);
    (0x388, 3, 1, 0x3AD); (0x38C, 1, 1, 0x3CC); (0x38E, 2, 1, 0x3CD);
    (0x391, 17, 1, 0x3B1); (0x3A3, 9, 1, 0x3C3); (0x3CF, 1, 1, 0x3D7);
    (0x3D8, 12, 2, 0x3D9); (0x3F4, 1, 1, 0x3B8); (0x3F7, 1, 1, 0x3F8);
    (0x3F9, 1, 1, 0x3F2); (0x3FA, 1, 1, 0x3FB); (0x3FD, 3, 1, 0x37B);
    (0x400, 16, 1, 0x450); (0x410, 32, 1, 0x430); (0x460, 17, 2, 0x461);
    (0x48A, 27, 2, 0x48B); (0x4C0, 1, 1, 0x4CF); (0x4C1, 7, 2, 0x4C2);
    (0x4D0, 48, 2, 0x4D1); (0x531, 38, 1, 0x561); (0x10A0, 38, 1, 0x2D00);
    (0x10C7, 1, 1, 0x2D27); (0x10CD, 1, 1, 0x2D2D); (0x13A0, 80, 1, 0xAB70);
    (0x13F0, 6, 1, 0x13F8); (0x1C90, 43, 1, 0x10D0); (0x1CBD, 3, 1, 0x10FD);
    (0x1E00, 75, 2, 0x1E01); (0x1E9E, 1, 1, 0xDF); (0x1EA0, 48, 2, 0x1EA1);
    (0x1F08, 8, 1, 0x1F00); (0x1F18, 6, 1, 0x1F10); (0x1F28, 8, 1, 0x1F20);
    (0x1F38, 8, 1, 0x1F30); (0x1F48, 6, 1, 0x1F40); (0x1F59, 4, 2, 0x1F51);
    (0x1F68, 8, 1, 0x1F60); (0x1F88, 8, 1, 0x1F80); (0x1F98, 8, 1, 0x1F90);
    (0x1FA8, 8, 1, 0x1FA0); (0x1FB8, 2, 1, 0x1FB0); (0x1FBA, 2, 1, 0x1F70);
    (0x1FBC, 1, 1, 0x1FB3); (0x1FC8, 4, 1, 0x1F72); (0x1FCC, 1, 1, 0x1FC3);
    (0x1FD8, 2, 1, 0x1FD0); (0x1FDA, 2, 1, 0x1F76); (0x1FE8, 2, 1, 0x1FE0);
    (0x1FEA, 2, 1, 0x1F7A); (0x1FEC, 1, 1, 0x1FE5); (0x1FF8, 2, 1, 0x1F78);
    (0x1FFA, 2, 1, 0x1F7C); (0x1FFC, 1, 1, 0x1FF3); (0x2126, 1, 1, 0x3C9);
    (0x212A, 1, 1, 0x6B); (0x212B, 1, 1, 0xE5); (0x2132, 1, 1, 0x214E);
    (0x2160, 16, 1, 0x2170); (0x2183, 1, 1, 0x2184);
    (0x24B6, 26, 1, 0x24D0); (0x2C00, 48, 1, 0x2C30);
    (0x2C60, 1, 1, 0x2C61); (0x2C62, 1, 1, 0x26B); (0x2C63, 1, 1, 0x1D7D);
    (0x2C64, 1, 1, 0x27D); (0x2C67, 3, 2, 0x2C68); (0x2C6D, 1, 1, 0x251);
    (0x2C6E, 1, 1, 0x271); (0x2C6F, 1, 1, 0x250); (0x2C70, 1, 1, 0x252);
    (0x2C72, 1, 1, 0x2C73); (0x2C75, 1, 1, 0x2C76); (0x2C7E, 2, 1, 0x23F);
    (0x2C80, 50, 2, 0x2C81); (0x2CEB, 2, 2, 0x2CEC); (0x2CF2, 1, 1, 0x2CF3);
    (0xA640, 23, 2, 0xA641); (0xA680, 14, 2, 0xA681);
    (0xA722, 7, 2, 0xA723); (0xA732, 31, 2, 0xA733); (0xA779, 2, 2, 0xA77A);
    (0xA77D, 1, 1, 0x1D79); (0xA77E, 5, 2, 0xA77F); (0xA78B, 1, 1, 0xA78C);
    (0xA78D, 1, 1, 0x265); (0xA790, 2, 2, 0xA791); (0xA796, 10, 2, 0xA797);
    (0xA7AA, 1, 1, 0x266); (0xA7AB, 1, 1, 0x25C); (0xA7AC, 1, 1, 0x261);
    (0xA7AD, 1, 1, 0x26C); (0xA7AE, 1, 1, 0x26A); (0xA7B0, 1, 1, 0x29E);
    (0xA7B1, 1, 1, 0x287); (0xA7B2, 1, 1, 0x29D); (0xA7B3, 1, 1, 0xAB53);
    (0xA7B4, 8, 2, 0xA7B5); (0xA7C4, 1, 1, 0xA794); (0xA7C5, 1, 1, 0x282);
    (0xA7C6, 1, 1, 0x1D8E); (0xA7C7, 2, 2, 0xA7C8); (0xA7D0, 1, 1, 0xA7D1);
    (0xA7D6, 2, 2, 0xA7D7); (0xA7F5, 1, 1, 0xA7F6); (0xFF21, 26, 1, 0xFF41);
    (0x10400, 40, 1, 0x10428); (0x104B0, 36, 1, 0x104D8);
    (0x10570, 11, 1, 0x10597); (0x1057C, 15, 1, 0x105A3);
    (0x1058C, 7, 1, 0x105B3); (0x10594, 2, 1, 0x105BB);
    (0x10C80, 51, 1, 0x10CC0); (0x118A0, 32, 1, 0x118C0);
    (0x16E40, 32, 1, 0x16E60); (0x1E900, 34, 1, 0x1E922)
  ].

Definition expandRun (run : N * N * N * N) : list (N * list N) :=
  match run with
  | (first, count, step, target) =>
      map (fun i => let d := N.of_nat i * step in (first + d, [target + d]))
          (seq 0 (N.to_nat count))
  end.

Definition lowercase : list (N * list N) :=
  (0x130, [0x69; 0x307]) :: flat_map expandRun simpleLowercaseRuns.

(** A worked string: white space of several kinds at both ends and
    inside, U+0130 (whose lower case is two code points), a capital
    sigma at the end of a word, a surrogate pair (U+10400, which has a
    lower case), and two unpaired surrogates. *)
Definition sample : list N :=
  [0x20; 0x130; 0x53; 0x54; 0x3000; 0xFEFF; 0x391; 0x3A3; 0x20; 0x20;
   0xD801; 0xDC00; 0xD800; 0x20; 0xDC00; 0x9].

(** An instance of the property Cased on the code points of [sample] *)
Definition casedSample (c : N) : bool :=
  ((0x41 <=? c) && (c <=? 0x5A)) || ((0x391 <=? c) && (c <=? 0x3C9)) || (c =? 0x130).

End Unicode.

(* ================================================================== *)
(** * Properties *)
(* ================================================================== *)

(** ** Slug derivation *)

Module SlugFacts.

Import Slug.

Example slug_machine_learning :
  slugTransform "  Machine Learning  " = "machine-learning".
Proof. reflexivity. Qed.

Example slug_inner_run :
  slugTransform "Deep   Neural	Nets" = "deep-neural-nets".
Proof. reflexivity. Qed.

Example slug_hyphen_kept :
  slugTransform " a - b " = "a---b".
Proof. reflexivity. Qed.





Lemma settled_trimStart s : settled s -> JS.trimStart s = s.
Proof. destruct s as [|c s]; simpl; [reflexivity|]. intros (-> & _); reflexivity. Qed.

Lemma settled_trimEnd s : settled s -> JS.trimEnd s = s.
Proof.
  induction s as [|c s IH]; simpl; [reflexivity|].
  intros (Hw & _ & Hs). rewrite Hw, (IH Hs). reflexivity.
Qed.

Lemma settled_toLowerCase s : settled s -> JS.toLowerCase s = s.
Proof.
  induction s as [|c s IH]; simpl; [reflexivity|].
  intros (_ & Hl & Hs). rewrite Hl, (IH Hs). reflexivity.
Qed.

Lemma settled_replace r s : settled s -> JS.replaceWhiteSpaceRuns r false s = s.
Proof.
  induction s as [|c s IH]; simpl; [reflexivity|].
  intros (Hw & _ & Hs). rewrite Hw, (IH Hs). reflexivity.
Qed.


Lemma settled_fixed s : settled s -> slugTransform s = s.
Proof.
  intros H. unfold slugTransform, JS.trim.
  rewrite (settled_trimStart s H), (settled_trimEnd s H),
    (settled_toLowerCase s H).
  apply settled_replace, H.
Qed.

End SlugFacts.

(** ** Lists *)

Module ListFacts.

Lemma filter_filter {A} (f g : A -> bool) (l : list A) :
  filter f (filter g l) = filter (fun x => g x && f x) l.
Proof.
  induction l as [|x l IH]; simpl; [reflexivity|].
  destruct (g x); simpl; [destruct (f x)|]; rewrite IH; reflexivity.
Qed.

Lemma existsb_false_filter {A} (p : A -> bool) l :
  existsb p l = false -> filter p l = [].
Proof.
  induction l as [|x l IH]; simpl; [reflexivity|].
  destruct (p x); simpl; [discriminate|exact IH].
Qed.

Lemma filter_nil_existsb {A} (p : A -> bool) l :
  filter p l = [] -> existsb p l = false.
Proof.
  induction l as [|x l IH]; simpl; [reflexivity|].
  destruct (p x); simpl; [discriminate|exact IH].
Qed.

Lemma NoDup_map_eq {A B} (f : A -> B) (l : list A) x y :
  NoDup (map f l) -> In x l -> In y l -> f x = f y -> x = y.
Proof.
  induction l as [|a l IH]; simpl; [tauto|].
  intros Hnd Hx Hy Hf. inversion Hnd as [|? ? Hnotin Hnd']; subst.
  destruct Hx as [->|Hx], Hy as [->|Hy]; auto.
  - exfalso. apply Hnotin. rewrite Hf. apply in_map, Hy.
  - exfalso. apply Hnotin. rewrite <- Hf. apply in_map, Hx.
Qed.

Lemma NoDup_map_filter {A B} (f : A -> B) (p : A -> bool) l :
  NoDup (map f l) -> NoDup (map f (filter p l)).
Proof.
  induction l as [|x l IH]; simpl; intros H; [constructor|].
  inversion H as [|? ? Hnotin Hnd]; subst.
  destruct (p x); simpl; [|auto].
  constructor; [|auto].
  intros Hin. apply Hnotin. apply in_map_iff in Hin as (y & Hy & Hin).
  apply filter_In in Hin as (Hin & _). apply in_map_iff. eauto.
Qed.

End ListFacts.

(** ** Running handler computations *)

Module MonadFacts.

Import ApiUtils.

Lemma run_bind {A B} (c : M A) (k : A -> M B) w a w' r :
  c w = (inr a, w') -> k a w' = r -> bind c k w = r.
Proof. intros Hc Hk. unfold bind. rewrite Hc. exact Hk. Qed.

Lemma run_bind_throw {A B} (c : M A) (k : A -> M B) w e w' :
  c w = (inl e, w') -> bind c k w = (inl e, w').
Proof. intros Hc. unfold bind. rewrite Hc. reflexivity. Qed.

Lemma tryCatch_ok {A} (c : M A) h w a w' :
  c w = (inr a, w') -> tryCatch c h w = (inr a, w').
Proof. intros Hc. unfold tryCatch. rewrite Hc. reflexivity. Qed.

Lemma tryCatch_throw {A} (c : M A) h w e w' r :
  c w = (inl e, w') -> h e w' = r -> tryCatch c h w = r.
Proof. intros Hc Hh. unfold tryCatch. rewrite Hc. exact Hh. Qed.

Lemma validate_ok {B T} (request : NextRequest B) (schema : B -> Zod.result T) v w :
  schema (json request) = inr v ->
  validateRequestBody request schema w = (inr v, w).
Proof. intros H. unfold validateRequestBody. rewrite H. reflexivity. Qed.

End MonadFacts.

(** ** Aggregation *)

Module AggregationFacts.

Import Aggregation.
Import ApiUtils ListFacts.
Local Open Scope Z_scope.

Lemma sqlCount_case itemId itemType dir vs :
  sqlCount (caseVoteType dir)
    (filter (fun v => String.eqb (Vote.itemId v) itemId
                      && ItemType_eqb (Vote.itemType v) itemType) vs)
  = rowsWith itemId itemType dir vs.
Proof.
  unfold sqlCount, rowsWith. rewrite filter_filter.
  do 2 f_equal. apply filter_ext. intros v. unfold caseVoteType.
  destruct (VoteType_eqb (Vote.voteType v) dir); reflexivity.
Qed.

Lemma getItemVoteCounts_tally itemId itemType w :
  getItemVoteCounts itemId itemType w = (inr (tally itemId itemType (votes (db w))), w).
Proof.
  unfold getItemVoteCounts, bind, query, ret, tally. simpl.
  rewrite !sqlCount_case. reflexivity.
Qed.

(** C3. For every item and every state of the vote table, the counts
    operation returns as [upvotes] the number of vote rows of that item
    with direction upvote, as [downvotes] the number with direction
    downvote, and as net value (the field [total]) exactly [upvotes -
    downvotes]; both counts are non-negative.  The result is computed from
    the vote rows of the current state, and the state is left as it is:
    there is no counter to keep. *)
Theorem aggregation_accuracy :
  forall (itemId : string) (itemType : ItemType) (w : World),
    let up := rowsWith itemId itemType upvote (votes (db w)) in
    let down := rowsWith itemId itemType downvote (votes (db w)) in
    getItemVoteCounts itemId itemType w = (inr (mkCounts up down (up - down)), w)
    /\ 0 <= up /\ 0 <= down.
Proof.
  intros itemId itemType w up down.
  split; [apply getItemVoteCounts_tally|].
  unfold up, down, rowsWith. lia.
Qed.

End AggregationFacts.

(** ** The vote ledger *)

Module VoteLedger.

Import Ledger.
Import ApiUtils Validations VotesRoute ListFacts MonadFacts Aggregation AggregationFacts.

(** *** Equalities on the enumerations and keys *)

Lemma ItemType_eqb_eq a b : ItemType_eqb a b = true <-> a = b.
Proof. destruct a, b; simpl; split; congruence. Qed.

Lemma VoteType_eqb_eq a b : VoteType_eqb a b = true <-> a = b.
Proof. destruct a, b; simpl; split; congruence. Qed.

Lemma ItemType_eqb_refl a : ItemType_eqb a a = true.
Proof. destruct a; reflexivity. Qed.

Lemma VoteType_eqb_refl a : VoteType_eqb a a = true.
Proof. destruct a; reflexivity. Qed.

Lemma voteOf_spec uid iid ty v :
  Store.voteOf uid iid ty v = true
  <-> Vote.userId v = uid /\ Vote.itemId v = iid /\ Vote.itemType v = ty.
Proof.
  unfold Store.voteOf. rewrite !andb_true_iff, !String.eqb_eq, ItemType_eqb_eq.
  tauto.
Qed.

Lemma voteOf_own v :
  Store.voteOf (Vote.userId v) (Vote.itemId v) (Vote.itemType v) v = true.
Proof. apply voteOf_spec; auto. Qed.

Lemma voteOf_own_mk i uid iid ty vt t :
  Store.voteOf uid iid ty (Vote.mk i uid iid ty vt t) = true.
Proof. apply voteOf_spec; auto. Qed.

Lemma sameUserItem_voteOf v r :
  Store.sameUserItem v r
  = Store.voteOf (Vote.userId v) (Vote.itemId v) (Vote.itemType v) r.
Proof.
  unfold Store.sameUserItem, Store.voteOf.
  rewrite (String.eqb_sym (Vote.userId v)), (String.eqb_sym (Vote.itemId v)).
  f_equal. destruct (Vote.itemType v), (Vote.itemType r); reflexivity.
Qed.

Lemma voteOf_retype uid iid ty vt t r :
  Store.voteOf uid iid ty (Store.retype vt t r) = Store.voteOf uid iid ty r.
Proof. reflexivity. Qed.

(** *** The table operations keep the uniqueness constraint *)

Lemma unique_filter p vs : uniquePerTriple vs -> uniquePerTriple (filter p vs).
Proof.
  intros H uid iid ty. specialize (H uid iid ty).
  unfold votesOf in *. rewrite filter_filter.
  assert (Hle : forall l : list Vote.t,
    List.length (filter (fun x => p x && Store.voteOf uid iid ty x) l)
    <= List.length (filter (Store.voteOf uid iid ty) l)).
  { induction l as [|x l IH]; simpl; [lia|].
    destruct (p x), (Store.voteOf uid iid ty x); simpl; lia. }
  specialize (Hle vs). lia.
Qed.

Lemma votesOf_map_retype uid iid ty (f : Vote.t -> bool) vt t vs :
  List.length (votesOf uid iid ty
     (map (fun r => if f r then Store.retype vt t r else r) vs))
  = List.length (votesOf uid iid ty vs).
Proof.
  unfold votesOf. induction vs as [|x l IH]; simpl; [reflexivity|].
  assert (E : Store.voteOf uid iid ty (if f x then Store.retype vt t x else x)
              = Store.voteOf uid iid ty x) by (destruct (f x); reflexivity).
  rewrite E. destruct (Store.voteOf uid iid ty x); simpl; rewrite IH; reflexivity.
Qed.

Lemma unique_update i vt t d :
  uniquePerTriple (votes d) ->
  uniquePerTriple (votes (fst (Store.updateVoteById i vt t d))).
Proof.
  intros H uid iid ty. simpl. rewrite votesOf_map_retype. apply H.
Qed.

Lemma insertVote_inv v d d' :
  Store.insertVote v d = inr d' ->
  d' = Store.setVotes d (votes d ++ [v])
  /\ existsb (fun r => String.eqb (Vote.id r) (Vote.id v)) (votes d) = false
  /\ votesOf (Vote.userId v) (Vote.itemId v) (Vote.itemType v) (votes d) = [].
Proof.
  unfold Store.insertVote.
  destruct (existsb _ (votes d)) eqn:E1; [discriminate|].
  destruct (existsb (Store.sameUserItem v) (votes d)) eqn:E2; [discriminate|].
  destruct (negb _); [discriminate|].
  intros [= <-]. repeat split.
  unfold votesOf. rewrite <- (filter_ext _ _ (sameUserItem_voteOf v)).
  apply existsb_false_filter, E2.
Qed.

Lemma unique_insert v d d' :
  uniquePerTriple (votes d) ->
  Store.insertVote v d = inr d' ->
  uniquePerTriple (votes d').
Proof.
  intros H Hins. apply insertVote_inv in Hins as (-> & _ & Hnone).
  intros uid iid ty. simpl. unfold votesOf in *. rewrite filter_app, length_app.
  simpl. destruct (Store.voteOf uid iid ty v) eqn:Hv; simpl.
  - apply voteOf_spec in Hv as (<- & <- & <-). rewrite Hnone. simpl. lia.
  - specialize (H uid iid ty). unfold votesOf in H. lia.
Qed.

(** *** Computations that keep the constraint *)

Lemma keeps_ret {A} (a : A) : Keeps (ret a).
Proof. intros w H; exact H. Qed.

Lemma keeps_throw {A} e : Keeps (@throw A e).
Proof. intros w H; exact H. Qed.

Lemma keeps_query {A} (f : DB -> A) : Keeps (query f).
Proof. intros w H; exact H. Qed.

Lemma keeps_console l : Keeps (console_error l).
Proof. intros w H; exact H. Qed.

Lemma keeps_bind {A B} (c : M A) (k : A -> M B) :
  Keeps c -> (forall a, Keeps (k a)) -> Keeps (bind c k).
Proof.
  intros Hc Hk w H. unfold bind. specialize (Hc w H).
  destruct (c w) as [[e|a] w']; simpl in *; [exact Hc|].
  apply Hk, Hc.
Qed.

Lemma keeps_tryCatch {A} (c : M A) (h : Thrown -> M A) :
  Keeps c -> (forall e, Keeps (h e)) -> Keeps (tryCatch c h).
Proof.
  intros Hc Hh w H. unfold tryCatch. specialize (Hc w H).
  destruct (c w) as [[e|a] w']; simpl in *; [|exact Hc].
  apply Hh, Hc.
Qed.

Lemma keeps_createErrorResponse {T} error st : Keeps (@createErrorResponse T error st).
Proof.
  unfold createErrorResponse. apply keeps_bind; [apply keeps_console|].
  intros _. apply keeps_ret.
Qed.

Lemma keeps_handleApiError {T} zm e : Keeps (@handleApiError zm T e).
Proof.
  unfold handleApiError. apply keeps_bind; [apply keeps_console|]. intros _.
  destruct (errorMessage zm e) as [m|]; [|apply keeps_createErrorResponse].
  destruct (String.eqb m _); [apply keeps_createErrorResponse|].
  destruct (JS.includes m "not found"); [apply keeps_createErrorResponse|].
  destruct (JS.includes m "unauthorized"); apply keeps_createErrorResponse.
Qed.

Lemma keeps_requireAuth {B} (request : NextRequest B) : Keeps (requireAuth request).
Proof.
  unfold requireAuth. apply keeps_bind.
  - unfold getAuthenticatedUser. destruct (session request) as [uid|]; [|apply keeps_ret].
    destruct (JS.isEmpty uid); [apply keeps_ret|].
    apply keeps_bind; [apply keeps_query|]. intros; apply keeps_ret.
  - intros [u|]; [apply keeps_ret|apply keeps_throw].
Qed.

Lemma keeps_validate {B T} (request : NextRequest B) (schema : B -> Zod.result T) :
  Keeps (validateRequestBody request schema).
Proof.
  unfold validateRequestBody. destruct (schema _); [apply keeps_throw|apply keeps_ret].
Qed.

Lemma keeps_selectItem ty iid : Keeps (selectItem ty iid).
Proof. destruct ty; apply keeps_query. Qed.

Lemma keeps_selectExistingVote uid iid ty : Keeps (selectExistingVote uid iid ty).
Proof. apply keeps_query. Qed.

Lemma keeps_getItemVoteCounts iid ty : Keeps (getItemVoteCounts iid ty).
Proof.
  unfold getItemVoteCounts. apply keeps_bind; [apply keeps_query|].
  intros; apply keeps_ret.
Qed.

Lemma keeps_deleteVote i : Keeps (deleteVote i).
Proof. intros w H. simpl. apply unique_filter, H. Qed.

Lemma keeps_updateVote i vt t : Keeps (updateVote i vt t).
Proof. intros w H. simpl. apply (unique_update i vt t (db w)), H. Qed.

Lemma keeps_execute_insert v : Keeps (execute (Store.insertVote v)).
Proof.
  intros w H. unfold execute.
  destruct (Store.insertVote v (db w)) as [e|d'] eqn:Hins; simpl; [exact H|].
  eapply unique_insert; eassumption.
Qed.

Lemma keeps_insertVote v : Keeps (insertVote v).
Proof.
  unfold insertVote. apply keeps_bind; [apply keeps_execute_insert|].
  intros; apply keeps_ret.
Qed.

Create HintDb keeps.

#[local] Hint Resolve keeps_ret keeps_throw keeps_query keeps_console
  keeps_createErrorResponse keeps_handleApiError keeps_requireAuth
  keeps_validate keeps_selectItem keeps_selectExistingVote
  keeps_getItemVoteCounts keeps_deleteVote
  keeps_updateVote keeps_insertVote : keeps.

Ltac keeps_step :=
  first
    [ solve [auto with keeps]
    | match goal with
      | |- forall _, _ => intro
      | |- Keeps (tryCatch _ _) => apply keeps_tryCatch
      | |- Keeps (bind _ _) => apply keeps_bind
      | |- Keeps (match ?x with _ => _ end) => destruct x
      | |- Keeps (if ?b then _ else _) => destruct b
      end ].

Lemma keeps_POST zm env request : Keeps (POST zm env request).
Proof. unfold POST. repeat keeps_step. Qed.

Lemma keeps_DELETE zm request : Keeps (DELETE zm request).
Proof. unfold DELETE. repeat keeps_step. Qed.

Lemma keeps_perform zm op w :
  uniquePerTriple (votes (db w)) ->
  uniquePerTriple (votes (db (perform zm op w))).
Proof. destruct op; simpl; [apply keeps_POST|apply keeps_DELETE]. Qed.

Lemma keeps_performAll zm ops : forall w,
  uniquePerTriple (votes (db w)) ->
  uniquePerTriple (votes (db (performAll zm ops w))).
Proof.
  unfold performAll. induction ops as [|op ops IH]; intros w H; simpl; [exact H|].
  apply IH, keeps_perform, H.
Qed.

(** *** One cast, case by case *)

Lemma selectItem_exists ty iid w :
  targetExists ty iid (db w) = true ->
  exists x l, selectItem ty iid w = (inr (x :: l), w).
Proof.
  unfold targetExists, selectItem, query. destruct ty; intros H.
  - destruct (filter (fun q => String.eqb (Question.id q) iid) (questions (db w)))
      as [|q l] eqn:E.
    + apply filter_nil_existsb in E. congruence.
    + exists (Question.id q), []. reflexivity.
  - destruct (filter (fun a => String.eqb (Answer.id a) iid) (answers (db w)))
      as [|a l] eqn:E.
    + apply filter_nil_existsb in E. congruence.
    + exists (Answer.id a), []. reflexivity.
Qed.

Lemma requireAuth_inv {B} (request : NextRequest B) w u w' :
  requireAuth request w = (inr u, w') ->
  w' = w
  /\ session request = Some (User.id u)
  /\ JS.isEmpty (User.id u) = false
  /\ hd_error (filter (fun x => String.eqb (User.id x) (User.id u)) (users (db w))) = Some u.
Proof.
  unfold requireAuth, getAuthenticatedUser, bind, query, ret, throw.
  destruct (session request) as [uid|]; [|discriminate].
  destruct (JS.isEmpty uid) eqn:Hne; [discriminate|]. simpl.
  destruct (filter (fun x => String.eqb (User.id x) uid) (users (db w))) as [|x l] eqn:E;
    simpl; [discriminate|].
  intros [= -> <-].
  assert (Hx : String.eqb (User.id u) uid = true).
  { assert (Hin : In u (filter (fun x => String.eqb (User.id x) uid) (users (db w))))
      by (rewrite E; left; reflexivity).
    apply filter_In in Hin. tauto. }
  apply String.eqb_eq in Hx. subst uid. rewrite E. auto.
Qed.

Lemma requireAuth_frame {B} (request : NextRequest B) w w' u :
  users (db w') = users (db w) ->
  requireAuth request w = (inr u, w) ->
  requireAuth request w' = (inr u, w').
Proof.
  intros Hu H. apply requireAuth_inv in H as (_ & Hs & Hne & Hhd).
  unfold requireAuth, getAuthenticatedUser, bind, query, ret.
  rewrite Hs, Hne, Hu. simpl.
  destruct (filter _ (users (db w))) as [|x l]; simpl in *; [discriminate|].
  injection Hhd as ->. reflexivity.
Qed.

Lemma requireAuth_user_row {B} (request : NextRequest B) w u :
  requireAuth request w = (inr u, w) ->
  existsb (fun x => String.eqb (User.id x) (User.id u)) (users (db w)) = true.
Proof.
  intros H. apply requireAuth_inv in H as (_ & _ & _ & Hhd).
  destruct (existsb _ (users (db w))) eqn:E; [reflexivity|].
  apply existsb_false_filter in E. rewrite E in Hhd. discriminate.
Qed.

(** Under the two constraints, the row found for a triple is the only row
    with its id and the only row of its triple. *)
Lemma found_row vs uid iid ty e rest :
  uniqueIds vs -> uniquePerTriple vs ->
  votesOf uid iid ty vs = e :: rest ->
  rest = []
  /\ In e vs
  /\ (forall r, In r vs -> String.eqb (Vote.id r) (Vote.id e) = Store.voteOf uid iid ty r).
Proof.
  intros Hid Hun Hf.
  assert (Hrest : rest = []).
  { specialize (Hun uid iid ty). rewrite Hf in Hun. simpl in Hun.
    destruct rest; [reflexivity|simpl in Hun; lia]. }
  subst rest.
  assert (He : In e vs /\ Store.voteOf uid iid ty e = true).
  { apply filter_In. unfold votesOf in Hf. rewrite Hf. left; reflexivity. }
  destruct He as (Hin & Hv). repeat split; auto.
  intros r Hr. destruct (Store.voteOf uid iid ty r) eqn:Hvr.
  - assert (Hr' : In r (votesOf uid iid ty vs)) by (apply filter_In; auto).
    rewrite Hf in Hr'. destruct Hr' as [->|[]]. apply String.eqb_refl.
  - destruct (String.eqb (Vote.id r) (Vote.id e)) eqn:Hi; [|reflexivity].
    apply String.eqb_eq in Hi.
    rewrite (NoDup_map_eq Vote.id vs r e Hid Hr Hin Hi) in Hvr. congruence.
Qed.

Lemma votesOf_remove uid iid ty vs :
  votesOf uid iid ty (filter (fun r => negb (Store.voteOf uid iid ty r)) vs) = [].
Proof.
  unfold votesOf. rewrite filter_filter.
  induction vs as [|x l IH]; simpl; [reflexivity|].
  destruct (Store.voteOf uid iid ty x); simpl; exact IH.
Qed.

Lemma selectExistingVote_run uid iid ty w :
  selectExistingVote uid iid ty w = (inr (firstn 1 (votesOf uid iid ty (votes (db w)))), w).
Proof. reflexivity. Qed.

Section Cast.

Variable zodErrorMessage : list Zod.issue -> string.
Variables (env : Env) (request : NextRequest VoteBody.t) (w : World).
Variables (u : User.t) (body : CreateVoteInput.t).

Let uid := User.id u.
Let iid := CreateVoteInput.itemId body.
Let ty := CreateVoteInput.itemType body.
Let dir := CreateVoteInput.voteType body.
Let vs := votes (db w).

Hypothesis Hauth : requireAuth request w = (inr u, w).
Hypothesis Hbody : createVoteSchema (json request) = inr body.
Hypothesis Hitem : targetExists ty iid (db w) = true.

(** No vote held: a row is inserted. *)
Lemma cast_insert :
  votesOf uid iid ty vs = [] ->
  existsb (fun r => String.eqb (Vote.id r) (uuid env)) vs = false ->
  let nv := Vote.mk (uuid env) uid iid ty dir (now env) in
  POST zodErrorMessage env request w
  = (inr (createSuccessResponse
            (mkVoteResult (Some nv) (tally iid ty (vs ++ [nv])) (Some dir))
            "Vote recorded successfully" None),
     mkWorld (Store.setVotes (db w) (vs ++ [nv])) (console w)).
Proof.
  intros Hnone Hfresh nv.
  destruct (selectItem_exists ty iid w Hitem) as (x & l & Hsel).
  assert (Hdup : existsb (Store.sameUserItem nv) vs = false).
  { apply filter_nil_existsb.
    rewrite (filter_ext _ _ (sameUserItem_voteOf nv)). exact Hnone. }
  assert (Hins : insertVote nv w
                 = (inr [nv], mkWorld (Store.setVotes (db w) (vs ++ [nv])) (console w))).
  { unfold insertVote. eapply run_bind; [|reflexivity].
    unfold execute, Store.insertVote.
    fold vs. cbn [Vote.id nv]. rewrite Hfresh, Hdup.
    change (Vote.userId nv) with (User.id u).
    rewrite (requireAuth_user_row request w u Hauth). reflexivity. }
  unfold POST. apply tryCatch_ok.
  eapply run_bind; [exact Hauth|].
  eapply run_bind; [apply validate_ok, Hbody|].
  eapply run_bind; [exact Hsel|]. cbv beta iota.
  eapply run_bind; [apply (selectExistingVote_run uid iid ty)|].
  fold vs. rewrite Hnone. cbn [firstn].
  eapply run_bind; [eapply run_bind; [exact Hins|reflexivity]|].
  eapply run_bind; [apply getItemVoteCounts_tally|]. reflexivity.
Qed.

(** A vote of the same direction held: the row is deleted. *)
Lemma cast_remove e rest :
  uniqueIds vs -> uniquePerTriple vs ->
  votesOf uid iid ty vs = e :: rest ->
  Vote.voteType e = dir ->
  let vs' := filter (fun r => negb (Store.voteOf uid iid ty r)) vs in
  POST zodErrorMessage env request w
  = (inr (createSuccessResponse
            (mkVoteResult None (tally iid ty vs') None)
            "Vote removed successfully" None),
     mkWorld (Store.setVotes (db w) vs') (console w)).
Proof.
  intros Hid Hun Hheld Hdir vs'.
  destruct (selectItem_exists ty iid w Hitem) as (x & l & Hsel).
  destruct (found_row vs uid iid ty e rest Hid Hun Hheld) as (-> & Hin & Hrow).
  assert (Hdel : deleteVote (Vote.id e) w
                 = (inr tt, mkWorld (Store.setVotes (db w) vs') (console w))).
  { unfold deleteVote, execute, Store.deleteVoteById. fold vs. do 3 f_equal.
    apply filter_ext_in. intros r Hr. rewrite (Hrow r Hr). reflexivity. }
  unfold POST. apply tryCatch_ok.
  eapply run_bind; [exact Hauth|].
  eapply run_bind; [apply validate_ok, Hbody|].
  eapply run_bind; [exact Hsel|]. cbv beta iota.
  eapply run_bind; [apply (selectExistingVote_run uid iid ty)|].
  fold vs. rewrite Hheld. cbn [firstn]. fold dir. rewrite Hdir, VoteType_eqb_refl.
  eapply run_bind; [eapply run_bind; [exact Hdel|reflexivity]|].
  eapply run_bind; [apply getItemVoteCounts_tally|]. reflexivity.
Qed.

(** A vote of the other direction held: the row takes the new direction
    and the time of the request. *)
Lemma cast_switch e rest :
  uniqueIds vs -> uniquePerTriple vs ->
  votesOf uid iid ty vs = e :: rest ->
  Vote.voteType e <> dir ->
  let vs' := map (fun r => if Store.voteOf uid iid ty r
                           then Store.retype dir (now env) r else r) vs in
  POST zodErrorMessage env request w
  = (inr (createSuccessResponse
            (mkVoteResult (Some (Store.retype dir (now env) e))
                          (tally iid ty vs') (Some dir))
            "Vote recorded successfully" None),
     mkWorld (Store.setVotes (db w) vs') (console w)).
Proof.
  intros Hid Hun Hheld Hdir vs'.
  destruct (selectItem_exists ty iid w Hitem) as (x & l & Hsel).
  destruct (found_row vs uid iid ty e rest Hid Hun Hheld) as (-> & Hin & Hrow).
  assert (Hupd : updateVote (Vote.id e) dir (now env) w
                 = (inr [Store.retype dir (now env) e],
                    mkWorld (Store.setVotes (db w) vs') (console w))).
  { unfold updateVote, Store.updateVoteById. fold vs. f_equal.
    - f_equal.
      rewrite (filter_ext_in _ (Store.voteOf uid iid ty) vs)
        by (intros r Hr; apply Hrow, Hr).
      fold (votesOf uid iid ty vs). rewrite Hheld. reflexivity.
    - do 2 f_equal. apply map_ext_in. intros r Hr. rewrite (Hrow r Hr). reflexivity. }
  assert (Hne : VoteType_eqb (Vote.voteType e) dir = false).
  { destruct (VoteType_eqb (Vote.voteType e) dir) eqn:E; [|reflexivity].
    apply VoteType_eqb_eq in E. contradiction. }
  unfold POST. apply tryCatch_ok.
  eapply run_bind; [exact Hauth|].
  eapply run_bind; [apply validate_ok, Hbody|].
  eapply run_bind; [exact Hsel|]. cbv beta iota.
  eapply run_bind; [apply (selectExistingVote_run uid iid ty)|].
  fold vs. rewrite Hheld. cbn [firstn]. fold dir. rewrite Hne.
  eapply run_bind; [eapply run_bind; [exact Hupd|reflexivity]|].
  eapply run_bind; [apply getItemVoteCounts_tally|]. reflexivity.
Qed.

End Cast.

(** *** What one cast does to the voter's holding *)

Lemma map_id_retype (f : Vote.t -> bool) vt t vs :
  map Vote.id (map (fun r => if f r then Store.retype vt t r else r) vs)
  = map Vote.id vs.
Proof.
  rewrite map_map. apply map_ext. intros r. destruct (f r); reflexivity.
Qed.

Lemma votesOf_map_retype_eq uid iid ty vt t vs :
  votesOf uid iid ty
    (map (fun r => if Store.voteOf uid iid ty r then Store.retype vt t r else r) vs)
  = map (Store.retype vt t) (votesOf uid iid ty vs).
Proof.
  unfold votesOf. induction vs as [|x l IH]; simpl; [reflexivity|].
  destruct (Store.voteOf uid iid ty x) eqn:E; simpl.
  - rewrite voteOf_retype, E. simpl. rewrite IH. reflexivity.
  - rewrite E. exact IH.
Qed.

Lemma existsb_id_false i vs :
  existsb (fun r => String.eqb (Vote.id r) i) vs = false <-> ~ In i (map Vote.id vs).
Proof.
  induction vs as [|x l IH]; simpl; [tauto|].
  rewrite orb_false_iff, IH. split.
  - intros (Hx & Hl) [Heq|Hin]; [|tauto].
    rewrite Heq, String.eqb_refl in Hx. discriminate.
  - intros H. split; [|tauto].
    destruct (String.eqb (Vote.id x) i) eqn:E; [|reflexivity].
    apply String.eqb_eq in E. tauto.
Qed.

(** A successful cast: the response is a success that reports the
    voter's new holding; only the vote table changes; the table's
    constraints still hold; no id other than the fresh one appears. *)
Lemma cast_step zm env (request : NextRequest VoteBody.t) w u body :
  let uid := User.id u in
  let iid := CreateVoteInput.itemId body in
  let ty := CreateVoteInput.itemType body in
  let dir := CreateVoteInput.voteType body in
  requireAuth request w = (inr u, w) ->
  createVoteSchema (json request) = inr body ->
  targetExists ty iid (db w) = true ->
  uniqueIds (votes (db w)) ->
  uniquePerTriple (votes (db w)) ->
  ~ In (uuid env) (map Vote.id (votes (db w))) ->
  exists resp w',
    POST zm env request w = (inr resp, w')
    /\ status resp = 200%Z
    /\ reportedDirection resp = Some (hd_error (held uid iid ty w'))
    /\ held uid iid ty w' = toggled (held uid iid ty w) dir
    /\ users (db w') = users (db w)
    /\ questions (db w') = questions (db w)
    /\ answers (db w') = answers (db w)
    /\ uniqueIds (votes (db w'))
    /\ uniquePerTriple (votes (db w'))
    /\ (forall i, In i (map Vote.id (votes (db w'))) ->
                  In i (map Vote.id (votes (db w))) \/ i = uuid env).
Proof.
  intros uid iid ty dir Hauth Hbody Hitem Hid Hun Hfresh.
  assert (Hkeep : uniquePerTriple (votes (db (snd (POST zm env request w)))))
    by (apply keeps_POST, Hun).
  unfold held.
  destruct (votesOf uid iid ty (votes (db w))) as [|e rest] eqn:Hheld.
  - pose proof (proj2 (existsb_id_false _ _) Hfresh) as Hfr.
    pose proof (cast_insert zm env request w u body Hauth Hbody Hitem Hheld Hfr) as HP.
    cbv zeta in HP. rewrite HP in Hkeep |- *.
    eexists _, _. split; [reflexivity|]. simpl.
    unfold votesOf in *. rewrite filter_app, Hheld. simpl.
    fold uid iid ty. rewrite voteOf_own_mk. simpl.
    repeat split; auto.
    + unfold uniqueIds. rewrite map_app. simpl.
      apply NoDup_app; [exact Hid|repeat constructor; simpl; tauto|].
      intros a Ha [<-|[]]. exact (Hfresh Ha).
    + intros i. rewrite map_app, in_app_iff. simpl. intuition.
  - destruct (found_row _ _ _ _ _ _ Hid Hun Hheld) as (Hrest & Hin & Hrow).
    destruct (VoteType_eqb (Vote.voteType e) dir) eqn:Hd.
    + apply VoteType_eqb_eq in Hd.
      pose proof (cast_remove zm env request w u body Hauth Hbody Hitem e rest
                    Hid Hun Hheld Hd) as HP.
      cbv zeta in HP. rewrite HP in Hkeep |- *.
      eexists _, _. split; [reflexivity|]. simpl.
      fold uid iid ty. rewrite votesOf_remove. simpl.
      fold dir. rewrite Hd, VoteType_eqb_refl.
      repeat split; auto.
      * apply NoDup_map_filter, Hid.
      * intros i Hi. left. apply in_map_iff in Hi as (y & <- & Hy).
        apply filter_In in Hy as (Hy & _). apply in_map, Hy.
    + assert (Hne : Vote.voteType e <> dir).
      { intros E. apply VoteType_eqb_eq in E. congruence. }
      pose proof (cast_switch zm env request w u body Hauth Hbody Hitem e rest
                    Hid Hun Hheld Hne) as HP.
      cbv zeta in HP. rewrite HP in Hkeep |- *.
      eexists _, _. split; [reflexivity|]. simpl.
      fold uid iid ty. rewrite votesOf_map_retype_eq, Hheld, Hrest. simpl.
      fold dir. rewrite Hd.
      repeat split; auto.
      * unfold uniqueIds. rewrite map_id_retype. exact Hid.
      * intros i. rewrite map_id_retype. auto.
Qed.

Lemma held_single uid iid ty w d :
  held uid iid ty w = [d] ->
  exists v, votesOf uid iid ty (votes (db w)) = [v] /\ Vote.voteType v = d.
Proof.
  unfold held. destruct (votesOf uid iid ty (votes (db w))) as [|v [|v' l]];
    simpl; try discriminate.
  intros [= <-]. eauto.
Qed.

Lemma held_none uid iid ty w :
  held uid iid ty w = [] -> votesOf uid iid ty (votes (db w)) = [].
Proof.
  unfold held. destruct (votesOf uid iid ty (votes (db w))); simpl;
    [reflexivity|discriminate].
Qed.

(** Two casts in a row by one voter on one item. *)
Lemma cast_twice zm env1 env2 (request1 request2 : NextRequest VoteBody.t) w u body1 body2 :
  let uid := User.id u in
  let iid := CreateVoteInput.itemId body1 in
  let ty := CreateVoteInput.itemType body1 in
  requireAuth request1 w = (inr u, w) ->
  requireAuth request2 w = (inr u, w) ->
  createVoteSchema (json request1) = inr body1 ->
  createVoteSchema (json request2) = inr body2 ->
  CreateVoteInput.itemId body2 = iid ->
  CreateVoteInput.itemType body2 = ty ->
  targetExists ty iid (db w) = true ->
  uniqueIds (votes (db w)) ->
  uniquePerTriple (votes (db w)) ->
  ~ In (uuid env1) (map Vote.id (votes (db w))) ->
  ~ In (uuid env2) (map Vote.id (votes (db w))) ->
  uuid env1 <> uuid env2 ->
  exists resp1 w1 resp2 w2,
    POST zm env1 request1 w = (inr resp1, w1)
    /\ POST zm env2 request2 w1 = (inr resp2, w2)
    /\ status resp1 = 200%Z /\ status resp2 = 200%Z
    /\ reportedDirection resp2 = Some (hd_error (held uid iid ty w2))
    /\ held uid iid ty w2
       = toggled (toggled (held uid iid ty w) (CreateVoteInput.voteType body1))
                 (CreateVoteInput.voteType body2).
Proof.
  intros uid iid ty Ha1 Ha2 Hb1 Hb2 Hi2 Ht2 Hitem Hid Hun Hf1 Hf2 Hne.
  destruct (cast_step zm env1 request1 w u body1 Ha1 Hb1 Hitem Hid Hun Hf1)
    as (resp1 & w1 & HP1 & Hs1 & _ & Hh1 & Hu & Hq & Han & Hid1 & Hun1 & Hids).
  assert (Ha2' : requireAuth request2 w1 = (inr u, w1))
    by (apply (requireAuth_frame request2 w w1 u Hu Ha2)).
  assert (Hitem' : targetExists (CreateVoteInput.itemType body2)
                     (CreateVoteInput.itemId body2) (db w1) = true).
  { rewrite Hi2, Ht2. unfold targetExists in *. rewrite Hq, Han. exact Hitem. }
  assert (Hf2' : ~ In (uuid env2) (map Vote.id (votes (db w1)))).
  { intros Hin. destruct (Hids _ Hin) as [H|H]; [exact (Hf2 H)|].
    apply Hne. symmetry. exact H. }
  destruct (cast_step zm env2 request2 w1 u body2 Ha2' Hb2 Hitem' Hid1 Hun1 Hf2')
    as (resp2 & w2 & HP2 & Hs2 & Hr2 & Hh2 & _).
  rewrite Hi2, Ht2 in Hr2, Hh2. fold uid iid ty in Hh1, Hr2, Hh2.
  exists resp1, w1, resp2, w2. rewrite <- Hh1, <- Hh2. repeat split; auto.
Qed.

Lemma toggled_switch before a b :
  a <> b -> toggled (toggled before a) b = [b].
Proof.
  intros Hab. unfold toggled.
  destruct before as [|d l]; simpl.
  - destruct (VoteType_eqb a b) eqn:E; [|reflexivity].
    apply VoteType_eqb_eq in E. contradiction.
  - destruct (VoteType_eqb d a); simpl; [reflexivity|].
    destruct (VoteType_eqb a b) eqn:E; [|reflexivity].
    apply VoteType_eqb_eq in E. contradiction.
Qed.

Lemma toggled_twice before a :
  ~ In a before -> toggled (toggled before a) a = [].
Proof.
  intros Hnot. unfold toggled.
  destruct before as [|d l]; simpl.
  - rewrite VoteType_eqb_refl. reflexivity.
  - destruct (VoteType_eqb d a) eqn:E.
    + apply VoteType_eqb_eq in E. exfalso. apply Hnot. left. exact E.
    + simpl. rewrite VoteType_eqb_refl. reflexivity.
Qed.

(** *** The claims on the cast operation *)

Lemma unique_nil : uniquePerTriple [].
Proof. intros uid iid ty. simpl. lia. Defined.

Lemma unique_one v : uniquePerTriple [v].
Proof.
  intros uid iid ty. unfold votesOf. simpl.
  destruct (Store.voteOf uid iid ty v); simpl; lia.
Defined.

(** C1, the claim as stated fails: a voter who already holds an upvote and
    casts upvote twice in a row still holds a vote afterwards (the first
    cast removes the held vote, the second inserts a new one). *)
Lemma same_direction_twice_counterexample :
  let w1 := snd (POST Zod.renderIssues firstCall castUp upvoteHeld) in
  let w2 := snd (POST Zod.renderIssues secondCall castUp w1) in
  requireAuth castUp upvoteHeld = (inr alice, upvoteHeld)
  /\ targetExists question "q1" (db upvoteHeld) = true
  /\ votesOf "alice" "q1" question (votes (db w1)) = []
  /\ votesOf "alice" "q1" question (votes (db w2))
     = [Vote.mk "v2" "alice" "q1" question upvote 40]
  /\ votesOf "alice" "q1" question (votes (db w2)) <> [].
Proof. vm_compute. repeat split; discriminate. Qed.

(** C1 (amended).  For an authenticated voter, an existing target and a
    state satisfying the table's constraints (the generated id being
    fresh):
    - if the voter holds no vote on the target, [castVote] inserts a vote
      with the given direction and returns that direction;
    - if the voter holds a vote with the same direction, [castVote]
      deletes it and returns a null direction;
    - if the voter holds a vote with a different direction, [castVote]
      updates it to the new direction, refreshes its timestamp, and
      returns the new direction;
    - casting direction A then B (A different from B) leaves exactly one
      vote, with direction B;
    - casting the same direction twice in a row leaves no vote, provided
      the voter did not already hold a vote of that direction before the
      first cast. *)
Theorem castVote_toggle_switch :
  forall (zodErrorMessage : list Zod.issue -> string) (env : Env)
         (request : NextRequest VoteBody.t) (w : World)
         (u : User.t) (body : CreateVoteInput.t),
    let uid := User.id u in
    let iid := CreateVoteInput.itemId body in
    let ty := CreateVoteInput.itemType body in
    let dir := CreateVoteInput.voteType body in
    let vs := votes (db w) in
    requireAuth request w = (inr u, w) ->
    createVoteSchema (json request) = inr body ->
    targetExists ty iid (db w) = true ->
    uniqueIds vs ->
    uniquePerTriple vs ->
    ~ In (uuid env) (map Vote.id vs) ->
    (votesOf uid iid ty vs = [] ->
       let nv := Vote.mk (uuid env) uid iid ty dir (now env) in
       POST zodErrorMessage env request w
       = (inr (createSuccessResponse
                 (mkVoteResult (Some nv) (tally iid ty (vs ++ [nv])) (Some dir))
                 "Vote recorded successfully" None),
          mkWorld (Store.setVotes (db w) (vs ++ [nv])) (console w))
       /\ votesOf uid iid ty (vs ++ [nv]) = [nv])
    /\ (forall e : Vote.t,
          votesOf uid iid ty vs = [e] -> Vote.voteType e = dir ->
          let vs' := filter (fun r => negb (Store.voteOf uid iid ty r)) vs in
          POST zodErrorMessage env request w
          = (inr (createSuccessResponse
                    (mkVoteResult None (tally iid ty vs') None)
                    "Vote removed successfully" None),
             mkWorld (Store.setVotes (db w) vs') (console w))
          /\ votesOf uid iid ty vs' = [])
    /\ (forall e : Vote.t,
          votesOf uid iid ty vs = [e] -> Vote.voteType e <> dir ->
          let vs' := map (fun r => if Store.voteOf uid iid ty r
                                   then Store.retype dir (now env) r else r) vs in
          POST zodErrorMessage env request w
          = (inr (createSuccessResponse
                    (mkVoteResult (Some (Store.retype dir (now env) e))
                                  (tally iid ty vs') (Some dir))
                    "Vote recorded successfully" None),
             mkWorld (Store.setVotes (db w) vs') (console w))
          /\ votesOf uid iid ty vs' = [Store.retype dir (now env) e]
          /\ Vote.voteType (Store.retype dir (now env) e) = dir
          /\ Vote.createdAt (Store.retype dir (now env) e) = now env)
    /\ (forall (env2 : Env) (request2 : NextRequest VoteBody.t)
               (body2 : CreateVoteInput.t),
          requireAuth request2 w = (inr u, w) ->
          createVoteSchema (json request2) = inr body2 ->
          CreateVoteInput.itemId body2 = iid ->
          CreateVoteInput.itemType body2 = ty ->
          ~ In (uuid env2) (map Vote.id vs) ->
          uuid env <> uuid env2 ->
          exists resp1 w1 resp2 w2,
            POST zodErrorMessage env request w = (inr resp1, w1)
            /\ POST zodErrorMessage env2 request2 w1 = (inr resp2, w2)
            /\ status resp1 = 200%Z /\ status resp2 = 200%Z
            /\ (dir <> CreateVoteInput.voteType body2 ->
                  (exists v, votesOf uid iid ty (votes (db w2)) = [v]
                             /\ Vote.voteType v = CreateVoteInput.voteType body2)
                  /\ reportedDirection resp2
                     = Some (Some (CreateVoteInput.voteType body2)))
            /\ (CreateVoteInput.voteType body2 = dir ->
                  ~ In dir (held uid iid ty w) ->
                  votesOf uid iid ty (votes (db w2)) = []
                  /\ reportedDirection resp2 = Some None)).
Proof.
  intros zm env request w u body uid iid ty dir vs Hauth Hbody Hitem Hid Hun Hfresh.
  split; [|split; [|split]].
  - intros Hnone nv. split.
    + apply (cast_insert zm env request w u body Hauth Hbody Hitem Hnone).
      apply existsb_id_false, Hfresh.
    + unfold votesOf in *. rewrite filter_app, Hnone. simpl.
      unfold nv. rewrite voteOf_own_mk. reflexivity.
  - intros e Hheld Hdir vs'. split.
    + apply (cast_remove zm env request w u body Hauth Hbody Hitem e [] Hid Hun Hheld Hdir).
    + apply votesOf_remove.
  - intros e Hheld Hdir vs'. split; [|split; [|split; reflexivity]].
    + apply (cast_switch zm env request w u body Hauth Hbody Hitem e [] Hid Hun Hheld Hdir).
    + unfold vs'. rewrite votesOf_map_retype_eq. fold vs. rewrite Hheld. reflexivity.
  - intros env2 request2 body2 Ha2 Hb2 Hi2 Ht2 Hf2 Hne.
    destruct (cast_twice zm env env2 request request2 w u body body2
                Hauth Ha2 Hbody Hb2 Hi2 Ht2 Hitem Hid Hun Hfresh Hf2 Hne)
      as (resp1 & w1 & resp2 & w2 & HP1 & HP2 & Hs1 & Hs2 & Hrep & Hheld).
    fold uid iid ty dir in Hrep, Hheld.
    exists resp1, w1, resp2, w2.
    do 4 (split; [assumption|]). split.
    + intros Hab. split.
      * apply held_single. rewrite Hheld. apply toggled_switch, Hab.
      * rewrite Hrep, Hheld, (toggled_switch _ _ _ Hab). reflexivity.
    + intros Hsame Hnot. rewrite Hsame in Hheld.
      rewrite (toggled_twice _ _ Hnot) in Hheld. split.
      * apply held_none, Hheld.
      * rewrite Hrep, Hheld. reflexivity.
Qed.

(** The first cast of the worked data: nothing held, an upvote is
    recorded. *)
Lemma castVote_toggle_switch_witness :
  held "alice" "q1" question (snd (POST Zod.renderIssues firstCall castUp emptyLedger))
  = [upvote].
Proof.
  destruct (castVote_toggle_switch Zod.renderIssues firstCall castUp emptyLedger alice
              (CreateVoteInput.mk "q1" question upvote)) as (Hinsert & _).
  - reflexivity.
  - reflexivity.
  - reflexivity.
  - constructor.
  - exact unique_nil.
  - simpl. tauto.
  - destruct Hinsert as (Hpost & Hrow); [reflexivity|].
    rewrite Hpost. reflexivity.
Defined.

(** C2. Starting from a state in which no voter has two vote rows on one
    item, after any sequence of [castVote] and [removeVote] operations
    (whatever the requests, whether they succeed or fail) at most one vote
    row exists for every (voter, item identifier, item kind) triple.  The
    table's own constraint enforces it: inserting a row whose triple is
    already present is rejected by the table, with the table unchanged,
    whatever the caller checked beforehand, and every accepted insert
    leaves the constraint in force. *)
Theorem vote_uniqueness_invariant :
  forall (zodErrorMessage : list Zod.issue -> string)
         (ops : list Operation) (w : World),
    uniquePerTriple (votes (db w)) ->
    (forall uid iid ty,
        List.length (votesOf uid iid ty (votes (db (performAll zodErrorMessage ops w)))) <= 1)
    /\ (forall v : Vote.t,
          votesOf (Vote.userId v) (Vote.itemId v) (Vote.itemType v) (votes (db w)) <> [] ->
          exists e, Store.insertVote v (db w) = inl e)
    /\ (forall (v : Vote.t) (d' : DB),
          Store.insertVote v (db w) = inr d' -> uniquePerTriple (votes d')).
Proof.
  intros zm ops w H. split; [|split].
  - apply (keeps_performAll zm ops w H).
  - intros v Hheld. unfold Store.insertVote.
    destruct (existsb _ (votes (db w))); [eexists; reflexivity|].
    destruct (existsb (Store.sameUserItem v) (votes (db w))) eqn:E;
      [eexists; reflexivity|].
    exfalso. apply Hheld. unfold votesOf.
    rewrite <- (filter_ext _ _ (sameUserItem_voteOf v)).
    apply existsb_false_filter, E.
  - intros v d' Hins. eapply unique_insert; eassumption.
Qed.

(** A cast, a removal and a cast again, from a ledger holding one vote. *)
Lemma vote_uniqueness_invariant_witness :
  List.length
    (votesOf "alice" "q1" question
       (votes (db (performAll Zod.renderIssues
                     [castVote firstCall castUp; removeVote removeOnQ1;
                      castVote secondCall castUp]
                     upvoteHeld)))) <= 1.
Proof.
  apply (vote_uniqueness_invariant Zod.renderIssues
           [castVote firstCall castUp; removeVote removeOnQ1;
            castVote secondCall castUp]
           upvoteHeld (unique_one _)).
Defined.

(** *** Explicit removal *)

Section Remove.

Variable zodErrorMessage : list Zod.issue -> string.
Variables (request : NextRequest unit) (w : World) (u : User.t).
Variables (iid typeText : string) (ty : ItemType).

Let uid := User.id u.
Let vs := votes (db w).

Hypothesis Hauth : requireAuth request w = (inr u, w).
Hypothesis HitemId : searchParams_get (searchParams request) "itemId" = Some iid.
Hypothesis Hnonempty : JS.isEmpty iid = false.
Hypothesis HitemType : searchParams_get (searchParams request) "itemType" = Some typeText.
Hypothesis Hparse : parseItemType typeText = Some ty.
Hypothesis Hitem : targetExists ty iid (db w) = true.

Lemma remove_absent :
  votesOf uid iid ty vs = [] ->
  DELETE zodErrorMessage request w
  = (inr (mkResponse 404 (ApiError "No vote found for this item")),
     mkWorld (db w) (console w ++ [LogApiError "No vote found for this item"])).
Proof.
  intros Hnone.
  destruct (selectItem_exists ty iid w Hitem) as (x & l & Hsel).
  unfold DELETE. apply tryCatch_ok.
  eapply run_bind; [exact Hauth|].
  rewrite HitemId, HitemType, Hnonempty, Hparse.
  eapply run_bind; [exact Hsel|]. cbv beta iota.
  eapply run_bind; [apply (selectExistingVote_run uid iid ty)|].
  fold vs. rewrite Hnone. reflexivity.
Qed.

Lemma remove_present e rest :
  votesOf uid iid ty vs = e :: rest ->
  let vs' := filter (fun r => negb (String.eqb (Vote.id r) (Vote.id e))) vs in
  DELETE zodErrorMessage request w
  = (inr (createSuccessResponse (mkRemoveResult (tally iid ty vs') None)
            "Vote removed successfully" None),
     mkWorld (Store.setVotes (db w) vs') (console w)).
Proof.
  intros Hheld vs'.
  destruct (selectItem_exists ty iid w Hitem) as (x & l & Hsel).
  unfold DELETE. apply tryCatch_ok.
  eapply run_bind; [exact Hauth|].
  rewrite HitemId, HitemType, Hnonempty, Hparse.
  eapply run_bind; [exact Hsel|]. cbv beta iota.
  eapply run_bind; [apply (selectExistingVote_run uid iid ty)|].
  fold vs. rewrite Hheld. cbn [firstn].
  eapply run_bind; [reflexivity|].
  eapply run_bind; [apply getItemVoteCounts_tally|]. reflexivity.
Qed.

End Remove.

(** C4. For an authenticated voter and an existing target, [removeVote]
    reports absence as an error: when the voter holds no vote on the
    target it fails with status 404 and the message "No vote found for
    this item", and every table of the database is as before.  When a
    vote is held, the row found is deleted, and the response is a success
    that carries the tallies recomputed on the new table together with a
    null user vote direction; when the table satisfies its constraints,
    the deletion removes exactly the voter's vote on that target. *)
Theorem removeVote_reports_absence :
  forall (zodErrorMessage : list Zod.issue -> string)
         (request : NextRequest unit) (w : World) (u : User.t)
         (iid typeText : string) (ty : ItemType),
    let uid := User.id u in
    let vs := votes (db w) in
    requireAuth request w = (inr u, w) ->
    searchParams_get (searchParams request) "itemId" = Some iid ->
    JS.isEmpty iid = false ->
    searchParams_get (searchParams request) "itemType" = Some typeText ->
    parseItemType typeText = Some ty ->
    targetExists ty iid (db w) = true ->
    (votesOf uid iid ty vs = [] ->
       exists w',
         DELETE zodErrorMessage request w
         = (inr (mkResponse 404 (ApiError "No vote found for this item")), w')
         /\ db w' = db w)
    /\ (forall (e : Vote.t) (rest : list Vote.t),
          votesOf uid iid ty vs = e :: rest ->
          exists vs',
            DELETE zodErrorMessage request w
            = (inr (mkResponse 200
                      (ApiSuccess (mkRemoveResult (tally iid ty vs') None)
                                  (Some "Vote removed successfully") None)),
               mkWorld (Store.setVotes (db w) vs') (console w))
            /\ ~ In e vs'
            /\ (forall r, In r vs' -> In r vs)
            /\ (uniqueIds vs -> uniquePerTriple vs ->
                  vs' = filter (fun r => negb (Store.voteOf uid iid ty r)) vs
                  /\ votesOf uid iid ty vs' = [])).
Proof.
  intros zm request w u iid typeText ty uid vs Hauth Hi Hne Ht Hp Hitem. split.
  - intros Hnone. eexists. split.
    + apply (remove_absent zm request w u iid typeText ty Hauth Hi Hne Ht Hp Hitem Hnone).
    + reflexivity.
  - intros e rest Hheld.
    exists (filter (fun r => negb (String.eqb (Vote.id r) (Vote.id e))) vs).
    split; [|split; [|split]].
    + apply (remove_present zm request w u iid typeText ty Hauth Hi Hne Ht Hp Hitem
               e rest Hheld).
    + intros Hin. apply filter_In in Hin as (_ & Hid).
      rewrite String.eqb_refl in Hid. discriminate.
    + intros r Hr. apply filter_In in Hr. tauto.
    + intros Hid Hun.
      destruct (found_row vs uid iid ty e rest Hid Hun Hheld) as (_ & _ & Hrow).
      assert (E : filter (fun r => negb (String.eqb (Vote.id r) (Vote.id e))) vs
                  = filter (fun r => negb (Store.voteOf uid iid ty r)) vs).
      { apply filter_ext_in. intros r Hr. rewrite (Hrow r Hr). reflexivity. }
      rewrite E. split; [reflexivity|apply votesOf_remove].
Qed.

(** Removal on the empty ledger. *)
Lemma removeVote_reports_absence_witness :
  fst (DELETE Zod.renderIssues removeOnQ1 emptyLedger)
  = inr (mkResponse 404 (ApiError "No vote found for this item")).
Proof.
  destruct (removeVote_reports_absence Zod.renderIssues removeOnQ1 emptyLedger alice
              "q1" "question" question) as (Habsent & _).
  - reflexivity.
  - reflexivity.
  - reflexivity.
  - reflexivity.
  - reflexivity.
  - reflexivity.
  - destruct Habsent as (w' & Hdel & _); [reflexivity|].
    rewrite Hdel. reflexivity.
Defined.

End VoteLedger.

(** ** Error responses *)

Module ErrorFacts.

Import Errors.
Import ApiUtils MonadFacts.
Local Open Scope Z_scope.

Lemma createErrorResponse_run {T} error st w :
  @createErrorResponse T error st w
  = (inr (mkResponse st (ApiError error)),
     mkWorld (db w) (console w ++ [LogApiError error])).
Proof. reflexivity. Qed.

(** Whatever is thrown, [handleApiError] answers with an error body and
    one of the four statuses 401, 404, 403, 500; it leaves the database
    alone and logs the thrown value itself. *)
Lemma handleApiError_status {T} zm (e : Thrown) w :
  exists st msg,
    @handleApiError zm T e w
    = (inr (mkResponse st (ApiError msg)),
       mkWorld (db w) ((console w ++ [LogUnhandled e]) ++ [LogApiError msg]))
    /\ (st = 401 \/ st = 404 \/ st = 403 \/ st = 500).
Proof.
  unfold handleApiError, bind, console_error. simpl.
  destruct (errorMessage zm e) as [m|].
  - destruct (String.eqb m "Authentication required");
      [do 2 eexists; split; [reflexivity|auto]|].
    destruct (JS.includes m "not found");
      [do 2 eexists; split; [reflexivity|auto]|].
    destruct (JS.includes m "unauthorized");
      do 2 eexists; (split; [reflexivity|auto]).
  - do 2 eexists. split; [reflexivity|auto].
Qed.

(** An [Error] whose message is none of the recognised ones is answered
    with that message as the [error] of the body. *)
Lemma handleApiError_unclassified {T} zm (e : Thrown) m w :
  errorMessage zm e = Some m ->
  String.eqb m "Authentication required" = false ->
  JS.includes m "not found" = false ->
  JS.includes m "unauthorized" = false ->
  @handleApiError zm T e w
  = (inr (mkResponse 500 (ApiError m)),
     mkWorld (db w) ((console w ++ [LogUnhandled e]) ++ [LogApiError m])).
Proof.
  intros Hm H1 H2 H3. unfold handleApiError, bind, console_error. simpl.
  rewrite Hm, H1, H2, H3. reflexivity.
Qed.

(** C8, the code at a failing input.  An [Error] thrown by the database
    driver (connection refused) is unclassified; the 500 response carries
    the exception's own message as [error], not a generic one.  Only a
    thrown value that is not an [Error] gets the generic "Internal server
    error".  Both are logged in full, and no stack trace is part of either
    body.  The same happens on the route: a cast with an empty body by a
    signed-in user is answered with status 500 and the text of the
    validation library's error. *)
Theorem internal_error_message_returned :
  forall (zodErrorMessage : list Zod.issue -> string) (w : World),
    @handleApiError zodErrorMessage unit (JsError connectionRefused) w
    = (inr (mkResponse 500 (ApiError connectionRefused)),
       mkWorld (db w)
         (console w ++ [LogUnhandled (JsError connectionRefused);
                        LogApiError connectionRefused]))
    /\ @handleApiError zodErrorMessage unit NonError w
       = (inr (mkResponse 500 (ApiError "Internal server error")),
          mkWorld (db w)
            (console w ++ [LogUnhandled NonError;
                           LogApiError "Internal server error"]))
    /\ (let emptyBody := mkRequest (Some "alice") []
                           (Validations.VoteBody.mk JS.Undefined JS.Undefined JS.Undefined) in
        fst (VotesRoute.POST Zod.renderIssues Ledger.firstCall emptyBody
               Ledger.emptyLedger)
        = inr (mkResponse 500
                 (ApiError (Zod.renderIssues
                    [Zod.mkIssue "invalid_type" "itemId" None;
                     Zod.mkIssue "invalid_type" "itemType" None;
                     Zod.mkIssue "invalid_type" "voteType" None])))).
Proof.
  intros zm w. split; [|split].
  - rewrite (handleApiError_unclassified zm _ connectionRefused) by reflexivity.
    rewrite <- app_assoc. reflexivity.
  - unfold handleApiError. cbn [errorMessage].
    eapply run_bind; [reflexivity|]. rewrite createErrorResponse_run.
    cbn [db console]. rewrite <- app_assoc. reflexivity.
  - vm_compute. reflexivity.
Qed.

End ErrorFacts.

(** ** The questions listing *)

Module ListingFacts.

Import Listing.
Import ApiUtils Validations QuestionsRoute ListFacts MonadFacts ErrorFacts.
Local Open Scope Z_scope.

(** *** Validation failures *)

Lemma GET_invalid S2N zm (request : NextRequest unit) w issues :
  questionsQuerySchema S2N
    (QueryParams.mk
       (nullable (searchParams_get (searchParams request) "page"))
       (nullable (searchParams_get (searchParams request) "limit"))
       (nullable (searchParams_get (searchParams request) "sort"))
       (nullable (searchParams_get (searchParams request) "topic")))
  = inl issues ->
  GET S2N zm request w = handleApiError zm (ZodError issues) w.
Proof.
  intros H. unfold GET. cbv zeta. rewrite H.
  eapply tryCatch_throw; reflexivity.
Qed.

Lemma both_left {A B} (a : Zod.result A) (b : Zod.result B) :
  (exists i, a = inl i) -> exists i, both a b = inl i.
Proof. intros (i & ->). destruct b; eexists; reflexivity. Qed.

Lemma both_right {A B} (a : Zod.result A) (b : Zod.result B) :
  (exists i, b = inl i) -> exists i, both a b = inl i.
Proof. intros (i & ->). destruct a; eexists; reflexivity. Qed.

(** A [null] limit is not replaced by the default: it is coerced to 0 and
    fails the positivity check. *)
Lemma null_limit_rejected S2N page sort topic :
  exists issues,
    questionsQuerySchema S2N (QueryParams.mk page JS.Null sort topic) = inl issues.
Proof.
  unfold questionsQuerySchema.
  destruct (both_right
              (Zod.default (Zod.coerceIntPositive S2N "page" None) 1 page)
              (both (Zod.default (Zod.coerceIntPositive S2N "limit" (Some 50)) 20 JS.Null)
                 (both (Zod.default
                          (Zod.enum "sort" [("recent", recent); ("most_voted", most_voted)])
                          recent sort)
                       (Zod.optional (Zod.string_ "topic" None None) topic))))
    as (i & Hi).
  - apply both_left. eexists. reflexivity.
  - cbn [QueryParams.page QueryParams.limit QueryParams.sort QueryParams.topic].
    rewrite Hi. eexists. reflexivity.
Qed.

Lemma fromChecks_failed {A} (l1 l2 : list Zod.issue) (i : Zod.issue) (a : A) :
  exists errs, Zod.fromChecks (l1 ++ i :: l2) a = inl errs.
Proof. destruct l1; eexists; reflexivity. Qed.

(** A present value that does not coerce to a number above 0, or that
    coerces to a number above the maximum, is rejected. *)
Lemma coerce_rejected S2N p max d v :
  v <> JS.Undefined ->
  JS.gtFinite (JS.toNumber S2N v) 0 = false
  \/ (exists m, max = Some m /\ JS.gtFinite (JS.toNumber S2N v) (inject_Z m) = true) ->
  exists errs, Zod.default (Zod.coerceIntPositive S2N p max) d v = inl errs.
Proof.
  intros Hv Hout.
  assert (E : Zod.default (Zod.coerceIntPositive S2N p max) d v
              = Zod.coerceIntPositive S2N p max v)
    by (destruct v; [contradiction|reflexivity..]).
  rewrite E. unfold Zod.coerceIntPositive.
  destruct (JS.toNumber S2N v) as [| | |q] eqn:Hn; [eexists; reflexivity| | |].
  all: destruct Hout as [Hsmall|(m & -> & Hbig)].
  all: try (rewrite Hsmall; apply fromChecks_failed).
  all: try (rewrite Hbig;
            rewrite app_assoc; cbn [Zod.check];
            apply fromChecks_failed).
Qed.

Lemma out_of_range_rejected S2N (o : QueryParams.t) :
  (QueryParams.page o <> JS.Undefined
   /\ JS.gtFinite (JS.toNumber S2N (QueryParams.page o)) 0 = false)
  \/ (QueryParams.limit o <> JS.Undefined
      /\ (JS.gtFinite (JS.toNumber S2N (QueryParams.limit o)) 0 = false
          \/ JS.gtFinite (JS.toNumber S2N (QueryParams.limit o)) (inject_Z 50) = true)) ->
  exists issues, questionsQuerySchema S2N o = inl issues.
Proof.
  intros H. unfold questionsQuerySchema.
  match goal with
  | |- exists issues, match ?b with _ => _ end = _ =>
      assert (Hb : exists i, b = inl i)
  end.
  { destruct H as [(Hp & Hsmall)|(Hl & Hout)].
    - apply both_left. apply coerce_rejected; auto.
    - apply both_right, both_left. apply coerce_rejected; [exact Hl|].
      destruct Hout as [Hs|Hb]; [left; exact Hs|right; eauto]. }
  destruct Hb as (i & ->). eexists. reflexivity.
Qed.

(** C5, the code at failing inputs.  A listing request without a [limit]
    parameter is not served with the default 20: it is rejected, whatever
    the other parameters are.  The rejection of a request whose [page] is
    0, or whose [limit] is 51 or 0, is an error response with status 500,
    not 400; no validation failure can be answered with 400, because the
    error handler has no such status. *)
Theorem listing_validation_status :
  (forall (StringToNumber : string -> JS.number)
          (zodErrorMessage : list Zod.issue -> string)
          (w : World) (session : option string) (page sort topic : string),
      exists st msg w',
        GET StringToNumber zodErrorMessage
            (mkRequest session [("page", page); ("sort", sort); ("topic", topic)] tt) w
        = (inr (mkResponse st (ApiError msg)), w')
        /\ st <> 400 /\ db w' = db w)
  /\ (exists msg, fst (get (listing "0" "20" "recent" "x") tagged)
                  = inr (mkResponse 500 (ApiError msg)))
  /\ (exists msg, fst (get (listing "1" "51" "recent" "x") tagged)
                  = inr (mkResponse 500 (ApiError msg)))
  /\ (exists msg, fst (get (listing "1" "0" "recent" "x") tagged)
                  = inr (mkResponse 500 (ApiError msg)))
  /\ (forall (zodErrorMessage : list Zod.issue -> string)
             (issues : list Zod.issue) (w : World),
        exists st msg w',
          @handleApiError zodErrorMessage (list FormattedQuestion) (ZodError issues) w
          = (inr (mkResponse st (ApiError msg)), w')
          /\ st <> 400).
Proof.
  split; [|split; [|split; [|split]]].
  - intros S2N zm w session page sort topic.
    destruct (null_limit_rejected S2N (JS.Str page) (JS.Str sort) (JS.Str topic))
      as (issues & Hrej).
    destruct (handleApiError_status (T := list FormattedQuestion) zm (ZodError issues) w)
      as (st & msg & Hrun & Hst).
    exists st, msg. eexists. split; [|split].
    + rewrite (GET_invalid S2N zm _ w issues); [exact Hrun|exact Hrej].
    + lia.
    + reflexivity.
  - eexists. vm_compute. reflexivity.
  - eexists. vm_compute. reflexivity.
  - eexists. vm_compute. reflexivity.
  - intros zm issues w.
    destruct (handleApiError_status (T := list FormattedQuestion) zm (ZodError issues) w)
      as (st & msg & Hrun & Hst).
    exists st, msg. eexists. split; [exact Hrun|lia].
Qed.

(** *** Pagination *)

Lemma ceil_quotient (t l : Z) :
  0 < l -> JS.ceil (inject_Z t / inject_Z l)%Q = - ((- t) / l).
Proof.
  intros Hl. destruct l as [|p|p]; try lia.
  unfold JS.ceil, Qceiling, Qfloor, Qdiv, Qmult, Qinv, Qopp, inject_Z. simpl.
  rewrite Z.mul_1_r. reflexivity.
Qed.

(** [Math.ceil(total / limit)] is the least number of pages of [limit]
    items that hold [total] items. *)
Lemma totalPages_ceiling (t l : Z) :
  0 < l ->
  let tp := JS.ceil (inject_Z t / inject_Z l)%Q in
  (tp - 1) * l < t <= tp * l.
Proof.
  intros Hl tp. unfold tp. rewrite (ceil_quotient t l Hl).
  pose proof (Z.div_mod (- t) l ltac:(lia)) as Hdm.
  pose proof (Z.mod_pos_bound (- t) l Hl) as Hb.
  nia.
Qed.

(** *** A left join on a unique key *)

Lemma filter_unique_key (k : string) (us : list User.t) :
  NoDup (map User.id us) ->
  (List.length (filter (fun u => String.eqb k (User.id u)) us) <= 1)%nat.
Proof.
  induction us as [|u us IH]; simpl; intros Hnd; [lia|].
  inversion Hnd as [|? ? Hnotin Hnd']; subst.
  destruct (String.eqb k (User.id u)) eqn:E; simpl; [|auto].
  apply String.eqb_eq in E.
  assert (Hnone : filter (fun x => String.eqb k (User.id x)) us = []).
  { apply existsb_false_filter.
    destruct (existsb _ us) eqn:Hex; [|reflexivity].
    apply existsb_exists in Hex as (x & Hx & Hk). apply String.eqb_eq in Hk.
    exfalso. apply Hnotin. rewrite <- E, Hk. apply in_map, Hx. }
  rewrite Hnone. simpl. lia.
Qed.

Lemma length_leftJoin_unique (k : string) (us : list User.t) :
  NoDup (map User.id us) ->
  List.length (Store.leftJoin (fun u => String.eqb k (User.id u)) us) = 1%nat.
Proof.
  intros Hnd. pose proof (filter_unique_key k us Hnd) as Hle.
  unfold Store.leftJoin.
  destruct (filter (fun u => String.eqb k (User.id u)) us) as [|x l];
    [reflexivity|].
  simpl in *. rewrite length_map. lia.
Qed.

End ListingFacts.

(** ** Topic creation *)

Module TopicFacts.

Import Topics.
Import ApiUtils Validations TopicsRoute ListFacts MonadFacts ErrorFacts.
Local Open Scope Z_scope.

(** The handler never reads the session. *)
Lemma POST_ignores_session zm env (request : NextRequest TopicBody.t) s w :
  POST zm env (mkRequest s (searchParams request) (json request)) w
  = POST zm env request w.
Proof. reflexivity. Qed.

Lemma POST_conflict zm env (request : NextRequest TopicBody.t) w body t l :
  createTopicSchema (json request) = inr body ->
  filter (nameOrSlug (CreateTopicInput.name body) (CreateTopicInput.slug body))
         (topics (db w)) = t :: l ->
  POST zm env request w
  = (inr (mkResponse 409 (ApiError "Topic with this name or slug already exists")),
     mkWorld (db w)
       (console w ++ [LogApiError "Topic with this name or slug already exists"])).
Proof.
  intros Hbody Hex. unfold POST. apply tryCatch_ok.
  eapply run_bind; [apply validate_ok, Hbody|].
  eapply run_bind; [reflexivity|]. cbv beta. rewrite Hex. reflexivity.
Qed.

Lemma insertTopic_cases row d :
  filter (nameOrSlug (Topic.name row) (Topic.slug row)) (topics d) = [] ->
  Store.insertTopic row d
  = if existsb (fun r => String.eqb (Topic.id r) (Topic.id row)) (topics d)
    then inl (Store.uniqueViolation "topics_pkey")
    else inr (Store.setTopics d (topics d ++ [row])).
Proof.
  intros Hnone. unfold Store.insertTopic.
  destruct (existsb (fun r => String.eqb (Topic.id r) (Topic.id row)) (topics d));
    [reflexivity|].
  assert (Hn : existsb (fun r => String.eqb (Topic.name r) (Topic.name row)) (topics d) = false
               /\ existsb (fun r => String.eqb (Topic.slug r) (Topic.slug row)) (topics d) = false).
  { apply filter_nil_existsb in Hnone.
    induction (topics d) as [|x l IH]; simpl in *; [auto|].
    unfold nameOrSlug in Hnone at 1.
    apply orb_false_iff in Hnone as (Hx & Hl). apply orb_false_iff in Hx as (Hx1 & Hx2).
    destruct (IH Hl) as (IH1 & IH2). rewrite Hx1, Hx2, IH1, IH2. auto. }
  destruct Hn as (-> & ->). reflexivity.
Qed.

Lemma POST_no_conflict zm env (request : NextRequest TopicBody.t) w body :
  createTopicSchema (json request) = inr body ->
  filter (nameOrSlug (CreateTopicInput.name body) (CreateTopicInput.slug body))
         (topics (db w)) = [] ->
  let row := Topic.mk (uuid env) (CreateTopicInput.name body)
               (CreateTopicInput.slug body)
               (orNull (CreateTopicInput.description body)) (now env) (now env) in
  POST zm env request w
  = if existsb (fun r => String.eqb (Topic.id r) (uuid env)) (topics (db w))
    then handleApiError zm (Store.uniqueViolation "topics_pkey") w
    else (inr (mkResponse 200
                 (ApiSuccess (Some row) (Some "Topic created successfully") None)),
          mkWorld (Store.setTopics (db w) (topics (db w) ++ [row])) (console w)).
Proof.
  intros Hbody Hnone row. unfold POST.
  pose proof (insertTopic_cases row (db w) Hnone) as Hins. cbn [Topic.id row] in Hins.
  destruct (existsb (fun r => String.eqb (Topic.id r) (uuid env)) (topics (db w))).
  - eapply tryCatch_throw; [|reflexivity].
    eapply run_bind; [apply validate_ok, Hbody|].
    eapply run_bind; [reflexivity|]. cbv beta. rewrite Hnone. cbv zeta.
    apply run_bind_throw. unfold execute, generateId. fold row. rewrite Hins.
    reflexivity.
  - apply tryCatch_ok.
    eapply run_bind; [apply validate_ok, Hbody|].
    eapply run_bind; [reflexivity|]. cbv beta. rewrite Hnone. cbv zeta.
    eapply run_bind; [|reflexivity].
    unfold execute, generateId. fold row. rewrite Hins. reflexivity.
Qed.



End TopicFacts.

(* ================================================================== *)
(** * Further properties *)
(* ================================================================== *)

(** ** Sorting *)

Module SqlFacts.

Section Sort.

Variable A : Type.
Variable precedes : A -> A -> bool.

Lemma insertSorted_perm x l : Permutation (Sql.insertSorted precedes x l) (x :: l).
Proof.
  induction l as [|y l IH]; simpl; [apply Permutation_refl|].
  destruct (precedes x y); [apply Permutation_refl|].
  eapply Permutation_trans; [apply perm_skip, IH|apply perm_swap].
Qed.

Lemma orderBy_perm l : Permutation (Sql.orderBy precedes l) l.
Proof.
  unfold Sql.orderBy. induction l as [|x l IH]; simpl; [constructor|].
  eapply Permutation_trans; [apply insertSorted_perm|apply perm_skip, IH].
Qed.

Lemma orderBy_length l : List.length (Sql.orderBy precedes l) = List.length l.
Proof. apply Permutation_length, orderBy_perm. Qed.

Lemma orderBy_In x l : In x (Sql.orderBy precedes l) <-> In x l.
Proof.
  split; apply Permutation_in; [|apply Permutation_sym]; apply orderBy_perm.
Qed.

Hypothesis total : forall a b, precedes a b = false -> precedes b a = true.
Hypothesis trans : forall a b c,
  precedes a b = true -> precedes b c = true -> precedes a c = true.

Let before (a b : A) : Prop := precedes a b = true.

Lemma insertSorted_sorted x l :
  StronglySorted before l -> StronglySorted before (Sql.insertSorted precedes x l).
Proof.
  induction l as [|y l IH]; simpl; intros Hs.
  - repeat constructor.
  - inversion Hs as [|? ? Hl Hall]; subst.
    destruct (precedes x y) eqn:E.
    + constructor; [exact Hs|]. constructor; [exact E|].
      eapply Forall_impl; [|exact Hall]. intros z Hz. eapply trans; eassumption.
    + constructor; [apply IH, Hl|].
      apply Forall_forall. intros z Hz.
      apply (Permutation_in _ (insertSorted_perm x l)) in Hz.
      destruct Hz as [<-|Hz]; [apply total, E|].
      rewrite Forall_forall in Hall. apply Hall, Hz.
Qed.

Lemma orderBy_sorted l : StronglySorted before (Sql.orderBy precedes l).
Proof.
  unfold Sql.orderBy. induction l as [|x l IH]; simpl; [constructor|].
  apply insertSorted_sorted, IH.
Qed.

End Sort.

Lemma In_firstn {A} (x : A) n l : In x (firstn n l) -> In x l.
Proof.
  revert l. induction n as [|n IH]; intros l; simpl; [tauto|].
  destruct l as [|y l]; simpl; [tauto|]. intros [->|H]; auto.
Qed.

Lemma In_skipn {A} (x : A) n l : In x (skipn n l) -> In x l.
Proof.
  revert l. induction n as [|n IH]; intros l; simpl; [tauto|].
  destruct l as [|y l]; simpl; [tauto|]. auto.
Qed.

Lemma StronglySorted_skipn {A} (R : A -> A -> Prop) n l :
  StronglySorted R l -> StronglySorted R (skipn n l).
Proof.
  revert l. induction n as [|n IH]; intros l Hs; [exact Hs|].
  destruct l as [|x l]; [constructor|]. simpl.
  inversion Hs; subst. apply IH. assumption.
Qed.

Lemma StronglySorted_firstn {A} (R : A -> A -> Prop) n l :
  StronglySorted R l -> StronglySorted R (firstn n l).
Proof.
  revert l. induction n as [|n IH]; intros l Hs; [constructor|].
  destruct l as [|x l]; [constructor|]. simpl.
  inversion Hs as [|? ? Hl Hall]; subst. constructor; [apply IH, Hl|].
  apply Forall_forall. intros z Hz. rewrite Forall_forall in Hall.
  apply Hall. eapply In_firstn. exact Hz.
Qed.

Lemma StronglySorted_map {A B} (R : A -> A -> Prop) (S : B -> B -> Prop)
  (f : A -> B) l :
  (forall a b, R a b -> S (f a) (f b)) ->
  StronglySorted R l -> StronglySorted S (map f l).
Proof.
  intros Hf. induction 1 as [|x l Hl IH Hall]; simpl; constructor; [exact IH|].
  apply Forall_forall. intros z Hz. apply in_map_iff in Hz as (y & <- & Hy).
  rewrite Forall_forall in Hall. apply Hf, Hall, Hy.
Qed.

End SqlFacts.

(** ** Authentication, and what a failed request leaves behind *)

Module AccessFacts.

Import ApiUtils Validations MonadFacts ErrorFacts ListFacts Access.
Local Open Scope Z_scope.

Lemma requireAuth_signedOut {B} (request : NextRequest B) w :
  signedIn request (db w) = false ->
  requireAuth request w = (inl (JsError "Authentication required"), w).
Proof.
  unfold signedIn, requireAuth, getAuthenticatedUser, bind, query, ret, throw.
  destruct (session request) as [uid|]; [|reflexivity].
  destruct (JS.isEmpty uid); [reflexivity|]. simpl. intros H.
  rewrite (existsb_false_filter _ _ H). reflexivity.
Qed.

Lemma requireAuth_signedIn {B} (request : NextRequest B) w :
  signedIn request (db w) = true ->
  exists u, requireAuth request w = (inr u, w)
            /\ session request = Some (User.id u) /\ In u (users (db w)).
Proof.
  unfold signedIn, requireAuth, getAuthenticatedUser, bind, query, ret, throw.
  destruct (session request) as [uid|]; [|discriminate].
  destruct (JS.isEmpty uid); [discriminate|]. simpl. intros H.
  destruct (filter (fun u => String.eqb (User.id u) uid) (users (db w)))
    as [|u l] eqn:E.
  - apply filter_nil_existsb in E. congruence.
  - assert (Hin : In u (filter (fun u => String.eqb (User.id u) uid) (users (db w))))
      by (rewrite E; left; reflexivity).
    apply filter_In in Hin as (Hin & Hid). apply String.eqb_eq in Hid.
    exists u. simpl. subst uid. auto.
Qed.

Lemma handle_auth_error {T} zm w :
  @handleApiError zm T (JsError "Authentication required") w
  = (inr (mkResponse 401 (ApiError "Authentication required")),
     mkWorld (db w) (console w ++ authenticationLog)).
Proof.
  unfold handleApiError, authenticationLog. cbn [errorMessage].
  eapply run_bind; [reflexivity|]. rewrite String.eqb_refl.
  rewrite createErrorResponse_run. cbn [db console].
  rewrite <- app_assoc. reflexivity.
Qed.

(** *** Computations that only read *)

Lemma reads_ret {A} (a : A) : Reads (ret a).
Proof. intros w; reflexivity. Qed.

Lemma reads_throw {A} e : Reads (@throw A e).
Proof. intros w; reflexivity. Qed.

Lemma reads_query {A} (f : DB -> A) : Reads (query f).
Proof. intros w; reflexivity. Qed.

Lemma reads_console l : Reads (console_error l).
Proof. intros w; reflexivity. Qed.

Lemma reads_bind {A B} (c : M A) (k : A -> M B) :
  Reads c -> (forall a, Reads (k a)) -> Reads (bind c k).
Proof.
  intros Hc Hk w. unfold bind. specialize (Hc w).
  destruct (c w) as [[e|a] w']; simpl in *; [exact Hc|].
  rewrite Hk. exact Hc.
Qed.

Lemma reads_tryCatch {A} (c : M A) (h : Thrown -> M A) :
  Reads c -> (forall e, Reads (h e)) -> Reads (tryCatch c h).
Proof.
  intros Hc Hh w. unfold tryCatch. specialize (Hc w).
  destruct (c w) as [[e|a] w']; simpl in *; [|exact Hc].
  rewrite Hh. exact Hc.
Qed.

Lemma reads_createErrorResponse {T} error st : Reads (@createErrorResponse T error st).
Proof. intros w; reflexivity. Qed.

Lemma reads_handleApiError {T} zm e : Reads (@handleApiError zm T e).
Proof.
  intros w. destruct (handleApiError_status (T := T) zm e w) as (st & msg & H & _).
  rewrite H. reflexivity.
Qed.

Lemma reads_requireAuth {B} (request : NextRequest B) : Reads (requireAuth request).
Proof.
  intros w. destruct (signedIn request (db w)) eqn:E.
  - destruct (requireAuth_signedIn request w E) as (u & H & _). rewrite H. reflexivity.
  - rewrite (requireAuth_signedOut request w E). reflexivity.
Qed.

Lemma reads_validate {B T} (request : NextRequest B) (schema : B -> Zod.result T) :
  Reads (validateRequestBody request schema).
Proof.
  intros w. unfold validateRequestBody. destruct (schema _); reflexivity.
Qed.

Lemma reads_getItemVoteCounts iid ty : Reads (getItemVoteCounts iid ty).
Proof. intros w; reflexivity. Qed.

Lemma reads_selectItem ty iid : Reads (VotesRoute.selectItem ty iid).
Proof. destruct ty; apply reads_query. Qed.

Lemma reads_selectExistingVote uid iid ty : Reads (VotesRoute.selectExistingVote uid iid ty).
Proof. apply reads_query. Qed.

(** *** Computations that write only when they succeed *)

Lemma atomic_of_reads {T} (c : M (NextResponse T)) : Reads c -> Atomic c.
Proof.
  intros H w. specialize (H w). destruct (c w) as [[e|r] w']; simpl in H; auto.
Qed.

Lemma atomic_bind {A T} (c : M A) (k : A -> M (NextResponse T)) :
  Reads c -> (forall a, Atomic (k a)) -> Atomic (bind c k).
Proof.
  intros Hc Hk w. unfold bind. specialize (Hc w).
  destruct (c w) as [[e|a] w']; simpl in *; [exact Hc|].
  specialize (Hk a w'). rewrite Hc in Hk. exact Hk.
Qed.

Lemma atomic_write {A T} (c : M A) (k : A -> M (NextResponse T)) :
  FailsClean c -> (forall a, Final200 (k a)) -> Atomic (bind c k).
Proof.
  intros Hc Hk w. unfold bind.
  destruct (c w) as [[e|a] w'] eqn:E; [apply (Hc w e w' E)|].
  destruct (Hk a w') as (r & w'' & -> & Hs). left. exact Hs.
Qed.

Lemma allOrNothing_tryCatch {T} zm (c : M (NextResponse T)) :
  Atomic c -> AllOrNothing (tryCatch c (handleApiError zm)).
Proof.
  intros Hc w. unfold tryCatch. specialize (Hc w).
  destruct (c w) as [[e|r] w'].
  - destruct (handleApiError_status (T := T) zm e w') as (st & msg & -> & _).
    do 2 eexists. split; [reflexivity|]. right. exact Hc.
  - do 2 eexists. split; [reflexivity|exact Hc].
Qed.

Lemma readOnly_tryCatch {T} zm (c : M (NextResponse T)) :
  Reads c -> ReadOnly (tryCatch c (handleApiError zm)).
Proof.
  intros Hc w.
  destruct (allOrNothing_tryCatch zm c (atomic_of_reads c Hc) w) as (r & w' & E & _).
  exists r, w'. split; [exact E|].
  pose proof (reads_tryCatch c (handleApiError zm) Hc
                (fun e => reads_handleApiError zm e) w) as H.
  rewrite E in H. exact H.
Qed.

Lemma failsClean_bind_reads_l {A B} (c : M A) (k : A -> M B) :
  Reads c -> (forall a, FailsClean (k a)) -> FailsClean (bind c k).
Proof.
  intros Hc Hk w e w'. unfold bind. specialize (Hc w).
  destruct (c w) as [[e0|a] w0]; simpl in Hc.
  - intros [= <- <-]. exact Hc.
  - intros H. rewrite <- Hc. eapply Hk. exact H.
Qed.

Lemma failsClean_then_ret {A B} (c : M A) (f : A -> B) :
  FailsClean c -> FailsClean (bind c (fun a => ret (f a))).
Proof.
  intros Hc w e w'. unfold bind, ret.
  destruct (c w) as [[e0|a] w0] eqn:E; [|discriminate].
  intros [= <- <-]. eapply Hc. exact E.
Qed.

Lemma failsClean_deleteVote i : FailsClean (VotesRoute.deleteVote i).
Proof. intros w e w'. discriminate. Qed.

Lemma failsClean_updateVote i vt t : FailsClean (VotesRoute.updateVote i vt t).
Proof. intros w e w'. discriminate. Qed.

Lemma failsClean_execute f : FailsClean (execute f).
Proof.
  intros w e w'. unfold execute. destruct (f (db w)); [|discriminate].
  intros [= _ <-]. reflexivity.
Qed.

Lemma failsClean_insertVote v : FailsClean (VotesRoute.insertVote v).
Proof.
  unfold VotesRoute.insertVote.
  apply (failsClean_then_ret (execute (Store.insertVote v)) (fun _ => [v])).
  apply failsClean_execute.
Qed.

Lemma final200_counts_then_success {T} iid ty (f : VoteCounts -> T) msg :
  Final200 (bind (getItemVoteCounts iid ty)
                 (fun c => ret (createSuccessResponse (f c) msg None))).
Proof. intros w. do 2 eexists. split; reflexivity. Qed.

(** *** The statuses a handler can answer with *)

Lemma within_bind {A T} (allowed : list Z) (c : M A) (k : A -> M (NextResponse T)) :
  (forall a, AnswersWithin allowed (k a)) -> AnswersWithin allowed (bind c k).
Proof.
  intros Hk w r w'. unfold bind.
  destruct (c w) as [[e|a] w0]; [discriminate|]. apply Hk.
Qed.

Lemma within_error {T} (allowed : list Z) error st :
  In st allowed -> AnswersWithin allowed (@createErrorResponse T error st).
Proof. intros H w r w'. rewrite createErrorResponse_run. intros [= <- _]. exact H. Qed.

Lemma within_ret {T} (allowed : list Z) (r : NextResponse T) :
  In (status r) allowed -> AnswersWithin allowed (ret r).
Proof. intros H w r' w'. unfold ret. intros [= <- _]. exact H. Qed.

Lemma within_tryCatch {T} (allowed : list Z) zm (c : M (NextResponse T)) :
  AnswersWithin allowed c ->
  incl [401; 404; 403; 500] allowed ->
  AnswersWithin allowed (tryCatch c (handleApiError zm)).
Proof.
  intros Hc Hincl w r w'. unfold tryCatch. specialize (Hc w).
  destruct (c w) as [[e|r0] w0].
  - destruct (handleApiError_status (T := T) zm e w0) as (st & msg & E & Hst).
    rewrite E. intros [= <- _]. apply Hincl. cbn [status In].
    destruct Hst as [ -> | [ -> | [ -> | -> ] ] ]; auto 10.
  - intros [= <- <-]. apply (Hc r0 w0). reflexivity.
Qed.

Ltac within :=
  repeat first
    [ apply within_error; simpl; auto 10
    | apply within_ret; simpl; auto 10
    | match goal with
      | |- AnswersWithin _ (bind _ _) => apply within_bind; intro
      | |- AnswersWithin _ (match ?x with _ => _ end) => destruct x
      | |- AnswersWithin _ (if ?b then _ else _) => destruct b
      end ].

End AccessFacts.

(** ** The votes route: refusals *)

Module VoteRouteFacts.

Import ApiUtils Validations VotesRoute MonadFacts ErrorFacts ListFacts.
Import Aggregation AggregationFacts Ledger VoteLedger Access AccessFacts.
Import Worked.
Local Open Scope Z_scope.

Lemma selectItem_missing ty iid w :
  targetExists ty iid (db w) = false ->
  selectItem ty iid w = (inr [], w).
Proof.
  unfold targetExists, selectItem, query. destruct ty; intros H;
    rewrite (existsb_false_filter _ _ H); reflexivity.
Qed.

(** Authentication comes first: without a signed-in user, a cast and a
    removal are answered 401 "Authentication required" whatever else the
    request holds (a malformed body, a missing target, missing
    parameters), and nothing but the console changes. *)
Theorem votes_require_authentication :
  forall (zodErrorMessage : list Zod.issue -> string) (env : Env)
         (cast : NextRequest VoteBody.t) (removal : NextRequest unit) (w : World),
    signedIn cast (db w) = false ->
    signedIn removal (db w) = false ->
    POST zodErrorMessage env cast w
    = (inr (mkResponse 401 (ApiError "Authentication required")),
       mkWorld (db w) (console w ++ authenticationLog))
    /\ DELETE zodErrorMessage removal w
       = (inr (mkResponse 401 (ApiError "Authentication required")),
          mkWorld (db w) (console w ++ authenticationLog)).
Proof.
  intros zm env cast removal w Hc Hr. split.
  - unfold POST. eapply tryCatch_throw; [|apply handle_auth_error].
    apply run_bind_throw, requireAuth_signedOut, Hc.
  - unfold DELETE. eapply tryCatch_throw; [|apply handle_auth_error].
    apply run_bind_throw, requireAuth_signedOut, Hr.
Qed.

Lemma votes_require_authentication_witness :
  fst (POST Zod.renderIssues firstCall stranger upvoteHeld)
  = inr (mkResponse 401 (ApiError "Authentication required"))
  /\ db (snd (DELETE Zod.renderIssues anonymousRemoval upvoteHeld)) = db upvoteHeld.
Proof.
  destruct (votes_require_authentication Zod.renderIssues firstCall stranger
              anonymousRemoval upvoteHeld) as (Hp & Hd).
  - reflexivity.
  - reflexivity.
  - rewrite Hp, Hd. split; reflexivity.
Defined.

(** A cast or a removal on an item that does not exist is answered 404
    with the kind of item in the message, and the database is as
    before. *)
Theorem votes_on_missing_target :
  forall (zodErrorMessage : list Zod.issue -> string) (env : Env)
         (cast : NextRequest VoteBody.t) (removal : NextRequest unit) (w : World)
         (u : User.t) (body : CreateVoteInput.t),
    let iid := CreateVoteInput.itemId body in
    let ty := CreateVoteInput.itemType body in
    let answer404 :=
      (inr (mkResponse 404 (ApiError (ItemType_text ty ++ " not found"))),
       mkWorld (db w) (console w ++ [LogApiError (ItemType_text ty ++ " not found")])) in
    requireAuth cast w = (inr u, w) ->
    requireAuth removal w = (inr u, w) ->
    createVoteSchema (json cast) = inr body ->
    removalTarget removal = Some (iid, ty) ->
    targetExists ty iid (db w) = false ->
    POST zodErrorMessage env cast w = answer404
    /\ DELETE zodErrorMessage removal w
       = (inr (mkResponse 404 (ApiError (ItemType_text ty ++ " not found"))),
          mkWorld (db w) (console w ++ [LogApiError (ItemType_text ty ++ " not found")])).
Proof.
  intros zm env cast removal w u body iid ty answer404 Hc Hr Hbody Htarget Hmiss.
  split.
  - unfold POST. apply tryCatch_ok.
    eapply run_bind; [exact Hc|].
    eapply run_bind; [apply validate_ok, Hbody|].
    eapply run_bind; [apply selectItem_missing, Hmiss|]. reflexivity.
  - unfold removalTarget in Htarget. unfold DELETE. apply tryCatch_ok.
    eapply run_bind; [exact Hr|].
    destruct (searchParams_get (searchParams removal) "itemId") as [i|]; [|discriminate].
    destruct (searchParams_get (searchParams removal) "itemType") as [t|]; [|discriminate].
    destruct (JS.isEmpty i); [discriminate|].
    destruct (parseItemType t) as [ty'|]; [|discriminate].
    injection Htarget as -> ->.
    eapply run_bind; [apply selectItem_missing, Hmiss|]. reflexivity.
Qed.

Lemma votes_on_missing_target_witness :
  fst (POST Zod.renderIssues firstCall castOnGhost upvoteHeld)
  = inr (mkResponse 404 (ApiError "answer not found"))
  /\ fst (DELETE Zod.renderIssues removeOnGhost upvoteHeld)
     = inr (mkResponse 404 (ApiError "answer not found")).
Proof.
  destruct (votes_on_missing_target Zod.renderIssues firstCall castOnGhost
              removeOnGhost upvoteHeld alice
              (CreateVoteInput.mk "ghost" answer downvote)) as (Hp & Hd).
  - reflexivity.
  - reflexivity.
  - reflexivity.
  - reflexivity.
  - reflexivity.
  - rewrite Hp, Hd. split; reflexivity.
Defined.

(** A removal by a signed-in user whose [itemId] is absent or empty, or
    whose [itemType] is absent or not one of the two kinds, is answered
    400 before the database is consulted about the item. *)
Theorem removal_parameters_required :
  forall (zodErrorMessage : list Zod.issue -> string)
         (removal : NextRequest unit) (w : World) (u : User.t),
    requireAuth removal w = (inr u, w) ->
    removalTarget removal = None ->
    DELETE zodErrorMessage removal w
    = (inr (mkResponse 400
              (ApiError "itemId and itemType (question/answer) are required")),
       mkWorld (db w)
         (console w
          ++ [LogApiError "itemId and itemType (question/answer) are required"])).
Proof.
  intros zm removal w u Hr Hnone.
  unfold removalTarget in Hnone. unfold DELETE. apply tryCatch_ok.
  eapply run_bind; [exact Hr|].
  destruct (searchParams_get (searchParams removal) "itemId") as [i|]; [|reflexivity].
  destruct (searchParams_get (searchParams removal) "itemType") as [t|]; [|reflexivity].
  destruct (JS.isEmpty i); [reflexivity|].
  destruct (parseItemType t) as [ty'|]; [discriminate|reflexivity].
Qed.

Lemma removal_parameters_required_witness :
  fst (DELETE Zod.renderIssues removalOfComment upvoteHeld)
  = inr (mkResponse 400
           (ApiError "itemId and itemType (question/answer) are required")).
Proof.
  rewrite (removal_parameters_required Zod.renderIssues removalOfComment upvoteHeld alice);
    reflexivity.
Defined.

(** *** All or nothing *)

Lemma atomic_cast zm env (request : NextRequest VoteBody.t) :
  AllOrNothing (POST zm env request).
Proof.
  unfold POST. apply allOrNothing_tryCatch.
  apply atomic_bind; [apply reads_requireAuth|]. intros u.
  apply atomic_bind; [apply reads_validate|]. intros body.
  apply atomic_bind; [apply reads_selectItem|]. intros [|x l].
  - apply atomic_of_reads, reads_createErrorResponse.
  - apply atomic_bind; [apply reads_selectExistingVote|]. intros [|e rest].
    + apply atomic_write.
      * apply (failsClean_then_ret _ (@hd_error Vote.t)), failsClean_insertVote.
      * intros a w. do 2 eexists. split; reflexivity.
    + apply atomic_write.
      * destruct (VoteType_eqb _ _).
        -- apply (failsClean_then_ret _ (fun _ : unit => @None Vote.t)),
             failsClean_deleteVote.
        -- apply (failsClean_then_ret _ (@hd_error Vote.t)), failsClean_updateVote.
      * intros a w. do 2 eexists. split; reflexivity.
Qed.

Lemma atomic_removal zm (request : NextRequest unit) :
  AllOrNothing (DELETE zm request).
Proof.
  unfold DELETE. apply allOrNothing_tryCatch.
  apply atomic_bind; [apply reads_requireAuth|]. intros u.
  destruct (searchParams_get (searchParams request) "itemId") as [i|];
    [|apply atomic_of_reads, reads_createErrorResponse].
  destruct (searchParams_get (searchParams request) "itemType") as [t|];
    [|apply atomic_of_reads, reads_createErrorResponse].
  destruct (JS.isEmpty i); [apply atomic_of_reads, reads_createErrorResponse|].
  destruct (parseItemType t) as [ty|];
    [|apply atomic_of_reads, reads_createErrorResponse].
  apply atomic_bind; [apply reads_selectItem|]. intros [|x l].
  - apply atomic_of_reads, reads_createErrorResponse.
  - apply atomic_bind; [apply reads_selectExistingVote|]. intros [|e rest].
    + apply atomic_of_reads, reads_createErrorResponse.
    + apply atomic_write; [apply failsClean_deleteVote|].
      intros a w. do 2 eexists. split; reflexivity.
Qed.

Lemma atomic_topic zm env (request : NextRequest TopicBody.t) :
  AllOrNothing (TopicsRoute.POST zm env request).
Proof.
  unfold TopicsRoute.POST. apply allOrNothing_tryCatch.
  apply atomic_bind; [apply reads_validate|]. intros body.
  apply atomic_bind; [apply reads_query|]. intros [|x l].
  - cbv zeta. apply atomic_write; [apply failsClean_execute|].
    intros a w. do 2 eexists. split; reflexivity.
  - apply atomic_of_reads, reads_createErrorResponse.
Qed.

Lemma within_cast zm env (request : NextRequest VoteBody.t) :
  AnswersWithin [200; 401; 403; 404; 500] (POST zm env request).
Proof.
  unfold POST. apply within_tryCatch; [|intros x; simpl; tauto]. within.
Qed.

Lemma within_removal zm (request : NextRequest unit) :
  AnswersWithin [200; 400; 401; 403; 404; 500] (DELETE zm request).
Proof.
  unfold DELETE. apply within_tryCatch; [|intros x; simpl; tauto]. within.
Qed.

Lemma within_topic zm env (request : NextRequest TopicBody.t) :
  AnswersWithin [200; 401; 403; 404; 409; 500] (TopicsRoute.POST zm env request).
Proof.
  unfold TopicsRoute.POST. apply within_tryCatch; [|intros x; simpl; tauto]. within.
Qed.

(** A cast, a removal and a topic creation never let an exception
    escape: each request is answered, a cast with one of the statuses
    200, 401, 403, 404 and 500, a removal with one of these or 400, a
    topic creation with one of these or 409.  The two refusals that only
    the handlers themselves issue, 400 for a removal and 409 for a topic
    creation, come with the database exactly as it was. *)
Theorem write_handlers_always_answer :
  forall (zodErrorMessage : list Zod.issue -> string) (env : Env)
         (cast : NextRequest VoteBody.t) (removal : NextRequest unit)
         (topic : NextRequest TopicBody.t) (w : World),
    (exists r w', POST zodErrorMessage env cast w = (inr r, w')
                  /\ In (status r) [200; 401; 403; 404; 500])
    /\ (exists r w', DELETE zodErrorMessage removal w = (inr r, w')
                     /\ In (status r) [200; 400; 401; 403; 404; 500]
                     /\ (status r = 400 -> db w' = db w))
    /\ (exists r w', TopicsRoute.POST zodErrorMessage env topic w = (inr r, w')
                     /\ In (status r) [200; 401; 403; 404; 409; 500]
                     /\ (status r = 409 -> db w' = db w)).
Proof.
  intros zm env cast removal topic w. split; [|split].
  - destruct (atomic_cast zm env cast w) as (r & w' & E & _).
    exists r, w'. split; [exact E|]. exact (within_cast zm env cast w r w' E).
  - destruct (atomic_removal zm removal w) as (r & w' & E & H).
    exists r, w'. split; [exact E|]. split.
    + exact (within_removal zm removal w r w' E).
    + intros H400. destruct H as [H|H]; [lia|exact H].
  - destruct (atomic_topic zm env topic w) as (r & w' & E & H).
    exists r, w'. split; [exact E|]. split.
    + exact (within_topic zm env topic w r w' E).
    + intros H409. destruct H as [H|H]; [lia|exact H].
Qed.

End VoteRouteFacts.

(** ** The votes route: what a cast changes *)

Module CastFacts.

Import ApiUtils Validations VotesRoute MonadFacts ErrorFacts ListFacts.
Import Aggregation AggregationFacts Ledger VoteLedger Access AccessFacts Tallies.
Local Open Scope Z_scope.

Lemma filter_idem {A} (p : A -> bool) l : filter p (filter p l) = filter p l.
Proof.
  rewrite filter_filter. apply filter_ext. intros x. destruct (p x); reflexivity.
Qed.

Lemma filter_others_retype uid iid ty vt t vs :
  filter (fun r => negb (Store.voteOf uid iid ty r))
    (map (fun r => if Store.voteOf uid iid ty r then Store.retype vt t r else r) vs)
  = filter (fun r => negb (Store.voteOf uid iid ty r)) vs.
Proof.
  induction vs as [|x l IH]; simpl; [reflexivity|].
  destruct (Store.voteOf uid iid ty x) eqn:E; simpl.
  - rewrite voteOf_retype, E. simpl. exact IH.
  - rewrite E. simpl. rewrite IH. reflexivity.
Qed.

(** The outcome of a cast by an authenticated voter on an existing item,
    in one statement. *)
Lemma cast_outcome zm env (request : NextRequest VoteBody.t) w u body :
  let uid := User.id u in
  let iid := CreateVoteInput.itemId body in
  let ty := CreateVoteInput.itemType body in
  let dir := CreateVoteInput.voteType body in
  let vs := votes (db w) in
  requireAuth request w = (inr u, w) ->
  createVoteSchema (json request) = inr body ->
  targetExists ty iid (db w) = true ->
  uniqueIds vs -> uniquePerTriple vs ->
  ~ In (uuid env) (map Vote.id vs) ->
  exists vote msg vs',
    POST zm env request w
    = (inr (mkResponse 200
              (ApiSuccess (mkVoteResult vote (tally iid ty vs')
                             (option_map Vote.voteType vote))
                          msg None)),
       mkWorld (Store.setVotes (db w) vs') (console w))
    /\ filter (fun r => negb (Store.voteOf uid iid ty r)) vs'
       = filter (fun r => negb (Store.voteOf uid iid ty r)) vs
    /\ votesOf uid iid ty vs' = match vote with Some v => [v] | None => [] end
    /\ map Vote.voteType (votesOf uid iid ty vs')
       = toggled (map Vote.voteType (votesOf uid iid ty vs)) dir.
Proof.
  intros uid iid ty dir vs Hauth Hbody Hitem Hid Hun Hfresh.
  destruct (votesOf uid iid ty vs) as [|e rest] eqn:Hheld.
  - pose proof (proj2 (existsb_id_false _ _) Hfresh) as Hfr.
    pose proof (cast_insert zm env request w u body Hauth Hbody Hitem Hheld Hfr) as HP.
    cbv zeta in HP. fold uid iid ty dir vs in HP.
    eexists _, _, _. split; [exact HP|].
    unfold votesOf in *. rewrite !filter_app, Hheld. simpl.
    rewrite voteOf_own_mk. simpl. rewrite app_nil_r. auto.
  - destruct (found_row _ _ _ _ _ _ Hid Hun Hheld) as (-> & Hin & Hrow).
    destruct (VoteType_eqb (Vote.voteType e) dir) eqn:Hd.
    + apply VoteType_eqb_eq in Hd.
      pose proof (cast_remove zm env request w u body Hauth Hbody Hitem e []
                    Hid Hun Hheld Hd) as HP.
      cbv zeta in HP. fold uid iid ty dir vs in HP.
      eexists _, _, _. split; [exact HP|].
      rewrite filter_idem, votesOf_remove. simpl.
      fold dir. rewrite Hd, VoteType_eqb_refl. auto.
    + assert (Hne : Vote.voteType e <> dir).
      { intros E. apply VoteType_eqb_eq in E. congruence. }
      pose proof (cast_switch zm env request w u body Hauth Hbody Hitem e []
                    Hid Hun Hheld Hne) as HP.
      cbv zeta in HP. fold uid iid ty dir vs in HP.
      eexists _, _, _. split; [exact HP|].
      rewrite filter_others_retype, votesOf_map_retype_eq, Hheld. simpl.
      fold dir. rewrite Hd. auto.
Qed.

(** The rows of an item with direction [d]: the voter's own, and the
    others'. *)
Lemma rowsWith_split uid iid ty d vs :
  rowsWith iid ty d vs
  = directionCount d (map Vote.voteType (votesOf uid iid ty vs))
    + rowsWith iid ty d (filter (fun r => negb (Store.voteOf uid iid ty r)) vs).
Proof.
  unfold rowsWith, directionCount, votesOf.
  induction vs as [|x l IH]; simpl; [reflexivity|].
  destruct (Store.voteOf uid iid ty x) eqn:E; simpl.
  - apply voteOf_spec in E as (_ & Hi & Ht).
    rewrite Hi, Ht, String.eqb_refl, ItemType_eqb_refl. simpl.
    destruct (VoteType_eqb (Vote.voteType x) d); cbn [List.length]; lia.
  - destruct (_ && _ && _); cbn [List.length]; lia.
Qed.

Lemma other_item_rows uid iid ty iid' ty' d vs :
  iid' <> iid \/ ty' <> ty ->
  rowsWith iid' ty' d vs
  = rowsWith iid' ty' d (filter (fun r => negb (Store.voteOf uid iid ty r)) vs).
Proof.
  intros Hother. unfold rowsWith. rewrite filter_filter. do 2 f_equal.
  apply filter_ext. intros r.
  destruct (Store.voteOf uid iid ty r) eqn:E; simpl; [|reflexivity].
  apply voteOf_spec in E as (_ & Hi & Ht).
  destruct (String.eqb (Vote.itemId r) iid') eqn:E1; simpl; [|reflexivity].
  destruct (ItemType_eqb (Vote.itemType r) ty') eqn:E2; simpl; [|reflexivity].
  apply String.eqb_eq in E1. apply ItemType_eqb_eq in E2.
  exfalso. destruct Hother as [H|H]; apply H; congruence.
Qed.

(** A successful cast touches one thing only: the caster's own vote on
    the item.  Every other row of the votes table is as before, in the
    same order; every other table is as before; and the tallies of every
    other item are as before. *)
Theorem cast_leaves_other_votes :
  forall (zodErrorMessage : list Zod.issue -> string) (env : Env)
         (request : NextRequest VoteBody.t) (w : World)
         (u : User.t) (body : CreateVoteInput.t),
    let uid := User.id u in
    let iid := CreateVoteInput.itemId body in
    let ty := CreateVoteInput.itemType body in
    requireAuth request w = (inr u, w) ->
    createVoteSchema (json request) = inr body ->
    targetExists ty iid (db w) = true ->
    uniqueIds (votes (db w)) ->
    uniquePerTriple (votes (db w)) ->
    ~ In (uuid env) (map Vote.id (votes (db w))) ->
    exists resp w',
      POST zodErrorMessage env request w = (inr resp, w')
      /\ status resp = 200
      /\ filter (fun r => negb (Store.voteOf uid iid ty r)) (votes (db w'))
         = filter (fun r => negb (Store.voteOf uid iid ty r)) (votes (db w))
      /\ db w' = Store.setVotes (db w) (votes (db w'))
      /\ (forall iid' ty',
            iid' <> iid \/ ty' <> ty ->
            tally iid' ty' (votes (db w')) = tally iid' ty' (votes (db w))).
Proof.
  intros zm env request w u body uid iid ty Hauth Hbody Hitem Hid Hun Hfresh.
  destruct (cast_outcome zm env request w u body Hauth Hbody Hitem Hid Hun Hfresh)
    as (vote & msg & vs' & HP & Hothers & _).
  fold uid iid ty in HP, Hothers.
  do 2 eexists. split; [exact HP|]. cbn [db votes Store.setVotes status].
  repeat split; auto.
  intros iid' ty' Hne. unfold tally.
  rewrite !(other_item_rows uid iid ty iid' ty' _ vs' Hne),
          !(other_item_rows uid iid ty iid' ty' _ (votes (db w)) Hne), Hothers.
  reflexivity.
Qed.

Lemma cast_leaves_other_votes_witness :
  tally "q2" question
    (votes (db (snd (POST Zod.renderIssues firstCall castUp upvoteHeld))))
  = tally "q2" question (votes (db upvoteHeld)).
Proof.
  destruct (cast_leaves_other_votes Zod.renderIssues firstCall castUp upvoteHeld alice
              (CreateVoteInput.mk "q1" question upvote))
    as (resp & w' & HP & _ & _ & _ & Hother).
  - reflexivity.
  - reflexivity.
  - reflexivity.
  - repeat constructor. simpl. tauto.
  - apply unique_one.
  - simpl. intros [H|[]]. discriminate.
  - rewrite HP. apply Hother. left. discriminate.
Defined.

Lemma directionCount_toggled hs dir d :
  (List.length hs <= 1)%nat ->
  directionCount d (toggled hs dir)
  = directionCount d hs
    + (if VoteType_eqb dir d
       then (if existsb (VoteType_eqb dir) hs then -1 else 1)
       else (if existsb (VoteType_eqb d) hs then -1 else 0)).
Proof.
  intros Hlen. destruct hs as [|h [|h' l]]; [| |simpl in Hlen; lia];
    destruct dir, d; try destruct h; reflexivity.
Qed.

(** The tallies a cast reports are those of the item after the cast, and
    they differ from the tallies before it by the caster's own move: the
    count of the cast direction goes up by one, or down by one when the
    cast removes a vote of that direction; the count of the opposite
    direction goes down by one exactly when the cast replaces a vote of
    the opposite direction; the reported total is the difference of the
    two. *)
Theorem cast_moves_tallies_by_one :
  forall (zodErrorMessage : list Zod.issue -> string) (env : Env)
         (request : NextRequest VoteBody.t) (w : World)
         (u : User.t) (body : CreateVoteInput.t),
    let uid := User.id u in
    let iid := CreateVoteInput.itemId body in
    let ty := CreateVoteInput.itemType body in
    let dir := CreateVoteInput.voteType body in
    let before := tally iid ty (votes (db w)) in
    let heldBefore := map Vote.voteType (votesOf uid iid ty (votes (db w))) in
    requireAuth request w = (inr u, w) ->
    createVoteSchema (json request) = inr body ->
    targetExists ty iid (db w) = true ->
    uniqueIds (votes (db w)) ->
    uniquePerTriple (votes (db w)) ->
    ~ In (uuid env) (map Vote.id (votes (db w))) ->
    exists resp w' after,
      POST zodErrorMessage env request w = (inr resp, w')
      /\ reportedCounts resp = Some after
      /\ after = tally iid ty (votes (db w'))
      /\ countOf dir after
         = countOf dir before
           + (if existsb (VoteType_eqb dir) heldBefore then -1 else 1)
      /\ countOf (opposite dir) after
         = countOf (opposite dir) before
           + (if existsb (VoteType_eqb (opposite dir)) heldBefore then -1 else 0)
      /\ total after = upvotes after - downvotes after.
Proof.
  intros zm env request w u body uid iid ty dir before heldBefore
         Hauth Hbody Hitem Hid Hun Hfresh.
  destruct (cast_outcome zm env request w u body Hauth Hbody Hitem Hid Hun Hfresh)
    as (vote & msg & vs' & HP & Hothers & _ & Hheld).
  fold uid iid ty dir in HP, Hothers, Hheld.
  assert (Hlen : (List.length heldBefore <= 1)%nat).
  { unfold heldBefore. rewrite length_map. apply Hun. }
  assert (Hcount : forall d,
    rowsWith iid ty d vs'
    = rowsWith iid ty d (votes (db w))
      + (if VoteType_eqb dir d
         then (if existsb (VoteType_eqb dir) heldBefore then -1 else 1)
         else (if existsb (VoteType_eqb d) heldBefore then -1 else 0))).
  { intros d.
    rewrite (rowsWith_split uid iid ty d vs'),
            (rowsWith_split uid iid ty d (votes (db w))), Hothers, Hheld.
    fold heldBefore. rewrite (directionCount_toggled heldBefore dir d Hlen). lia. }
  exists (mkResponse 200
            (ApiSuccess (mkVoteResult vote (tally iid ty vs')
                           (option_map Vote.voteType vote)) msg None)),
         (mkWorld (Store.setVotes (db w) vs') (console w)), (tally iid ty vs').
  split; [exact HP|]. split; [reflexivity|]. split; [reflexivity|].
  unfold before. split; [|split; [|reflexivity]].
  - destruct dir; cbn [countOf tally upvotes downvotes]; rewrite Hcount; reflexivity.
  - destruct dir; cbn [countOf opposite tally upvotes downvotes]; rewrite Hcount;
      reflexivity.
Qed.

Lemma cast_moves_tallies_by_one_witness :
  exists resp w' after,
    POST Zod.renderIssues firstCall castUp emptyLedger = (inr resp, w')
    /\ reportedCounts resp = Some after
    /\ countOf upvote after = 0 + 1
    /\ countOf downvote after = 0 + 0.
Proof.
  destruct (cast_moves_tallies_by_one Zod.renderIssues firstCall castUp emptyLedger alice
              (CreateVoteInput.mk "q1" question upvote))
    as (resp & w' & after & HP & Hrep & _ & Hup & Hdown & _).
  - reflexivity.
  - reflexivity.
  - reflexivity.
  - constructor.
  - exact unique_nil.
  - simpl. tauto.
  - exists resp, w', after. repeat split; assumption.
Defined.

(** After a successful cast, [getUserVote] for the caster and the item
    returns the very vote the response reported (none after a toggle-off),
    and the reported direction is the direction of that vote. *)
Theorem getUserVote_agrees_with_cast :
  forall (zodErrorMessage : list Zod.issue -> string) (env : Env)
         (request : NextRequest VoteBody.t) (w : World)
         (u : User.t) (body : CreateVoteInput.t),
    let uid := User.id u in
    let iid := CreateVoteInput.itemId body in
    let ty := CreateVoteInput.itemType body in
    requireAuth request w = (inr u, w) ->
    createVoteSchema (json request) = inr body ->
    targetExists ty iid (db w) = true ->
    uniqueIds (votes (db w)) ->
    uniquePerTriple (votes (db w)) ->
    ~ In (uuid env) (map Vote.id (votes (db w))) ->
    exists resp w' vote,
      POST zodErrorMessage env request w = (inr resp, w')
      /\ reportedVote resp = Some vote
      /\ reportedDirection resp = Some (option_map Vote.voteType vote)
      /\ UserVote.getUserVote uid iid ty w' = (inr vote, w').
Proof.
  intros zm env request w u body uid iid ty Hauth Hbody Hitem Hid Hun Hfresh.
  destruct (cast_outcome zm env request w u body Hauth Hbody Hitem Hid Hun Hfresh)
    as (vote & msg & vs' & HP & _ & Hrows & _).
  fold uid iid ty in HP, Hrows.
  do 2 eexists. exists vote. split; [exact HP|].
  split; [reflexivity|]. split; [reflexivity|].
  unfold UserVote.getUserVote, bind, query, ret. cbn [db votes Store.setVotes].
  fold (votesOf uid iid ty vs'). rewrite Hrows. destruct vote; reflexivity.
Qed.

Lemma getUserVote_agrees_with_cast_witness :
  exists resp w' vote,
    POST Zod.renderIssues firstCall castUp upvoteHeld = (inr resp, w')
    /\ reportedVote resp = Some vote
    /\ UserVote.getUserVote "alice" "q1" question w' = (inr vote, w').
Proof.
  destruct (getUserVote_agrees_with_cast Zod.renderIssues firstCall castUp upvoteHeld alice
              (CreateVoteInput.mk "q1" question upvote))
    as (resp & w' & vote & HP & Hrep & _ & Hget).
  - reflexivity.
  - reflexivity.
  - reflexivity.
  - repeat constructor. simpl. tauto.
  - apply unique_one.
  - simpl. intros [H|[]]. discriminate.
  - exists resp, w', vote. repeat split; assumption.
Defined.

Lemma setVotes_same d : Store.setVotes d (votes d) = d.
Proof. destruct d; reflexivity. Qed.

Lemma filter_fresh_id i vs :
  ~ In i (map Vote.id vs) ->
  filter (fun r => negb (String.eqb (Vote.id r) i)) vs = vs.
Proof.
  induction vs as [|x l IH]; simpl; intros H; [reflexivity|].
  destruct (String.eqb (Vote.id x) i) eqn:E.
  - apply String.eqb_eq in E. tauto.
  - simpl. rewrite IH by tauto. reflexivity.
Qed.

(** A first vote followed by its explicit removal is a round trip: when
    the voter holds no vote on the item, a cast and then a removal by the
    same voter on the same item both succeed and leave the database
    exactly as it was before the cast. *)
Theorem cast_then_remove_restores :
  forall (zodErrorMessage : list Zod.issue -> string) (env : Env)
         (cast : NextRequest VoteBody.t) (removal : NextRequest unit) (w : World)
         (u : User.t) (body : CreateVoteInput.t),
    let uid := User.id u in
    let iid := CreateVoteInput.itemId body in
    let ty := CreateVoteInput.itemType body in
    requireAuth cast w = (inr u, w) ->
    requireAuth removal w = (inr u, w) ->
    createVoteSchema (json cast) = inr body ->
    removalTarget removal = Some (iid, ty) ->
    targetExists ty iid (db w) = true ->
    votesOf uid iid ty (votes (db w)) = [] ->
    ~ In (uuid env) (map Vote.id (votes (db w))) ->
    exists r1 w1 r2 w2,
      POST zodErrorMessage env cast w = (inr r1, w1)
      /\ DELETE zodErrorMessage removal w1 = (inr r2, w2)
      /\ status r1 = 200 /\ status r2 = 200
      /\ db w2 = db w.
Proof.
  intros zm env cast removal w u body uid iid ty Hc Hr Hbody Htarget Hitem Hnone Hfresh.
  pose proof (proj2 (existsb_id_false _ _) Hfresh) as Hfr.
  pose proof (cast_insert zm env cast w u body Hc Hbody Hitem Hnone Hfr) as HP.
  cbv zeta in HP. fold uid iid ty in HP.
  set (nv := Vote.mk (uuid env) uid iid ty (CreateVoteInput.voteType body) (now env)) in *.
  set (w1 := mkWorld (Store.setVotes (db w) (votes (db w) ++ [nv])) (console w)) in *.
  assert (Hr1 : requireAuth removal w1 = (inr u, w1))
    by (apply (requireAuth_frame removal w w1 u); [reflexivity|exact Hr]).
  unfold removalTarget in Htarget.
  destruct (searchParams_get (searchParams removal) "itemId") as [i|] eqn:Ei;
    [|discriminate].
  destruct (searchParams_get (searchParams removal) "itemType") as [t|] eqn:Et;
    [|discriminate].
  destruct (JS.isEmpty i) eqn:Ene; [discriminate|].
  destruct (parseItemType t) as [ty'|] eqn:Ep; [|discriminate].
  injection Htarget as -> ->.
  assert (Hitem1 : targetExists ty iid (db w1) = true)
    by (destruct ty; exact Hitem).
  assert (Hheld1 : votesOf uid iid ty (votes (db w1)) = [nv]).
  { cbn [w1 db votes Store.setVotes]. unfold votesOf in *.
    rewrite filter_app, Hnone. simpl. unfold nv. rewrite voteOf_own_mk. reflexivity. }
  pose proof (remove_present zm removal w1 u iid t ty Hr1 Ei Ene Et Ep Hitem1 nv []
                Hheld1) as HD.
  cbv zeta in HD.
  do 4 eexists. split; [exact HP|]. split; [exact HD|].
  split; [reflexivity|]. split; [reflexivity|].
  cbn [w1 db votes Store.setVotes nv Vote.id].
  rewrite filter_app, (filter_fresh_id _ _ Hfresh). simpl.
  rewrite String.eqb_refl. simpl. rewrite app_nil_r.
  destruct (db w); reflexivity.
Qed.

Lemma cast_then_remove_restores_witness :
  exists r1 w1 r2 w2,
    POST Zod.renderIssues firstCall castUp emptyLedger = (inr r1, w1)
    /\ DELETE Zod.renderIssues removeOnQ1 w1 = (inr r2, w2)
    /\ status r1 = 200 /\ status r2 = 200
    /\ db w2 = db emptyLedger.
Proof.
  apply (cast_then_remove_restores Zod.renderIssues firstCall castUp removeOnQ1
           emptyLedger alice (CreateVoteInput.mk "q1" question upvote)).
  - reflexivity.
  - reflexivity.
  - reflexivity.
  - reflexivity.
  - reflexivity.
  - reflexivity.
  - simpl. tauto.
Defined.

End CastFacts.

(** ** The votes route: what every sequence of requests keeps *)

Module LedgerInvariants.

Import ApiUtils Validations VotesRoute MonadFacts ErrorFacts ListFacts.
Import Ledger VoteLedger Access AccessFacts Tallies.

Section Invariant.

Variable P : DB -> Prop.

Hypothesis P_delete : forall i d, P d -> P (Store.deleteVoteById i d).
Hypothesis P_update : forall i vt t d, P d -> P (fst (Store.updateVoteById i vt t d)).
Hypothesis P_insert : forall v d d', P d -> Store.insertVote v d = inr d' -> P d'.

Lemma preserves_reads {A} (c : M A) : Reads c -> Preserves P c.
Proof. intros H w Hp. rewrite H. exact Hp. Qed.

Lemma preserves_bind {A B} (c : M A) (k : A -> M B) :
  Preserves P c -> (forall a, Preserves P (k a)) -> Preserves P (bind c k).
Proof.
  intros Hc Hk w Hp. unfold bind. specialize (Hc w Hp).
  destruct (c w) as [[e|a] w']; simpl in *; [exact Hc|]. apply Hk, Hc.
Qed.

Lemma preserves_tryCatch {A} (c : M A) (h : Thrown -> M A) :
  Preserves P c -> (forall e, Preserves P (h e)) -> Preserves P (tryCatch c h).
Proof.
  intros Hc Hh w Hp. unfold tryCatch. specialize (Hc w Hp).
  destruct (c w) as [[e|a] w']; simpl in *; [|exact Hc]. apply Hh, Hc.
Qed.

Lemma preserves_deleteVote i : Preserves P (deleteVote i).
Proof. intros w Hp. simpl. apply P_delete, Hp. Qed.

Lemma preserves_updateVote i vt t : Preserves P (updateVote i vt t).
Proof. intros w Hp. simpl. apply (P_update i vt t (db w)), Hp. Qed.

Lemma preserves_insertVote v : Preserves P (insertVote v).
Proof.
  unfold insertVote. apply preserves_bind; [|intros; apply preserves_reads, reads_ret].
  intros w Hp. unfold execute.
  destruct (Store.insertVote v (db w)) as [e|d'] eqn:E; simpl; [exact Hp|].
  eapply P_insert; eassumption.
Qed.

Ltac preserve :=
  repeat first
    [ apply preserves_reads;
      first [ apply reads_requireAuth | apply reads_validate | apply reads_selectItem
            | apply reads_selectExistingVote | apply reads_getItemVoteCounts
            | apply reads_createErrorResponse | apply reads_handleApiError
            | apply reads_ret | apply reads_query ]
    | apply preserves_deleteVote | apply preserves_updateVote
    | apply preserves_insertVote
    | match goal with
      | |- forall _, _ => intro
      | |- Preserves _ (tryCatch _ _) => apply preserves_tryCatch
      | |- Preserves _ (bind _ _) => apply preserves_bind
      | |- Preserves _ (match ?x with _ => _ end) => destruct x
      | |- Preserves _ (if ?b then _ else _) => destruct b
      end ].

Lemma preserves_POST zm env request : Preserves P (POST zm env request).
Proof. unfold POST. preserve. Qed.

Lemma preserves_DELETE zm request : Preserves P (DELETE zm request).
Proof. unfold DELETE. preserve. Qed.

Lemma preserves_performAll zm ops : forall w,
  P (db w) -> P (db (performAll zm ops w)).
Proof.
  unfold performAll. induction ops as [|op ops IH]; intros w Hp; simpl; [exact Hp|].
  apply IH. destruct op; simpl; [apply preserves_POST|apply preserves_DELETE]; exact Hp.
Qed.

End Invariant.

(** The primary key and the foreign key of the votes table survive every
    sequence of casts and removals, whatever the requests: no two votes
    share an id, and the voter of every vote is a row of [user]. *)
Theorem votes_keys_kept :
  forall (zodErrorMessage : list Zod.issue -> string)
         (ops : list Operation) (w : World),
    uniqueIds (votes (db w)) ->
    votersExist (db w) ->
    uniqueIds (votes (db (performAll zodErrorMessage ops w)))
    /\ votersExist (db (performAll zodErrorMessage ops w)).
Proof.
  intros zm ops w Hid Hfk.
  apply (preserves_performAll (fun d => uniqueIds (votes d) /\ votersExist d));
    [| | |split; assumption].
  - intros i d (H1 & H2). split.
    + apply NoDup_map_filter, H1.
    + intros v Hv. apply filter_In in Hv as (Hv & _). apply (H2 v Hv).
  - intros i vt t d (H1 & H2). split.
    + simpl. unfold uniqueIds. rewrite map_id_retype. exact H1.
    + intros v Hv. simpl in Hv. apply in_map_iff in Hv as (r & <- & Hr).
      simpl. destruct (String.eqb (Vote.id r) i); apply (H2 r Hr).
  - intros v d d' (H1 & H2) Hins. unfold Store.insertVote in Hins.
    destruct (existsb _ (votes d)) eqn:E1; [discriminate|].
    destruct (existsb (Store.sameUserItem v) (votes d)); [discriminate|].
    destruct (existsb _ (users d)) eqn:E3; [|discriminate].
    injection Hins as <-. split.
    + simpl. unfold uniqueIds. rewrite map_app. simpl.
      apply NoDup_app; [exact H1|repeat constructor; simpl; tauto|].
      intros a Ha [<-|[]]. apply existsb_id_false in E1. exact (E1 Ha).
    + intros r Hr. simpl in Hr. apply in_app_iff in Hr as [Hr|[<-|[]]]; simpl.
      * apply (H2 r Hr).
      * exact E3.
Qed.

Lemma votes_keys_kept_witness :
  uniqueIds (votes (db (performAll Zod.renderIssues
                          [castVote firstCall castUp; castVote firstCall castUp;
                           removeVote removeOnQ1; castVote secondCall castUp]
                          upvoteHeld))).
Proof.
  apply (votes_keys_kept Zod.renderIssues
           [castVote firstCall castUp; castVote firstCall castUp;
            removeVote removeOnQ1; castVote secondCall castUp] upvoteHeld).
  - repeat constructor. simpl. tauto.
  - intros v [<-|[]]. reflexivity.
Defined.

(** Casts and removals write to the votes table only: after any sequence
    of them, whatever the requests, the tables [user], [topics],
    [questions], [answers] and [question_topics] are what they were. *)
Theorem votes_route_touches_votes_only :
  forall (zodErrorMessage : list Zod.issue -> string)
         (ops : list Operation) (w : World),
    let w' := performAll zodErrorMessage ops w in
    users (db w') = users (db w)
    /\ topics (db w') = topics (db w)
    /\ questions (db w') = questions (db w)
    /\ answers (db w') = answers (db w)
    /\ questionTopics (db w') = questionTopics (db w).
Proof.
  intros zm ops w.
  apply (preserves_performAll
           (fun d => users d = users (db w) /\ topics d = topics (db w)
                     /\ questions d = questions (db w) /\ answers d = answers (db w)
                     /\ questionTopics d = questionTopics (db w))).
  - intros i d H. exact H.
  - intros i vt t d H. exact H.
  - intros v d d' H Hins. apply insertVote_inv in Hins as (-> & _). exact H.
  - auto.
Qed.

End LedgerInvariants.

(** ** The listing of votes *)

Module VotesListFacts.

Import ApiUtils Validations VotesList MonadFacts ErrorFacts ListFacts.
Import Aggregation AggregationFacts Access AccessFacts SqlFacts.
Import Worked.
Local Open Scope Z_scope.

Lemma GET_run zm (request : NextRequest unit) w :
  GET zm request w
  = match selection request with
    | NothingSelected =>
        createErrorResponse "Either itemId or userId must be provided" 400 w
    | ItemTypeMissing =>
        createErrorResponse
          "itemType (question/answer) is required when itemId is provided" 400 w
    | Selected f =>
        (inr (mkResponse 200
                (ApiSuccess
                   (mkVotesData (map format (selectVotes f (db w)))
                      match f with
                      | ByItem iid ty => Some (tally iid ty (votes (db w)))
                      | ByUser _ => None
                      end)
                   (Some "Votes retrieved successfully") None)), w)
    end.
Proof.
  unfold GET, selection. cbv zeta.
  destruct (truthy (searchParams_get (searchParams request) "itemId")) as [iid|].
  - destruct (match searchParams_get (searchParams request) "itemType" with
              | Some t => VotesRoute.parseItemType t
              | None => None
              end) as [ty|]; [|apply tryCatch_ok; reflexivity].
    apply tryCatch_ok. eapply run_bind; [reflexivity|].
    eapply run_bind; [apply getItemVoteCounts_tally|]. reflexivity.
  - destruct (truthy (searchParams_get (searchParams request) "userId")) as [uid|];
      apply tryCatch_ok; reflexivity.
Qed.



Lemma joinUsers_votes f d :
  NoDup (map User.id (users d)) ->
  map j_vote (joinUsers f d) = filter (keeps f) (votes d).
Proof.
  intros Hnd. unfold joinUsers.
  induction (filter (keeps f) (votes d)) as [|v l IH]; simpl; [reflexivity|].
  rewrite map_app, IH. f_equal.
  pose proof (ListingFacts.length_leftJoin_unique (Vote.userId v) (users d) Hnd) as Hlen.
  destruct (Store.leftJoin _ (users d)) as [|x [|y r]]; simpl in Hlen; try discriminate.
  reflexivity.
Qed.

Lemma leftJoin_matches {B} (p : B -> bool) rows o :
  In o (Store.leftJoin p rows) ->
  match o with Some b => p b = true | None => True end.
Proof.
  unfold Store.leftJoin. destruct (filter p rows) as [|x l] eqn:E.
  - intros [<-|[]]. exact I.
  - intros Hin. apply in_map_iff in Hin as (b & <- & Hb).
    rewrite <- E in Hb. apply filter_In in Hb. tauto.
Qed.

Lemma joinUsers_user f d j :
  In j (joinUsers f d) ->
  In (j_vote j) (votes d) /\ keeps f (j_vote j) = true
  /\ User.id (f_user (format j)) = Vote.userId (j_vote j).
Proof.
  unfold joinUsers. intros Hin. apply in_flat_map in Hin as (v & Hv & Hj).
  apply in_map_iff in Hj as (o & <- & Ho). apply filter_In in Hv as (Hv & Hk).
  apply leftJoin_matches in Ho. simpl. repeat split; auto.
  destruct o as [u|]; simpl; [|reflexivity].
  apply String.eqb_eq in Ho. auto.
Qed.

(** A well-formed listing of votes is answered 200 without any
    authentication.  Every listed vote is a row of the votes table that
    matches the selection, the votes come newest first, and the user shown
    with a vote has the id of its voter (the placeholder "Unknown User"
    included).  With the primary key of [user] in force the listing holds
    each matching vote exactly once.  Tallies accompany a selection by item
    and are those of the item; a selection by user has none. *)
Theorem votes_listing_content :
  forall (zodErrorMessage : list Zod.issue -> string)
         (request : NextRequest unit) (w : World) (f : Filter),
    selection request = Selected f ->
    NoDup (map User.id (users (db w))) ->
    exists listed counts,
      GET zodErrorMessage request w
      = (inr (mkResponse 200
                (ApiSuccess (mkVotesData listed counts)
                            (Some "Votes retrieved successfully") None)), w)
      /\ Permutation (map f_vote listed) (filter (keeps f) (votes (db w)))
      /\ StronglySorted notOlder (map f_vote listed)
      /\ Forall (fun v => User.id (f_user v) = Vote.userId (f_vote v)) listed
      /\ counts = match f with
                  | ByItem iid ty => Some (tally iid ty (votes (db w)))
                  | ByUser _ => None
                  end.
Proof.
  intros zm request w f Hsel Hnd. rewrite GET_run, Hsel.
  do 2 eexists. split; [reflexivity|].
  assert (Hmap : map f_vote (map format (selectVotes f (db w)))
                 = map j_vote (selectVotes f (db w))).
  { rewrite map_map. apply map_ext. reflexivity. }
  split; [|split; [|split; [|reflexivity]]].
  - rewrite Hmap, <- (joinUsers_votes f (db w) Hnd).
    apply Permutation_map, orderBy_perm.
  - rewrite Hmap. unfold selectVotes.
    apply (StronglySorted_map (fun a b => newestFirst a b = true) notOlder j_vote).
    + intros a b Hab. unfold newestFirst in Hab. unfold notOlder. lia.
    + apply orderBy_sorted; unfold newestFirst; intros; lia.
  - apply Forall_forall. intros v Hv. apply in_map_iff in Hv as (j & <- & Hj).
    apply orderBy_In in Hj. apply (joinUsers_user f (db w) j Hj).
Qed.

Lemma votes_listing_content_witness :
  exists listed counts,
    GET Zod.renderIssues votesOnQ1 Ledger.upvoteHeld
    = (inr (mkResponse 200
              (ApiSuccess (mkVotesData listed counts)
                          (Some "Votes retrieved successfully") None)),
       Ledger.upvoteHeld)
    /\ Permutation (map f_vote listed)
         (filter (keeps (ByItem "q1" question)) (votes (db Ledger.upvoteHeld)))
    /\ counts = Some (mkCounts 1 0 1).
Proof.
  destruct (votes_listing_content Zod.renderIssues votesOnQ1 Ledger.upvoteHeld
              (ByItem "q1" question))
    as (listed & counts & HG & Hperm & _ & _ & Hc).
  - reflexivity.
  - repeat constructor. simpl. tauto.
  - exists listed, counts. repeat split; assumption.
Defined.

End VotesListFacts.

(** ** The schemas *)

Module SchemaFacts.

Import ApiUtils Validations MonadFacts ListFacts Shapes.
Local Open Scope Z_scope.

Lemma enum_itemType v t :
  Zod.enum "itemType" [("question", question); ("answer", answer)] v = inr t
  <-> v = JS.Str (ItemType_text t).
Proof.
  split.
  - destruct v as [| | | |s]; cbn [Zod.enum Zod.lookupEnum]; try discriminate.
    destruct (String.eqb "question" s) eqn:E1.
    + apply String.eqb_eq in E1. intros H. injection H as Ht. subst. reflexivity.
    + destruct (String.eqb "answer" s) eqn:E2; [|discriminate].
      apply String.eqb_eq in E2. intros H. injection H as Ht. subst. reflexivity.
  - intros ->. destruct t; reflexivity.
Qed.

Lemma enum_voteType v t :
  Zod.enum "voteType" [("upvote", upvote); ("downvote", downvote)] v = inr t
  <-> v = JS.Str (VoteType_text t).
Proof.
  split.
  - destruct v as [| | | |s]; cbn [Zod.enum Zod.lookupEnum]; try discriminate.
    destruct (String.eqb "upvote" s) eqn:E1.
    + apply String.eqb_eq in E1. intros H. injection H as Ht. subst. reflexivity.
    + destruct (String.eqb "downvote" s) eqn:E2; [|discriminate].
      apply String.eqb_eq in E2. intros H. injection H as Ht. subst. reflexivity.
  - intros ->. destruct t; reflexivity.
Qed.

Lemma string_min1 p msg v s :
  Zod.string_ p (Some (1%nat, msg)) None v = inr s <-> v = JS.Str s /\ s <> "".
Proof.
  split.
  - destruct v as [| | | |s']; try discriminate.
    destruct s' as [|c r]; [discriminate|].
    intros H. injection H as <-. split; [reflexivity|discriminate].
  - intros (-> & Hne). destruct s as [|c r]; [contradiction|reflexivity].
Qed.

Lemma both_inr {A B} (a : Zod.result A) (b : Zod.result B) x y :
  both a b = inr (x, y) <-> a = inr x /\ b = inr y.
Proof.
  destruct a, b; simpl; split; try discriminate; try (intros (H1 & H2); discriminate).
  - intros [= -> ->]. auto.
  - intros ([= ->] & [= ->]). reflexivity.
Qed.

(** The body of a cast is accepted exactly when [itemId] is a non-empty
    string, [itemType] is one of "question" and "answer", and [voteType]
    is one of "upvote" and "downvote"; the parsed value carries these
    three, and nothing else of the body. *)
Theorem vote_body_accepted_exactly :
  forall (o : VoteBody.t) (i : string) (t : ItemType) (v : VoteType),
    createVoteSchema o = inr (CreateVoteInput.mk i t v)
    <-> (VoteBody.itemId o = JS.Str i /\ i <> ""
         /\ VoteBody.itemType o = JS.Str (ItemType_text t)
         /\ VoteBody.voteType o = JS.Str (VoteType_text v)).
Proof.
  intros o i t v. unfold createVoteSchema. split.
  - destruct (both _ _) as [errs|[i' [t' v']]] eqn:E; [discriminate|].
    intros [= -> -> ->].
    apply both_inr in E as (H1 & E). apply both_inr in E as (H2 & H3).
    apply string_min1 in H1 as (H1 & Hne).
    apply enum_itemType in H2. apply enum_voteType in H3. auto.
  - intros (H1 & Hne & H2 & H3).
    assert (E1 : Zod.string_ "itemId" (Some (1%nat, "Item ID is required")) None
                   (VoteBody.itemId o) = inr i) by (apply string_min1; auto).
    assert (E2 : Zod.enum "itemType" [("question", question); ("answer", answer)]
                   (VoteBody.itemType o) = inr t) by (apply enum_itemType, H2).
    assert (E3 : Zod.enum "voteType" [("upvote", upvote); ("downvote", downvote)]
                   (VoteBody.voteType o) = inr v) by (apply enum_voteType, H3).
    rewrite E1, E2, E3. reflexivity.
Qed.

Lemma fromChecks_inr {A} (l : list Zod.issue) (a z : A) :
  Zod.fromChecks l a = inr z -> l = [] /\ a = z.
Proof. destruct l; simpl; [intros [= ->]; auto|discriminate]. Qed.

Lemma check_nil b i : Zod.check b i = [] -> b = false.
Proof. destruct b; simpl; [discriminate|reflexivity]. Qed.

(** What the number schema lets through is an integer of at least 1, and
    of at most the maximum when there is one. *)
Lemma coerce_bounds S2N p max v z :
  Zod.coerceIntPositive S2N p max v = inr z ->
  1 <= z /\ (forall m, max = Some m -> z <= m).
Proof.
  unfold Zod.coerceIntPositive.
  destruct (JS.toNumber S2N v) as [| | |q]; try discriminate;
    intros H; apply fromChecks_inr in H as (Hl & Hz);
    apply app_eq_nil in Hl as (Hint & Hl); apply app_eq_nil in Hl as (Hpos & Hmax);
    apply check_nil in Hint; apply check_nil in Hpos;
    try discriminate.
  apply negb_false_iff in Hint, Hpos. cbn [JS.isInteger JS.gtFinite] in *.
  apply Pos.eqb_eq in Hint. apply negb_true_iff in Hpos.
  assert (Hq : (Qred q == q)%Q) by apply Qred_correct.
  assert (Hgt : (0 < Qred q)%Q).
  { rewrite Hq. apply Qnot_le_lt. intros Hle. apply Qle_bool_iff in Hle. congruence. }
  subst z. split.
  - unfold Qlt in Hgt. simpl in Hgt. lia.
  - intros m ->. apply check_nil in Hmax. cbn [JS.gtFinite] in Hmax.
    apply negb_false_iff, Qle_bool_iff in Hmax. rewrite <- Hq in Hmax.
    unfold Qle, inject_Z in Hmax. simpl in Hmax. rewrite Hint in Hmax. lia.
Qed.

(** Whatever a listing request holds, a query that passes the schema has
    a page of at least 1 and a limit between 1 and 50. *)
Lemma query_bounds S2N o q :
  questionsQuerySchema S2N o = inr q ->
  1 <= QuestionsQuery.page q /\ 1 <= QuestionsQuery.limit q <= 50.
Proof.
  unfold questionsQuerySchema.
  destruct (both _ _) as [errs|[p [l [s t]]]] eqn:E; [discriminate|].
  intros [= <-]. cbn [QuestionsQuery.page QuestionsQuery.limit].
  apply both_inr in E as (Hp & E). apply both_inr in E as (Hl & _).
  assert (Hpage : 1 <= p).
  { destruct (QueryParams.page o); cbn [Zod.default] in Hp;
      try (apply coerce_bounds in Hp; tauto).
    injection Hp as <-. lia. }
  assert (Hlimit : 1 <= l <= 50).
  { destruct (QueryParams.limit o); cbn [Zod.default] in Hl;
      try (apply coerce_bounds in Hl as (H1 & H2); specialize (H2 50 eq_refl); lia).
    injection Hl as <-. lia. }
  auto.
Qed.

End SchemaFacts.

(** ** The questions listing: requests that pass the schema *)

Module FeedFacts.

Import Validations QuestionsRoute MonadFacts ErrorFacts ListFacts.
Import Listing ListingFacts SchemaFacts Shapes.
Local Open Scope Z_scope.

(** The [TypeError] of the query construction is none of the errors
    that [handleApiError] classifies. *)
Lemma handle_notAFunction zm w :
  @ApiUtils.handleApiError zm (list FormattedQuestion) (JsError (notAFunction "votes.as")) w
  = (inr (mkResponse 500 (ApiError (notAFunction "votes.as"))),
     mkWorld (db w)
       ((console w ++ [LogUnhandled (JsError (notAFunction "votes.as"))])
        ++ [LogApiError (notAFunction "votes.as")])).
Proof. apply handleApiError_unclassified; reflexivity. Qed.

Lemma GET_cases S2N zm (request : NextRequest unit) w :
  (exists issues,
      questionsQuerySchema S2N (queryParams request) = inl issues
      /\ GET S2N zm request w = ApiUtils.handleApiError zm (ZodError issues) w)
  \/ (exists q,
        questionsQuerySchema S2N (queryParams request) = inr q
        /\ GET S2N zm request w
           = (inr (mkResponse 500 (ApiError (notAFunction "votes.as"))),
              mkWorld (db w)
                ((console w ++ [LogUnhandled (JsError (notAFunction "votes.as"))])
                 ++ [LogApiError (notAFunction "votes.as")]))).
Proof.
  destruct (questionsQuerySchema S2N (queryParams request)) as [issues|q] eqn:E.
  - left. exists issues. split; [reflexivity|]. apply GET_invalid. exact E.
  - right. exists q. split; [reflexivity|]. unfold queryParams in E.
    unfold GET. cbv zeta. rewrite E.
    destruct (ApiUtils.getPaginationParams (QuestionsQuery.page q) (QuestionsQuery.limit q))
      as [limit offset].
    eapply tryCatch_throw; [reflexivity|]. apply handle_notAFunction.
Qed.

(** C6, the code at failing inputs.  A listing whose parameters pass the
    schema and carry a topic filter is not answered with the questions of
    the topic and their number: building the page query throws, and the
    answer is an error of status 500 that holds neither a page nor a
    total.  The database is as before. *)
Theorem topic_filter_listing_fails :
  forall (StringToNumber : string -> JS.number)
         (zodErrorMessage : list Zod.issue -> string)
         (request : NextRequest unit) (w : World)
         (q : QuestionsQuery.t) (topic : string),
    questionsQuerySchema StringToNumber (queryParams request) = inr q ->
    QuestionsQuery.topic q = Some topic ->
    exists msg w',
      GET StringToNumber zodErrorMessage request w
      = (inr (mkResponse 500 (ApiError msg)), w')
      /\ db w' = db w.
Proof.
  intros S2N zm request w q topic Hq _.
  destruct (GET_cases S2N zm request w) as [(issues & E & _)|(q' & _ & HG)];
    [congruence|].
  do 2 eexists. split; [exact HG|reflexivity].
Qed.

Lemma topic_filter_listing_fails_witness :
  exists msg,
    fst (get (listing "1" "20" "recent" "machine-learning") tagged)
    = inr (mkResponse 500 (ApiError msg)).
Proof.
  destruct (topic_filter_listing_fails JS.decimalStringToNumber Zod.renderIssues
              (listing "1" "20" "recent" "machine-learning") tagged
              (QuestionsQuery.mk 1 20 recent (Some "machine-learning"))
              "machine-learning")
    as (msg & w' & HG & _).
  - reflexivity.
  - reflexivity.
  - exists msg. unfold get. rewrite HG. reflexivity.
Defined.

(** C7, the code at failing inputs.  Whatever page a listing asks for, a
    page beyond the last one included, a request whose parameters pass
    the schema is answered with an error of status 500, not with a
    success and an empty page.  [createSuccessResponse], had it been
    reached with the page and limit of the request and a total below
    2^31, does report as [totalPages] the least number of pages of that
    size that hold the total, which is [ceil(total / limit)]. *)
Theorem listing_page_is_an_error :
  forall (StringToNumber : string -> JS.number)
         (zodErrorMessage : list Zod.issue -> string)
         (request : NextRequest unit) (w : World) (q : QuestionsQuery.t),
    questionsQuerySchema StringToNumber (queryParams request) = inr q ->
    (exists msg w',
        GET StringToNumber zodErrorMessage request w
        = (inr (mkResponse 500 (ApiError msg)), w')
        /\ db w' = db w)
    /\ (forall (data : list FormattedQuestion) (n : Z),
          0 <= n < 2 ^ 31 ->
          exists pg,
            body (ApiUtils.createSuccessResponse data "Questions retrieved successfully"
                    (Some (QuestionsQuery.page q, QuestionsQuery.limit q, n)))
            = ApiSuccess data (Some "Questions retrieved successfully") (Some pg)
            /\ total pg = n
            /\ (totalPages pg - 1) * limit pg < n <= totalPages pg * limit pg).
Proof.
  intros S2N zm request w q Hq. split.
  - destruct (GET_cases S2N zm request w) as [(issues & E & _)|(q' & _ & HG)];
      [congruence|].
    do 2 eexists. split; [exact HG|reflexivity].
  - intros data n _. destruct (query_bounds S2N _ q Hq) as (_ & Hl).
    eexists. split; [reflexivity|]. cbn [total totalPages limit].
    split; [reflexivity|]. apply totalPages_ceiling. lia.
Qed.

Lemma listing_page_is_an_error_witness :
  exists msg,
    fst (get (listing "2" "1" "recent" "machine learning") tagged)
    = inr (mkResponse 500 (ApiError msg)).
Proof.
  destruct (listing_page_is_an_error JS.decimalStringToNumber Zod.renderIssues
              (listing "2" "1" "recent" "machine learning") tagged
              (QuestionsQuery.mk 2 1 recent (Some "machine learning")))
    as ((msg & w' & HG & _) & _).
  - reflexivity.
  - exists msg. unfold get. rewrite HG. reflexivity.
Defined.

End FeedFacts.

(** ** Topic creation *)

Module TopicCreationFacts.

Import Validations TopicsRoute MonadFacts ErrorFacts ListFacts.
Import Slug SlugFacts Topics TopicFacts SchemaFacts Shapes Access AccessFacts.
Import TopicCreation.
Local Open Scope Z_scope.

(** *** The string functions *)









Lemma trimStart_blank s : whiteSpaceOnly s = true -> JS.trimStart s = "".
Proof.
  induction s as [|c s IH]; simpl; [reflexivity|].
  intros H. apply andb_true_iff in H as (-> & H). apply IH, H.
Qed.

(** *** The schema *)

Lemma string_bounds p min max v s :
  Zod.string_ p min max v = inr s
  <-> v = JS.Str s
      /\ (forall n msg, min = Some (n, msg) -> (n <= String.length s)%nat)
      /\ (forall n msg, max = Some (n, msg) -> (String.length s <= n)%nat).
Proof.
  split.
  - destruct v as [| | | |s']; try discriminate. cbn [Zod.string_].
    intros H. apply fromChecks_inr in H as (Hl & ->).
    apply app_eq_nil in Hl as (H1 & H2). split; [reflexivity|].
    split; intros n msg ->.
    + apply check_nil in H1. apply Nat.ltb_ge in H1. exact H1.
    + apply check_nil in H2. apply Nat.ltb_ge in H2. exact H2.
  - intros (-> & Hmin & Hmax). cbn [Zod.string_].
    destruct min as [[n msg]|], max as [[m msg']|];
      try rewrite (proj2 (Nat.ltb_ge _ _) (Hmin _ _ eq_refl));
      try rewrite (proj2 (Nat.ltb_ge _ _) (Hmax _ _ eq_refl));
      reflexivity.
Qed.

Lemma createTopicSchema_iff (o : TopicBody.t) (body : CreateTopicInput.t) :
  createTopicSchema o = inr body
  <-> exists n s,
        TopicBody.name o = JS.Str n /\ (1 <= String.length n <= 50)%nat
        /\ TopicBody.slug o = JS.Str s /\ (1 <= String.length s <= 50)%nat
        /\ describes (TopicBody.description o) (CreateTopicInput.description body)
        /\ CreateTopicInput.name body = nameTransform n
        /\ CreateTopicInput.slug body = slugTransform s.
Proof.
  unfold createTopicSchema. split.
  - destruct (both _ _) as [errs|[n' [s' d']]] eqn:E; [discriminate|].
    intros H. injection H as <-.
    apply both_inr in E as (H1 & E). apply both_inr in E as (H2 & H3).
    unfold Zod.transform in H1, H2.
    destruct (Zod.string_ "name" _ _ _) as [|n] eqn:En; [discriminate|].
    destruct (Zod.string_ "slug" _ _ _) as [|s] eqn:Es; [discriminate|].
    injection H1 as <-. injection H2 as <-.
    apply string_bounds in En as (Hn & Hn1 & Hn2).
    apply string_bounds in Es as (Hs & Hs1 & Hs2).
    exists n, s. cbn [CreateTopicInput.name CreateTopicInput.slug CreateTopicInput.description].
    pose proof (Hn1 _ _ eq_refl). pose proof (Hn2 _ _ eq_refl).
    pose proof (Hs1 _ _ eq_refl). pose proof (Hs2 _ _ eq_refl).
    repeat (split; [first [assumption|reflexivity|lia]|]).
    split; [|split; reflexivity].
    destruct (TopicBody.description o) as [| | | |x]; cbn [Zod.optional] in H3;
      try discriminate.
    + injection H3 as <-. exact I.
    + destruct (Zod.string_ "description" _ _ _) as [|x'] eqn:Ex; [discriminate|].
      injection H3 as <-. apply string_bounds in Ex as (Hx & _ & Hx2).
      injection Hx as <-. split; [reflexivity|]. apply (Hx2 _ _ eq_refl).
  - intros (n & s & Hn & Hln & Hs & Hls & Hd & Hbn & Hbs).
    destruct body as [bn bs bd]. cbn [CreateTopicInput.name CreateTopicInput.slug
                                       CreateTopicInput.description] in *.
    subst bn bs. rewrite Hn, Hs. unfold Zod.transform.
    rewrite (proj2 (string_bounds "name" _ _ (JS.Str n) n)).
    2:{ split; [reflexivity|]. split; intros k msg [= <- _]; lia. }
    rewrite (proj2 (string_bounds "slug" _ _ (JS.Str s) s)).
    2:{ split; [reflexivity|]. split; intros k msg [= <- _]; lia. }
    destruct (TopicBody.description o) as [| | | |x], bd as [y|];
      cbn [describes] in Hd; try contradiction.
    + reflexivity.
    + destruct Hd as (<- & Hx). cbn [Zod.optional].
      rewrite (proj2 (string_bounds "description" _ _ (JS.Str x) x)); [reflexivity|].
      split; [reflexivity|]. split; intros k msg; [discriminate|].
      intros [= <- _]. exact Hx.
Qed.

(** A topic body is accepted exactly when [name] and [slug] are strings
    of 1 to 50 code units, measured as sent, and [description] is absent
    or a string of at most 200 code units; the parsed value carries the
    name trimmed and lower-cased, the slug trimmed, lower-cased and with
    every run of white space replaced by one hyphen, and the description
    as it was sent. *)
Theorem topic_body_accepted_exactly :
  forall (o : TopicBody.t) (body : CreateTopicInput.t),
    createTopicSchema o = inr body
    <-> exists n s,
          TopicBody.name o = JS.Str n /\ (1 <= String.length n <= 50)%nat
          /\ TopicBody.slug o = JS.Str s /\ (1 <= String.length s <= 50)%nat
          /\ describes (TopicBody.description o) (CreateTopicInput.description body)
          /\ CreateTopicInput.name body = nameTransform n
          /\ CreateTopicInput.slug body = slugTransform s.
Proof. intros o body. apply createTopicSchema_iff. Qed.



(** *** The handler *)

(** One creation either leaves the database as it was or is one
    successful insert into [topics], answered 200. *)
Lemma POST_step zm env (request : NextRequest TopicBody.t) w :
  db (snd (POST zm env request w)) = db w
  \/ exists body row,
       createTopicSchema (json request) = inr body
       /\ row = Topic.mk (uuid env) (CreateTopicInput.name body)
                  (CreateTopicInput.slug body)
                  (orNull (CreateTopicInput.description body)) (now env) (now env)
       /\ filter (nameOrSlug (CreateTopicInput.name body) (CreateTopicInput.slug body))
                 (topics (db w)) = []
       /\ Store.insertTopic row (db w)
          = inr (Store.setTopics (db w) (topics (db w) ++ [row]))
       /\ POST zm env request w
          = (inr (mkResponse 200
                    (ApiSuccess (Some row) (Some "Topic created successfully") None)),
             mkWorld (Store.setTopics (db w) (topics (db w) ++ [row])) (console w)).
Proof.
  destruct (createTopicSchema (json request)) as [issues|body] eqn:Hs.
  - left. unfold POST.
    rewrite (tryCatch_throw _ _ w (ZodError issues) w
               (ApiUtils.handleApiError zm (ZodError issues) w)).
    + apply reads_handleApiError.
    + apply run_bind_throw. unfold ApiUtils.validateRequestBody. rewrite Hs. reflexivity.
    + reflexivity.
  - destruct (filter (nameOrSlug (CreateTopicInput.name body) (CreateTopicInput.slug body))
                     (topics (db w))) as [|t l] eqn:Hc.
    + pose proof (POST_no_conflict zm env request w body Hs Hc) as HP. cbv zeta in HP.
      pose proof (insertTopic_cases
                    (Topic.mk (uuid env) (CreateTopicInput.name body)
                       (CreateTopicInput.slug body)
                       (orNull (CreateTopicInput.description body)) (now env) (now env))
                    (db w) Hc) as Hins.
      cbn [Topic.id] in Hins.
      destruct (existsb (fun r => String.eqb (Topic.id r) (uuid env)) (topics (db w))).
      * left. rewrite HP. apply reads_handleApiError.
      * right. exists body. eexists. split; [reflexivity|]. split; [reflexivity|].
        split; [exact Hc|]. split; [exact Hins|exact HP].
    + left. rewrite (POST_conflict zm env request w body t l Hs Hc). reflexivity.
Qed.

Lemma existsb_field_false (f : Topic.t -> string) x l :
  existsb (fun r => String.eqb (f r) x) l = false -> ~ In x (map f l).
Proof.
  intros H Hin. apply in_map_iff in Hin as (r & <- & Hr).
  assert (E : existsb (fun r' => String.eqb (f r') (f r)) l = true).
  { apply existsb_exists. exists r. split; [exact Hr|apply String.eqb_refl]. }
  congruence.
Qed.

Lemma NoDup_snoc (x : string) l : NoDup l -> ~ In x l -> NoDup (l ++ [x]).
Proof.
  intros Hl Hx. apply NoDup_app; [exact Hl|repeat constructor; simpl; tauto|].
  intros a Ha [<-|[]]. exact (Hx Ha).
Qed.

Lemma insertTopic_unique row d d' :
  uniqueTopics d -> Store.insertTopic row d = inr d' -> uniqueTopics d'.
Proof.
  intros (Hid & Hname & Hslug). unfold Store.insertTopic.
  destruct (existsb _ (topics d)) eqn:E1; [discriminate|].
  destruct (existsb _ (topics d)) eqn:E2 in |- *; [discriminate|].
  destruct (existsb _ (topics d)) eqn:E3 in |- *; [discriminate|].
  intros [= <-]. unfold uniqueTopics. cbn [Store.setTopics topics].
  rewrite !map_app. cbn [map].
  split; [|split]; apply NoDup_snoc; try assumption.
  - apply (existsb_field_false Topic.id), E1.
  - apply (existsb_field_false Topic.name), E2.
  - apply (existsb_field_false Topic.slug), E3.
Qed.

Lemma createAll_inv (P : DB -> Prop) zm :
  (forall row d d', P d -> Store.insertTopic row d = inr d' -> P d') ->
  forall calls w, P (db w) -> P (db (createAll zm calls w)).
Proof.
  intros Hins. unfold createAll.
  induction calls as [|[env request] calls IH]; intros w Hp; cbn [fold_left];
    [exact Hp|].
  apply IH. cbn [fst snd].
  destruct (POST_step zm env request w)
    as [E|(body & row & _ & _ & _ & Hrow & HP)].
  - rewrite E. exact Hp.
  - rewrite HP. cbn [snd db]. exact (Hins row (db w) _ Hp Hrow).
Qed.

(** The primary key and the two unique constraints of [topics] survive
    every sequence of creation requests, whatever the bodies, the
    generated ids and the callers: no two topics share an id, a name or a
    slug. *)
Theorem topic_keys_kept :
  forall (zodErrorMessage : list Zod.issue -> string)
         (calls : list (Env * NextRequest TopicBody.t)) (w : World),
    uniqueTopics (db w) ->
    uniqueTopics (db (createAll zodErrorMessage calls w)).
Proof.
  intros zm calls w H.
  apply (createAll_inv uniqueTopics zm); [|exact H].
  intros row d d' Hd Hins. exact (insertTopic_unique row d d' Hd Hins).
Qed.

Lemma topic_keys_kept_witness :
  uniqueTopics
    (db (createAll Zod.renderIssues
           [(callEnv, rocq); (mkEnv "t-2" 60, rocq);
            (callEnv, naming "Lean" "lean"); (mkEnv "t-3" 70, naming "Lean" "lean")]
           noTopics)).
Proof.
  apply (topic_keys_kept Zod.renderIssues
           [(callEnv, rocq); (mkEnv "t-2" 60, rocq);
            (callEnv, naming "Lean" "lean"); (mkEnv "t-3" 70, naming "Lean" "lean")]
           noTopics).
  repeat split; constructor.
Defined.

(** Topic creation only appends to [topics]: after any sequence of
    creation requests the topics that were there are still there, in
    their places and unchanged, followed by the created ones; and the
    tables [user], [questions], [answers], [votes] and [question_topics]
    are what they were. *)
Theorem topic_creation_only_appends :
  forall (zodErrorMessage : list Zod.issue -> string)
         (calls : list (Env * NextRequest TopicBody.t)) (w : World),
    let w' := createAll zodErrorMessage calls w in
    (exists created, topics (db w') = (topics (db w) ++ created)%list)
    /\ users (db w') = users (db w)
    /\ questions (db w') = questions (db w)
    /\ answers (db w') = answers (db w)
    /\ votes (db w') = votes (db w)
    /\ questionTopics (db w') = questionTopics (db w).
Proof.
  intros zm calls w.
  apply (createAll_inv
           (fun d => (exists created, topics d = (topics (db w) ++ created)%list)
                     /\ users d = users (db w)
                     /\ questions d = questions (db w)
                     /\ answers d = answers (db w)
                     /\ votes d = votes (db w)
                     /\ questionTopics d = questionTopics (db w)) zm).
  - intros row d d' ((created & Ht) & Hu & Hq & Ha & Hv & Hqt). unfold Store.insertTopic.
    destruct (existsb _ (topics d)); [discriminate|].
    destruct (existsb _ (topics d)); [discriminate|].
    destruct (existsb _ (topics d)); [discriminate|].
    intros [= <-]. cbn [Store.setTopics topics users questions answers votes questionTopics].
    split; [|auto]. exists (created ++ [row])%list. rewrite Ht, app_assoc. reflexivity.
  - split; [exists []; rewrite app_nil_r; reflexivity|auto].
Qed.

(** A topic that was created cannot be created again: when a creation
    request is answered 200, the same body sent again, by any caller and
    with any generated id, is answered 409 and leaves the database as the
    first request left it. *)
Theorem topic_created_twice_conflicts :
  forall (zodErrorMessage : list Zod.issue -> string) (env env' : Env)
         (request : NextRequest TopicBody.t) (s : option string)
         (w w' : World) (resp : NextResponse (option Topic.t)),
    POST zodErrorMessage env request w = (inr resp, w') ->
    status resp = 200 ->
    exists w'',
      POST zodErrorMessage env' (again s request) w'
      = (inr (mkResponse 409 (ApiError "Topic with this name or slug already exists")),
         w'')
      /\ db w'' = db w'.
Proof.
  intros zm env env' request s w w' resp HP Hst.
  destruct (createTopicSchema (json request)) as [issues|body] eqn:Hs.
  - exfalso. unfold POST in HP.
    rewrite (tryCatch_throw _ _ w (ZodError issues) w
               (ApiUtils.handleApiError zm (ZodError issues) w)) in HP.
    + unfold ApiUtils.handleApiError, bind, console_error in HP. cbn in HP.
      destruct (String.eqb (zm issues) "Authentication required");
        [injection HP as <- _; discriminate|].
      destruct (JS.includes (zm issues) "not found");
        [injection HP as <- _; discriminate|].
      destruct (JS.includes (zm issues) "unauthorized");
        injection HP as <- _; discriminate.
    + apply run_bind_throw. unfold ApiUtils.validateRequestBody. rewrite Hs. reflexivity.
    + reflexivity.
  - destruct (filter (nameOrSlug (CreateTopicInput.name body) (CreateTopicInput.slug body))
                     (topics (db w))) as [|t l] eqn:Hc.
    + pose proof (POST_no_conflict zm env request w body Hs Hc) as HQ. cbv zeta in HQ.
      destruct (existsb (fun r => String.eqb (Topic.id r) (uuid env)) (topics (db w))).
      * exfalso. rewrite HQ in HP.
        destruct (handleApiError_status (T := option Topic.t) zm
                    (Store.uniqueViolation "topics_pkey") w) as (st & msg & E & Hcase).
        rewrite E in HP. injection HP as <- _. cbn [status] in Hst. lia.
      * rewrite HQ in HP. injection HP as _ <-.
        assert (Hclash :
                  exists t' l',
                    filter (nameOrSlug (CreateTopicInput.name body)
                                       (CreateTopicInput.slug body))
                           (topics (db (mkWorld
                              (Store.setTopics (db w)
                                 (topics (db w) ++
                                  [Topic.mk (uuid env) (CreateTopicInput.name body)
                                     (CreateTopicInput.slug body)
                                     (orNull (CreateTopicInput.description body))
                                     (now env) (now env)]))
                              (console w))))
                    = t' :: l').
        { cbn [db Store.setTopics topics]. rewrite filter_app, Hc. cbn [app filter].
          unfold nameOrSlug at 1. cbn [Topic.name Topic.slug].
          rewrite String.eqb_refl. cbn [orb]. do 2 eexists. reflexivity. }
        destruct Hclash as (t' & l' & Hclash).
        eexists. split.
        -- apply (POST_conflict zm env' (again s request) _ body t' l'); [exact Hs|].
           exact Hclash.
        -- reflexivity.
    + exfalso. rewrite (POST_conflict zm env request w body t l Hs Hc) in HP.
      injection HP as <- _. discriminate.
Qed.

Lemma topic_created_twice_conflicts_witness :
  exists w'',
    POST Zod.renderIssues (mkEnv "t-2" 60) (again (Some "alice") rocq)
         (snd (POST Zod.renderIssues callEnv rocq noTopics))
    = (inr (mkResponse 409 (ApiError "Topic with this name or slug already exists")),
       w'').
Proof.
  destruct (topic_created_twice_conflicts Zod.renderIssues callEnv (mkEnv "t-2" 60)
              rocq (Some "alice") noTopics
              (snd (POST Zod.renderIssues callEnv rocq noTopics))
              (mkResponse 200
                 (ApiSuccess (Some (Topic.mk "t-1" "rocq prover" "rocq-prover" None 50 50))
                    (Some "Topic created successfully") None)))
    as (w'' & H & _).
  - vm_compute. reflexivity.
  - reflexivity.
  - exists w''. exact H.
Defined.

(** The length checks of a topic's name run before the name is trimmed:
    a name of 1 to 50 code units that is all white space passes the
    schema and is parsed as the empty name; sent to an empty topics
    table, it creates a topic whose name is the empty string. *)
Theorem blank_topic_name_is_accepted :
  forall (zodErrorMessage : list Zod.issue -> string) (env : Env) (w : World)
         (name slug : string),
    whiteSpaceOnly name = true ->
    (1 <= String.length name <= 50)%nat ->
    (1 <= String.length slug <= 50)%nat ->
    topics (db w) = [] ->
    let row := Topic.mk (uuid env) "" (slugTransform slug) None (now env) (now env) in
    createTopicSchema (json (naming name slug))
    = inr (CreateTopicInput.mk "" (slugTransform slug) None)
    /\ POST zodErrorMessage env (naming name slug) w
       = (inr (mkResponse 200
                 (ApiSuccess (Some row) (Some "Topic created successfully") None)),
          mkWorld (Store.setTopics (db w) [row]) (console w)).
Proof.
  intros zm env w name slug Hblank Hn Hs Hnone row.
  assert (Hschema : createTopicSchema (json (naming name slug))
                    = inr (CreateTopicInput.mk "" (slugTransform slug) None)).
  { apply createTopicSchema_iff. exists name, slug. cbn.
    repeat (split; [first [reflexivity|lia|exact I]|]).
    split; [|reflexivity].
    unfold nameTransform, JS.trim. rewrite (trimStart_blank name Hblank). reflexivity. }
  split; [exact Hschema|].
  pose proof (POST_no_conflict zm env (naming name slug) w _ Hschema) as HP.
  rewrite Hnone in HP. cbn [filter existsb CreateTopicInput.name CreateTopicInput.slug
                            CreateTopicInput.description orNull app] in HP.
  apply HP. reflexivity.
Qed.

Lemma blank_topic_name_is_accepted_witness :
  fst (POST Zod.renderIssues callEnv (naming "   " "Blank") noTopics)
  = inr (mkResponse 200
           (ApiSuccess (Some (Topic.mk "t-1" "" "blank" None 50 50))
              (Some "Topic created successfully") None)).
Proof.
  destruct (blank_topic_name_is_accepted Zod.renderIssues callEnv noTopics "   " "Blank")
    as (_ & H).
  - reflexivity.
  - cbn. lia.
  - cbn. lia.
  - reflexivity.
  - rewrite H. reflexivity.
Defined.

End TopicCreationFacts.

(** ** Deleting a question or an answer *)

Module DeletionFacts.

Import ApiUtils Validations MonadFacts ErrorFacts ListFacts.
Import Aggregation Ledger VoteLedger Access AccessFacts VoteRouteFacts Deletion.
Local Open Scope Z_scope.

Lemma question_delete_cases zm i (request : NextRequest unit) w :
  (signedIn request (db w) = false
   /\ QuestionRoute.DELETE zm i request w
      = (inr (mkResponse 401 (ApiError "Authentication required")),
         mkWorld (db w) (console w ++ authenticationLog)))
  \/ (exists u,
        signedIn request (db w) = true /\ session request = Some (User.id u)
        /\ ((filter (fun q => String.eqb (Question.id q) i) (questions (db w)) = []
             /\ QuestionRoute.DELETE zm i request w
                = (inr (mkResponse 404 (ApiError "Question not found")),
                   mkWorld (db w) (console w ++ [LogApiError "Question not found"])))
            \/ (exists q l,
                  filter (fun q => String.eqb (Question.id q) i) (questions (db w)) = q :: l
                  /\ ((String.eqb (Question.authorId q) (User.id u) = false
                       /\ QuestionRoute.DELETE zm i request w
                          = (inr (mkResponse 403
                                    (ApiError "You can only delete your own questions")),
                             mkWorld (db w)
                               (console w ++
                                [LogApiError "You can only delete your own questions"])))
                      \/ (String.eqb (Question.authorId q) (User.id u) = true
                          /\ QuestionRoute.DELETE zm i request w
                             = (inr (mkResponse 200
                                       (ApiSuccess JS.Null
                                          (Some "Question deleted successfully") None)),
                                mkWorld (Cascade.deleteQuestionById i (db w))
                                        (console w))))))).
Proof.
  unfold QuestionRoute.DELETE. destruct (signedIn request (db w)) eqn:Hs.
  - right. destruct (requireAuth_signedIn request w Hs) as (u & Hu & Hsess & _).
    exists u. split; [reflexivity|]. split; [exact Hsess|].
    destruct (filter (fun q => String.eqb (Question.id q) i) (questions (db w)))
      as [|q l] eqn:Hf.
    + left. split; [reflexivity|]. apply tryCatch_ok.
      eapply run_bind; [exact Hu|]. eapply run_bind; [reflexivity|].
      cbv beta. rewrite Hf. reflexivity.
    + right. exists q, l. split; [reflexivity|].
      destruct (String.eqb (Question.authorId q) (User.id u)) eqn:Ho.
      * right. split; [reflexivity|]. apply tryCatch_ok.
        eapply run_bind; [exact Hu|]. eapply run_bind; [reflexivity|].
        cbv beta. rewrite Hf. cbn [firstn]. rewrite Ho. reflexivity.
      * left. split; [reflexivity|]. apply tryCatch_ok.
        eapply run_bind; [exact Hu|]. eapply run_bind; [reflexivity|].
        cbv beta. rewrite Hf. cbn [firstn]. rewrite Ho. reflexivity.
  - left. split; [reflexivity|].
    eapply tryCatch_throw; [|apply handle_auth_error].
    apply run_bind_throw. apply requireAuth_signedOut, Hs.
Qed.

Lemma answer_delete_cases zm i (request : NextRequest unit) w :
  (signedIn request (db w) = false
   /\ AnswerRoute.DELETE zm i request w
      = (inr (mkResponse 401 (ApiError "Authentication required")),
         mkWorld (db w) (console w ++ authenticationLog)))
  \/ (exists u,
        signedIn request (db w) = true /\ session request = Some (User.id u)
        /\ ((filter (fun a => String.eqb (Answer.id a) i) (answers (db w)) = []
             /\ AnswerRoute.DELETE zm i request w
                = (inr (mkResponse 404 (ApiError "Answer not found")),
                   mkWorld (db w) (console w ++ [LogApiError "Answer not found"])))
            \/ (exists a l,
                  filter (fun a => String.eqb (Answer.id a) i) (answers (db w)) = a :: l
                  /\ ((String.eqb (Answer.authorId a) (User.id u) = false
                       /\ AnswerRoute.DELETE zm i request w
                          = (inr (mkResponse 403
                                    (ApiError "You can only delete your own answers")),
                             mkWorld (db w)
                               (console w ++
                                [LogApiError "You can only delete your own answers"])))
                      \/ (String.eqb (Answer.authorId a) (User.id u) = true
                          /\ AnswerRoute.DELETE zm i request w
                             = (inr (mkResponse 200
                                       (ApiSuccess JS.Null
                                          (Some "Answer deleted successfully") None)),
                                mkWorld (Cascade.deleteAnswerById i (db w))
                                        (console w))))))).
Proof.
  unfold AnswerRoute.DELETE. destruct (signedIn request (db w)) eqn:Hs.
  - right. destruct (requireAuth_signedIn request w Hs) as (u & Hu & Hsess & _).
    exists u. split; [reflexivity|]. split; [exact Hsess|].
    destruct (filter (fun a => String.eqb (Answer.id a) i) (answers (db w)))
      as [|a l] eqn:Hf.
    + left. split; [reflexivity|]. apply tryCatch_ok.
      eapply run_bind; [exact Hu|]. eapply run_bind; [reflexivity|].
      cbv beta. rewrite Hf. reflexivity.
    + right. exists a, l. split; [reflexivity|].
      destruct (String.eqb (Answer.authorId a) (User.id u)) eqn:Ho.
      * right. split; [reflexivity|]. apply tryCatch_ok.
        eapply run_bind; [exact Hu|]. eapply run_bind; [reflexivity|].
        cbv beta. rewrite Hf. cbn [firstn]. rewrite Ho. reflexivity.
      * left. split; [reflexivity|]. apply tryCatch_ok.
        eapply run_bind; [exact Hu|]. eapply run_bind; [reflexivity|].
        cbv beta. rewrite Hf. cbn [firstn]. rewrite Ho. reflexivity.
  - left. split; [reflexivity|].
    eapply tryCatch_throw; [|apply handle_auth_error].
    apply run_bind_throw. apply requireAuth_signedOut, Hs.
Qed.

Lemma deleteItem_outcome zm ty i (request : NextRequest unit) w :
  exists r w',
    deleteItem zm ty i request w = (inr r, w')
    /\ status r = verdict (caller request (db w)) (owner ty i (db w))
    /\ db w' = (if status r =? 200 then deleteById ty i (db w) else db w).
Proof.
  unfold caller, owner, deleteItem, deleteById. destruct ty.
  - destruct (question_delete_cases zm i request w)
      as [(Hs & E)|(u & Hs & Hu & [(Hf & E)|(q & l & Hf & [(Ho & E)|(Ho & E)])])];
      rewrite E, Hs; do 2 eexists; (split; [reflexivity|]);
        try rewrite Hu; try rewrite Hf; cbn [status db hd_error option_map verdict];
        try rewrite Ho; split; reflexivity.
  - destruct (answer_delete_cases zm i request w)
      as [(Hs & E)|(u & Hs & Hu & [(Hf & E)|(a & l & Hf & [(Ho & E)|(Ho & E)])])];
      rewrite E, Hs; do 2 eexists; (split; [reflexivity|]);
        try rewrite Hu; try rewrite Hf; cbn [status db hd_error option_map verdict];
        try rewrite Ho; split; reflexivity.
Qed.

(** Every deletion is answered, and its outcome is decided in this
    order: 401 for a caller who is not signed in; 404 when no item has
    the id; 403 when the item is not the caller's own; 200 otherwise.
    Only the answer 200 changes the database, and the change is the
    deletion of the rows with that id (for a question, with the answers
    and topic associations that refer to it). *)
Theorem deletion_access_rules :
  forall (zodErrorMessage : list Zod.issue -> string) (ty : ItemType) (i : string)
         (request : NextRequest unit) (w : World),
    exists r w',
      deleteItem zodErrorMessage ty i request w = (inr r, w')
      /\ status r = verdict (caller request (db w)) (owner ty i (db w))
      /\ db w' = (if status r =? 200 then deleteById ty i (db w) else db w).
Proof. intros zm ty i request w. apply deleteItem_outcome. Qed.

Lemma existsb_filter_negb {A} (p : A -> bool) l :
  existsb p (filter (fun x => negb (p x)) l) = false.
Proof.
  induction l as [|x l IH]; simpl; [reflexivity|].
  destruct (p x) eqn:E; simpl; [exact IH|]. rewrite E. exact IH.
Qed.

Lemma deleteById_target ty i d : targetExists ty i (deleteById ty i d) = false.
Proof.
  destruct ty; unfold targetExists, deleteById.
  - unfold Cascade.deleteQuestionById.
    destruct (existsb (fun q => String.eqb (Question.id q) i) (questions d)) eqn:E;
      [|exact E].
    cbn [questions]. apply (existsb_filter_negb (fun q => String.eqb (Question.id q) i)).
  - cbn [Cascade.deleteAnswerById answers].
    apply (existsb_filter_negb (fun a => String.eqb (Answer.id a) i)).
Qed.

Lemma deleteById_frame ty i d :
  users (deleteById ty i d) = users d
  /\ topics (deleteById ty i d) = topics d
  /\ votes (deleteById ty i d) = votes d.
Proof.
  destruct ty; unfold deleteById, Cascade.deleteQuestionById, Cascade.deleteAnswerById.
  - destruct (existsb _ (questions d)); auto.
  - auto.
Qed.

Lemma deleteById_refers ty i d :
  refersToQuestions d -> refersToQuestions (deleteById ty i d).
Proof.
  intros (Ha & Hqt).
  destruct ty; unfold deleteById, Cascade.deleteQuestionById, Cascade.deleteAnswerById.
  - destruct (existsb (fun q => String.eqb (Question.id q) i) (questions d));
      [|split; assumption].
    split; cbn [answers questions questionTopics].
    + intros a Hin. apply filter_In in Hin as (Hin & Hne).
      specialize (Ha a Hin). apply existsb_exists in Ha as (q & Hq & Heq).
      apply existsb_exists. exists q. split; [|exact Heq].
      apply filter_In. split; [exact Hq|].
      apply String.eqb_eq in Heq. rewrite Heq. exact Hne.
    + intros qt Hin. apply filter_In in Hin as (Hin & Hne).
      specialize (Hqt qt Hin). apply existsb_exists in Hqt as (q & Hq & Heq).
      apply existsb_exists. exists q. split; [|exact Heq].
      apply filter_In. split; [exact Hq|].
      apply String.eqb_eq in Heq. rewrite Heq. exact Hne.
  - split; cbn [answers questions questionTopics]; [|exact Hqt].
    intros a Hin. apply filter_In in Hin as (Hin & _). apply (Ha a Hin).
Qed.

(** Deletions keep the foreign keys to [questions]: when every answer
    and every topic association refers to an existing question, the same
    holds after any deletion request for a question or an answer,
    whatever its outcome; and no deletion touches [user], [topics] or
    [votes]. *)
Theorem deletion_keeps_references :
  forall (zodErrorMessage : list Zod.issue -> string) (ty : ItemType) (i : string)
         (request : NextRequest unit) (w : World),
    refersToQuestions (db w) ->
    let w' := snd (deleteItem zodErrorMessage ty i request w) in
    refersToQuestions (db w')
    /\ users (db w') = users (db w)
    /\ topics (db w') = topics (db w)
    /\ votes (db w') = votes (db w).
Proof.
  intros zm ty i request w H.
  destruct (deleteItem_outcome zm ty i request w) as (r & w' & E & _ & Hdb).
  rewrite E. cbn [snd]. rewrite Hdb.
  destruct (status r =? 200); [|auto].
  split; [apply deleteById_refers, H|apply deleteById_frame].
Qed.

Lemma deletion_keeps_references_witness :
  refersToQuestions
    (db (snd (deleteItem Zod.renderIssues question "q1" (by_ "alice") thread)))
  /\ votes (db (snd (deleteItem Zod.renderIssues question "q1" (by_ "alice") thread)))
     = votes (db thread).
Proof.
  destruct (deletion_keeps_references Zod.renderIssues question "q1" (by_ "alice") thread)
    as (H & _ & _ & Hv).
  - split.
    + intros a [<-|[]]. reflexivity.
    + intros qt [<-|[]]. reflexivity.
  - split; [exact H|exact Hv].
Defined.

Lemma removal_of_missing zm (removal : NextRequest unit) w u i ty :
  requireAuth removal w = (inr u, w) ->
  removalTarget removal = Some (i, ty) ->
  targetExists ty i (db w) = false ->
  VotesRoute.DELETE zm removal w
  = (inr (mkResponse 404 (ApiError (ItemType_text ty ++ " not found"))),
     mkWorld (db w) (console w ++ [LogApiError (ItemType_text ty ++ " not found")])).
Proof.
  intros Hr Htarget Hmiss.
  unfold removalTarget in Htarget. unfold VotesRoute.DELETE. apply tryCatch_ok.
  eapply run_bind; [exact Hr|].
  destruct (searchParams_get (searchParams removal) "itemId") as [i'|]; [|discriminate].
  destruct (searchParams_get (searchParams removal) "itemType") as [t|]; [|discriminate].
  destruct (JS.isEmpty i'); [discriminate|].
  destruct (VotesRoute.parseItemType t) as [ty'|]; [|discriminate].
  injection Htarget as -> ->.
  eapply run_bind; [apply selectItem_missing, Hmiss|]. reflexivity.
Qed.

(** Votes outlive what they were cast on.  A successful deletion of a
    question or an answer leaves every vote in the table, those on the
    deleted item included: the item's tally is still what it was, and a
    removal of a vote on it, by any signed-in user, is from then on
    answered 404 with the vote left in place. *)
Theorem votes_outlive_deleted_item :
  forall (zodErrorMessage : list Zod.issue -> string) (ty : ItemType) (i : string)
         (request removal : NextRequest unit) (w w' : World)
         (r : NextResponse JS.value) (u : User.t),
    deleteItem zodErrorMessage ty i request w = (inr r, w') ->
    status r = 200 ->
    requireAuth removal w' = (inr u, w') ->
    removalTarget removal = Some (i, ty) ->
    votes (db w') = votes (db w)
    /\ getItemVoteCounts i ty w' = (inr (tally i ty (votes (db w))), w')
    /\ VotesRoute.DELETE zodErrorMessage removal w'
       = (inr (mkResponse 404 (ApiError (ItemType_text ty ++ " not found"))),
          mkWorld (db w')
            (console w' ++ [LogApiError (ItemType_text ty ++ " not found")])).
Proof.
  intros zm ty i request removal w w' r u Hdel Hst Hauth Htarget.
  destruct (deleteItem_outcome zm ty i request w) as (r0 & w0 & E & _ & Hdb).
  rewrite Hdel in E. injection E as <- <-.
  rewrite Hst in Hdb. cbn [Z.eqb Pos.eqb] in Hdb.
  assert (Hv : votes (db w') = votes (db w)).
  { rewrite Hdb. apply deleteById_frame. }
  split; [exact Hv|]. split.
  - rewrite AggregationFacts.getItemVoteCounts_tally, Hv. reflexivity.
  - apply (removal_of_missing zm removal w' u i ty Hauth Htarget).
    rewrite Hdb. apply deleteById_target.
Qed.

Lemma votes_outlive_deleted_item_witness :
  votes (db (snd (deleteItem Zod.renderIssues question "q1" (by_ "alice") thread)))
  = votes (db thread)
  /\ fst (VotesRoute.DELETE Zod.renderIssues (removeVoteOn "bob" "q1" "question")
            (snd (deleteItem Zod.renderIssues question "q1" (by_ "alice") thread)))
     = inr (mkResponse 404 (ApiError "question not found")).
Proof.
  destruct (votes_outlive_deleted_item Zod.renderIssues question "q1" (by_ "alice")
              (removeVoteOn "bob" "q1" "question") thread
              (snd (deleteItem Zod.renderIssues question "q1" (by_ "alice") thread))
              (mkResponse 200
                 (ApiSuccess JS.Null (Some "Question deleted successfully") None))
              bob)
    as (Hv & _ & Hd).
  - vm_compute. reflexivity.
  - reflexivity.
  - vm_compute. reflexivity.
  - reflexivity.
  - split; [exact Hv|]. rewrite Hd. reflexivity.
Defined.

End DeletionFacts.

(** ** The read routes *)

Module ReadFacts.

Import ApiUtils Validations MonadFacts ErrorFacts ListFacts.
Import Access AccessFacts Shapes.
Local Open Scope Z_scope.

(** The two listings are public and pure: the listing of votes and the
    listing of questions answer every request, give the same answer to
    every caller, signed in or not, and leave the database as it was. *)
Theorem listings_are_public_and_pure :
  forall (StringToNumber : string -> JS.number)
         (zodErrorMessage : list Zod.issue -> string)
         (request : NextRequest unit) (s : option string) (w : World),
    (exists r w',
        VotesList.GET zodErrorMessage request w = (inr r, w') /\ db w' = db w)
    /\ VotesList.GET zodErrorMessage (mkRequest s (searchParams request) tt) w
       = VotesList.GET zodErrorMessage request w
    /\ (exists r w',
          QuestionsRoute.GET StringToNumber zodErrorMessage request w = (inr r, w')
          /\ db w' = db w)
    /\ QuestionsRoute.GET StringToNumber zodErrorMessage
         (mkRequest s (searchParams request) tt) w
       = QuestionsRoute.GET StringToNumber zodErrorMessage request w.
Proof.
  intros S2N zm request s w.
  split; [|split; [reflexivity|split; [|reflexivity]]].
  - rewrite VotesListFacts.GET_run.
    destruct (VotesList.selection request); do 2 eexists; split; reflexivity.
  - destruct (FeedFacts.GET_cases S2N zm request w)
      as [(issues & _ & E)|(q & _ & E)]; rewrite E.
    + destruct (handleApiError_status (T := list QuestionsRoute.FormattedQuestion)
                  zm (ZodError issues) w) as (st & msg & H & _).
      rewrite H. do 2 eexists. split; reflexivity.
    + do 2 eexists. split; reflexivity.
Qed.

End ReadFacts.

(** ** The transforms on every string *)

Module Utf16Facts.

Import Utf16.
Local Open Scope N_scope.

(** *** Surrogates and white space *)

Ltac ranges :=
  unfold isHigh, isLow, isSurrogate, pairToCodePoint in *;
  repeat match goal with
         | H : _ && _ = true |- _ => apply andb_true_iff in H; destruct H
         | H : (_ <=? _) = true |- _ => apply N.leb_le in H
         | H : (_ <=? _) = false |- _ => apply N.leb_gt in H
         | H : (_ <? _) = true |- _ => apply N.ltb_lt in H
         | H : (_ <? _) = false |- _ => apply N.ltb_ge in H
         end;
  repeat match goal with
         | |- context [?a <=? ?b] => destruct (N.leb_spec a b)
         | |- context [?a <? ?b] => destruct (N.ltb_spec a b)
         end;
  cbn [andb orb negb] in *; try reflexivity; try discriminate; try lia.

Lemma high_not_low u : isHigh u = true -> isLow u = false.
Proof. intros H. ranges. Qed.

Lemma nonSurrogate_not_high c : isSurrogate c = false -> isHigh c = false.
Proof.
  unfold isSurrogate, isHigh. intros H.
  destruct (N.leb_spec 0xD800 c); destruct (N.leb_spec c 0xDFFF);
    destruct (N.leb_spec c 0xDBFF); cbn in *; try reflexivity; try discriminate; lia.
Qed.

Lemma nonSurrogate_not_low c : isSurrogate c = false -> isLow c = false.
Proof.
  unfold isSurrogate, isLow. intros H.
  destruct (N.leb_spec 0xD800 c); destruct (N.leb_spec c 0xDFFF);
    destruct (N.leb_spec 0xDC00 c); cbn in *; try reflexivity; try discriminate; lia.
Qed.

Lemma supplementary_not_low c : 0x10000 <= c -> isLow c = false.
Proof. intros H. ranges. Qed.

Lemma supplementary_not_high c : 0x10000 <= c -> isHigh c = false.
Proof. intros H. ranges. Qed.

Lemma high_is_surrogate u : isHigh u = true -> isSurrogate u = true.
Proof. intros H. ranges. Qed.

Lemma low_is_surrogate u : isLow u = true -> isSurrogate u = true.
Proof. intros H. ranges. Qed.

(** White space lies below the surrogates, but for U+FEFF. *)
Lemma space_below u : isWhiteSpace u = true -> u < 0xD800 \/ u = 0xFEFF.
Proof.
  unfold isWhiteSpace. intros H.
  repeat (apply orb_true_iff in H; destruct H as [H|H]);
    try (apply andb_true_iff in H; destruct H as (H1 & H2);
         apply N.leb_le in H1, H2; left; lia);
    apply N.eqb_eq in H; subst u; first [left; reflexivity|right; reflexivity].
Qed.

Lemma supplementary_not_space c : 0x10000 <= c -> isWhiteSpace c = false.
Proof.
  intros H. destruct (isWhiteSpace c) eqn:E; [|reflexivity].
  apply space_below in E. lia.
Qed.

Lemma surrogate_not_space u : isSurrogate u = true -> isWhiteSpace u = false.
Proof.
  intros H. destruct (isWhiteSpace u) eqn:E; [|reflexivity].
  apply space_below in E. ranges.
Qed.

Lemma pair_range h l :
  isHigh h = true -> isLow l = true ->
  0x10000 <= pairToCodePoint h l < 0x110000.
Proof. intros Hh Hl. ranges. Qed.

(** The two code units of a supplementary code point are a high and a
    low surrogate, and they pair to the code point. *)
Lemma encode_supplementary c :
  0x10000 <= c < 0x110000 ->
  isHigh (0xD800 + (c - 0x10000) / 0x400) = true
  /\ isLow (0xDC00 + (c - 0x10000) mod 0x400) = true
  /\ pairToCodePoint (0xD800 + (c - 0x10000) / 0x400)
       (0xDC00 + (c - 0x10000) mod 0x400) = c.
Proof.
  intros H. unfold isHigh, isLow, pairToCodePoint.
  rewrite !andb_true_iff, !N.leb_le.
  pose proof (N.div_mod (c - 0x10000) 0x400 ltac:(discriminate)) as Hdm.
  pose proof (N.mod_lt (c - 0x10000) 0x400 ltac:(discriminate)) as Hm.
  assert (Hq : (c - 0x10000) / 0x400 < 0x400)
    by (apply N.Div0.div_lt_upper_bound; lia).
  revert Hdm Hm Hq.
  generalize ((c - 0x10000) / 0x400). generalize ((c - 0x10000) mod 0x400).
  intros m q Hdm Hm Hq. lia.
Qed.

(** *** Strings without white space *)

Lemma replace_spaceless r b s :
  spaceless r -> spaceless (replaceWhiteSpaceRuns r b s).
Proof.
  intros Hr. revert b. induction s as [|u s IH]; intros b; cbn [replaceWhiteSpaceRuns].
  - constructor.
  - destruct (isWhiteSpace u) eqn:E.
    + destruct b; [apply IH|]. apply Forall_app. split; [exact Hr|apply IH].
    + constructor; [exact E|apply IH].
Qed.

Lemma spaceless_trimStart s : spaceless s -> trimStart s = s.
Proof. intros H. destruct H as [|u s Hu Hs]; cbn; [reflexivity|]. rewrite Hu. reflexivity. Qed.

Lemma spaceless_trimEnd s : spaceless s -> trimEnd s = s.
Proof.
  induction 1 as [|u s Hu Hs IH]; cbn [trimEnd]; [reflexivity|].
  rewrite Hu, IH. reflexivity.
Qed.

Lemma spaceless_trim s : spaceless s -> trim s = s.
Proof.
  intros H. unfold trim. rewrite (spaceless_trimStart s H). apply spaceless_trimEnd, H.
Qed.

Lemma spaceless_replace r s : spaceless s -> replaceWhiteSpaceRuns r false s = s.
Proof.
  induction 1 as [|u s Hu Hs IH]; cbn [replaceWhiteSpaceRuns]; [reflexivity|].
  rewrite Hu, IH. reflexivity.
Qed.

Lemma wellFormed_trimStart s : wellFormed s -> wellFormed (trimStart s).
Proof.
  induction 1 as [|u s Hu Hs IH]; cbn [trimStart]; [constructor|].
  destruct (isWhiteSpace u); [exact IH|constructor; assumption].
Qed.

Lemma wellFormed_trimEnd s : wellFormed s -> wellFormed (trimEnd s).
Proof.
  induction 1 as [|u s Hu Hs IH]; cbn [trimEnd]; [constructor|].
  destruct (isWhiteSpace u && isEmpty (trimEnd s)); [constructor|constructor; assumption].
Qed.

Lemma wellFormed_trim s : wellFormed s -> wellFormed (trim s).
Proof. intros H. apply wellFormed_trimEnd, wellFormed_trimStart, H. Qed.

(** *** Code points and code units *)

Lemma pair_ind (P : list N -> Prop) :
  P [] -> (forall a, P [a]) ->
  (forall a b r, P (b :: r) -> P r -> P (a :: b :: r)) ->
  forall l, P l.
Proof.
  intros Hnil Hone Hstep l.
  assert (H : P l /\ forall a, P (a :: l)).
  { induction l as [|b r [IH1 IH2]]; [split; [exact Hnil|exact Hone]|].
    split; [apply IH2|]. intros a. apply Hstep; [apply IH2|exact IH1]. }
  apply H.
Qed.

Lemma codePoints_cons a t :
  isHigh a && startsLow t = false -> codePoints (a :: t) = a :: codePoints t.
Proof.
  destruct t as [|b r]; cbn [codePoints startsLow]; [reflexivity|].
  intros ->. reflexivity.
Qed.

Lemma codePoints_pair a b r :
  isHigh a = true -> isLow b = true ->
  codePoints (a :: b :: r) = pairToCodePoint a b :: codePoints r.
Proof. intros Ha Hb. cbn [codePoints]. rewrite Ha, Hb. reflexivity. Qed.

Lemma startsLow_codePoints s : startsLow (codePoints s) = true -> startsLow s = true.
Proof.
  destruct s as [|a [|b r]]; cbn [codePoints startsLow]; try (intros H; exact H).
  destruct (isHigh a && isLow b) eqn:E; cbn [startsLow]; [|intros H; exact H].
  apply andb_true_iff in E as (Ha & Hb).
  rewrite (supplementary_not_low _ (proj1 (pair_range a b Ha Hb))). discriminate.
Qed.

Lemma codePoints_unsplit s : unsplit (codePoints s) = true.
Proof.
  induction s as [| a | a b r IH1 IH2] using pair_ind; [reflexivity| |].
  - cbn. rewrite andb_false_r. reflexivity.
  - destruct (isHigh a && isLow b) eqn:E.
    + apply andb_true_iff in E as (Ha & Hb).
      rewrite (codePoints_pair a b r Ha Hb). cbn [unsplit].
      rewrite (supplementary_not_high _ (proj1 (pair_range a b Ha Hb))), IH2.
      reflexivity.
    + rewrite (codePoints_cons a (b :: r) E). cbn [unsplit].
      rewrite IH1, andb_true_r. apply negb_true_iff.
      destruct (isHigh a) eqn:Ha; [|reflexivity]. cbn [andb] in *.
      destruct (startsLow (codePoints (b :: r))) eqn:Hs; [|reflexivity].
      apply startsLow_codePoints in Hs. cbn [startsLow] in Hs. congruence.
Qed.

Lemma codePoints_scalars s : wellFormed s -> scalars (codePoints s).
Proof.
  induction s as [| a | a b r IH1 IH2] using pair_ind; intros H.
  - constructor.
  - inversion H; subst. constructor; [lia|constructor].
  - inversion H as [|? ? Ha H']; subst. inversion H' as [|? ? Hb Hr]; subst.
    destruct (isHigh a && isLow b) eqn:E.
    + apply andb_true_iff in E as (Ea & Eb).
      rewrite (codePoints_pair a b r Ea Eb).
      constructor; [apply (pair_range a b Ea Eb)|apply IH2, Hr].
    + rewrite (codePoints_cons a (b :: r) E).
      constructor; [lia|apply IH1, H'].
Qed.

Lemma startsLow_codeUnits l : scalars l -> startsLow (codeUnits l) = startsLow l.
Proof.
  intros H. destruct H as [|c l Hc Hl]; [reflexivity|].
  cbn [codeUnits flat_map startsLow]. unfold encodeCodePoint.
  destruct (N.ltb_spec c 0x10000) as [Hlt|Hge]; [reflexivity|].
  cbn [app startsLow].
  destruct (encode_supplementary c (conj Hge Hc)) as (Hh & _ & _).
  rewrite (high_not_low _ Hh), (supplementary_not_low c Hge). reflexivity.
Qed.

(** Encoding and decoding again gives the code points back. *)
Lemma codePoints_codeUnits l :
  scalars l -> unsplit l = true -> codePoints (codeUnits l) = l.
Proof.
  induction 1 as [|c l Hc Hl IH]; [reflexivity|].
  cbn [unsplit]. intros H. apply andb_true_iff in H as (Hhead & Htail).
  apply negb_true_iff in Hhead.
  cbn [codeUnits flat_map]. fold (codeUnits l). unfold encodeCodePoint.
  destruct (N.ltb_spec c 0x10000) as [Hlt|Hge]; cbn [app].
  - rewrite codePoints_cons; [rewrite (IH Htail); reflexivity|].
    rewrite (startsLow_codeUnits l Hl). exact Hhead.
  - destruct (encode_supplementary c (conj Hge Hc)) as (Hh & Hlo & Hp).
    rewrite (codePoints_pair _ _ _ Hh Hlo), Hp, (IH Htail). reflexivity.
Qed.

(** Replacing white space in the code units of a text is replacing it in
    the code points: white space is one code unit, and no code unit of a
    pair is white space. *)
Lemma replace_codeUnits b l :
  scalars l ->
  replaceWhiteSpaceRuns [hyphen] b (codeUnits l)
  = codeUnits (replaceWhiteSpaceRuns [hyphen] b l).
Proof.
  intros H. revert b. induction H as [|c l Hc Hl IH]; intros b; [reflexivity|].
  cbn [codeUnits flat_map]. fold (codeUnits l). unfold encodeCodePoint.
  destruct (N.ltb_spec c 0x10000) as [Hlt|Hge]; cbn [app replaceWhiteSpaceRuns].
  - destruct (isWhiteSpace c).
    + destruct b; [apply IH|]. rewrite IH. reflexivity.
    + rewrite IH. cbn [codeUnits flat_map]. unfold encodeCodePoint.
      destruct (N.ltb_spec c 0x10000); [reflexivity|lia].
  - destruct (encode_supplementary c (conj Hge Hc)) as (Hh & Hlo & _).
    rewrite (surrogate_not_space _ (high_is_surrogate _ Hh)),
      (surrogate_not_space _ (low_is_surrogate _ Hlo)),
      (supplementary_not_space c Hge), IH.
    cbn [codeUnits flat_map]. unfold encodeCodePoint.
    destruct (N.ltb_spec c 0x10000); [lia|reflexivity].
Qed.

Lemma startsLow_replace l :
  startsLow (replaceWhiteSpaceRuns [hyphen] false l) = true -> startsLow l = true.
Proof.
  destruct l as [|c l]; cbn [replaceWhiteSpaceRuns startsLow]; [intros H; exact H|].
  destruct (isWhiteSpace c); cbn [app startsLow]; [|intros H; exact H].
  discriminate.
Qed.

Lemma replace_unsplit b l :
  unsplit l = true -> unsplit (replaceWhiteSpaceRuns [hyphen] b l) = true.
Proof.
  revert b. induction l as [|c l IH]; intros b; cbn [replaceWhiteSpaceRuns unsplit];
    [reflexivity|].
  intros H. apply andb_true_iff in H as (Hhead & Htail).
  destruct (isWhiteSpace c).
  - destruct b; [apply IH, Htail|]. cbn [app unsplit].
    rewrite (IH true Htail). reflexivity.
  - cbn [unsplit]. rewrite (IH false Htail), andb_true_r.
    apply negb_true_iff. apply negb_true_iff in Hhead.
    destruct (isHigh c); [|reflexivity]. cbn [andb] in *.
    destruct (startsLow (replaceWhiteSpaceRuns [hyphen] false l)) eqn:E; [|reflexivity].
    apply startsLow_replace in E. congruence.
Qed.

(** *** Lower case *)

Section CaseMapping.

Variable lowercase : list (N * list N).
Variable cased : N -> bool.
Variable caseIgnorable : N -> bool.

Hypothesis settled : settledTable lowercase = true.

Local Abbreviation fixed := (Utf16.fixed lowercase).
Local Abbreviation image := (Utf16.image lowercase cased caseIgnorable).

Lemma lookup_In (table : list (N * list N)) c l :
  lookup table c = Some l -> In (c, l) table.
Proof.
  induction table as [|[k m] rest IH]; cbn [lookup]; [discriminate|].
  destruct (N.eqb_spec k c) as [->|Hne].
  - intros [= ->]. left. reflexivity.
  - intros H. right. apply IH, H.
Qed.

Lemma fixedScalar_spec c :
  fixedScalar lowercase c = true -> fixed c /\ isSurrogate c = false.
Proof.
  unfold fixedScalar, fixed. intros H.
  apply andb_true_iff in H as (H & Hr). apply andb_true_iff in H as (H & Hs).
  apply andb_true_iff in H as (Hl & Hc).
  apply negb_true_iff in Hc, Hs. apply N.eqb_neq in Hc. apply N.ltb_lt in Hr.
  destruct (lookup lowercase c); [discriminate|]. auto.
Qed.

Lemma entry_spec c l :
  lookup lowercase c = Some l ->
  isSurrogate c = false /\ l <> [] /\ Forall (fun c' => fixed c' /\ isSurrogate c' = false) l.
Proof.
  intros H. apply lookup_In in H.
  unfold settledTable in settled.
  apply andb_true_iff in settled as (Hs & _). apply andb_true_iff in Hs as (Hs & _).
  apply andb_true_iff in Hs as (Hs & _).
  rewrite forallb_forall in Hs. specialize (Hs _ H). unfold settledEntry in Hs.
  cbn [fst snd] in Hs.
  apply andb_true_iff in Hs as (Hs & Hall). apply andb_true_iff in Hs as (Hsur & Hne).
  apply negb_true_iff in Hsur, Hne.
  split; [exact Hsur|]. split; [destruct l; [discriminate|discriminate]|].
  apply Forall_forall. intros c' Hc'. rewrite forallb_forall in Hall.
  apply fixedScalar_spec, Hall, Hc'.
Qed.

Lemma fixed_constants :
  (fixed hyphen /\ isSurrogate hyphen = false)
  /\ (fixed smallSigma /\ isSurrogate smallSigma = false)
  /\ (fixed smallFinalSigma /\ isSurrogate smallFinalSigma = false).
Proof.
  unfold settledTable in settled.
  apply andb_true_iff in settled as (Hs & H3). apply andb_true_iff in Hs as (Hs & H2).
  apply andb_true_iff in Hs as (_ & H1).
  split; [|split]; apply fixedScalar_spec; assumption.
Qed.

Lemma toLowercaseFrom_cons before c r :
  toLowercaseFrom lowercase cased caseIgnorable before (c :: r)
  = (image before c r
     ++ toLowercaseFrom lowercase cased caseIgnorable (c :: before) r)%list.
Proof. reflexivity. Qed.

(** The image of a code point is never empty and consists of fixed code
    points; it is the code point itself when that is a surrogate, and
    holds no surrogate otherwise. *)
Lemma image_spec before c after :
  c < 0x110000 ->
  image before c after <> []
  /\ Forall fixed (image before c after)
  /\ (if isSurrogate c then image before c after = [c]
      else Forall (fun c' => isSurrogate c' = false) (image before c after)).
Proof.
  intros Hc. unfold image.
  destruct fixed_constants as (_ & (Hs & Hs') & (Hf & Hf')).
  destruct (N.eqb_spec c capitalSigma) as [->|Hne].
  - split; [discriminate|]. split.
    + destruct (finalSigma _ _ _ _); (constructor; [assumption|constructor]).
    + change (isSurrogate capitalSigma) with false. cbv iota.
      destruct (finalSigma _ _ _ _); (constructor; [assumption|constructor]).
  - unfold lowercaseMapping. destruct (lookup lowercase c) as [l|] eqn:E.
    + destruct (entry_spec c l E) as (Hsur & Hnil & Hall).
      split; [exact Hnil|]. split.
      * eapply Forall_impl; [|exact Hall]. intros a Ha. apply Ha.
      * rewrite Hsur. eapply Forall_impl; [|exact Hall]. intros a Ha. apply Ha.
    + split; [discriminate|]. split.
      * constructor; [|constructor]. split; [exact E|]. split; [exact Hne|exact Hc].
      * destruct (isSurrogate c) eqn:Es; [reflexivity|].
        constructor; [exact Es|constructor].
Qed.

Lemma toLowercaseFrom_fixed before l :
  scalars l -> Forall fixed (toLowercaseFrom lowercase cased caseIgnorable before l).
Proof.
  intros H. revert before. induction H as [|c l Hc Hl IH]; intros before.
  - constructor.
  - rewrite toLowercaseFrom_cons. apply Forall_app. split; [|apply IH].
    apply (image_spec before c l Hc).
Qed.

Lemma startsLow_toLowercaseFrom before l :
  scalars l ->
  startsLow (toLowercaseFrom lowercase cased caseIgnorable before l) = true ->
  startsLow l = true.
Proof.
  intros H. destruct H as [|c l Hc Hl]; [intros E; exact E|].
  rewrite toLowercaseFrom_cons.
  destruct (image_spec before c l Hc) as (Hnil & _ & Hsur).
  destruct (image before c l) as [|x xs] eqn:E; [contradiction|].
  cbn [app startsLow]. destruct (isSurrogate c).
  - injection Hsur as -> _. intros H. exact H.
  - inversion Hsur as [|? ? Hx _]; subst.
    rewrite (nonSurrogate_not_low x Hx). discriminate.
Qed.

Lemma unsplit_app_plain l1 l2 :
  Forall (fun c => isSurrogate c = false) l1 ->
  unsplit l2 = true -> unsplit (l1 ++ l2) = true.
Proof.
  induction 1 as [|c l1 Hc Hl IH]; intros H2; [exact H2|].
  cbn [app unsplit]. rewrite (IH H2), (nonSurrogate_not_high c Hc). reflexivity.
Qed.

Lemma toLowercaseFrom_unsplit before l :
  scalars l -> unsplit l = true ->
  unsplit (toLowercaseFrom lowercase cased caseIgnorable before l) = true.
Proof.
  intros H. revert before. induction H as [|c l Hc Hl IH]; intros before Hu;
    [reflexivity|].
  cbn [unsplit] in Hu. apply andb_true_iff in Hu as (Hhead & Htail).
  apply negb_true_iff in Hhead.
  rewrite toLowercaseFrom_cons.
  destruct (image_spec before c l Hc) as (_ & _ & Hsur).
  destruct (isSurrogate c) eqn:Es.
  - rewrite Hsur. cbn [app unsplit]. rewrite (IH (c :: before) Htail), andb_true_r.
    apply negb_true_iff. destruct (isHigh c); [|reflexivity]. cbn [andb] in *.
    destruct (startsLow (toLowercaseFrom lowercase cased caseIgnorable (c :: before) l))
      eqn:E; [|reflexivity].
    apply (startsLow_toLowercaseFrom (c :: before) l Hl) in E. congruence.
  - apply unsplit_app_plain; [exact Hsur|apply IH, Htail].
Qed.

Lemma fixed_scalars l : Forall fixed l -> scalars l.
Proof. intros H. eapply Forall_impl; [|exact H]. intros c Hc. apply Hc. Qed.

(** Lower-casing leaves a text of fixed code points as it is. *)
Lemma toLowercaseFrom_id before l :
  Forall fixed l -> toLowercaseFrom lowercase cased caseIgnorable before l = l.
Proof.
  intros H. revert before. induction H as [|c l (Hnone & Hne & _) Hl IH]; intros before;
    [reflexivity|].
  rewrite toLowercaseFrom_cons, IH. unfold image, lowercaseMapping.
  destruct (N.eqb_spec c capitalSigma); [contradiction|]. rewrite Hnone. reflexivity.
Qed.

Lemma replace_fixed b l :
  Forall fixed l -> Forall fixed (replaceWhiteSpaceRuns [hyphen] b l).
Proof.
  intros H. revert b. induction H as [|c l Hc Hl IH]; intros b;
    cbn [replaceWhiteSpaceRuns]; [constructor|].
  destruct (isWhiteSpace c).
  - destruct b; [apply IH|]. cbn [app]. constructor; [apply fixed_constants|apply IH].
  - constructor; [exact Hc|apply IH].
Qed.

Lemma hyphen_spaceless : spaceless [hyphen].
Proof. constructor; [reflexivity|constructor]. Qed.

(** The slug of a string, as the code units of fixed code points *)
Lemma slug_shape s :
  wellFormed s ->
  exists l,
    slugTransform lowercase cased caseIgnorable s = codeUnits l
    /\ Forall fixed l /\ unsplit l = true.
Proof.
  intros H. unfold slugTransform, toLowerCase.
  pose proof (codePoints_scalars _ (wellFormed_trim s H)) as Hsc.
  pose proof (codePoints_unsplit (trim s)) as Hun.
  pose proof (toLowercaseFrom_fixed [] _ Hsc) as Hfix.
  pose proof (toLowercaseFrom_unsplit [] _ Hsc Hun) as Hun'.
  exists (replaceWhiteSpaceRuns [hyphen] false
            (toLowercaseFrom lowercase cased caseIgnorable [] (codePoints (trim s)))).
  split; [apply replace_codeUnits, fixed_scalars, Hfix|].
  split; [apply replace_fixed, Hfix|apply replace_unsplit, Hun'].
Qed.

Lemma toLowerCase_fixed l :
  Forall fixed l -> unsplit l = true ->
  toLowerCase lowercase cased caseIgnorable (codeUnits l) = codeUnits l.
Proof.
  intros Hfix Hun. unfold toLowerCase.
  rewrite (codePoints_codeUnits l (fixed_scalars l Hfix) Hun).
  rewrite (toLowercaseFrom_id [] l Hfix). reflexivity.
Qed.

(** The slug transform is idempotent on every string, for every table of
    lower-case mappings that is settled. *)
Lemma slugTransform_idempotent s :
  wellFormed s ->
  slugTransform lowercase cased caseIgnorable
    (slugTransform lowercase cased caseIgnorable s)
  = slugTransform lowercase cased caseIgnorable s.
Proof.
  intros H.
  assert (Hsp : spaceless (slugTransform lowercase cased caseIgnorable s)).
  { unfold slugTransform. apply replace_spaceless, hyphen_spaceless. }
  destruct (slug_shape s H) as (l & El & Hfix & Hun).
  unfold slugTransform at 1. rewrite (spaceless_trim _ Hsp).
  rewrite El, (toLowerCase_fixed l Hfix Hun), <- El.
  apply spaceless_replace, Hsp.
Qed.

End CaseMapping.

(** *** The Unicode Character Database *)

Lemma unicode_settled : settledTable Unicode.lowercase = true.
Proof. vm_compute. reflexivity. Qed.

(** *** The Latin-1 range *)

(** On code units below 256 the functions of [JS] and [Slug] are those
    of this module. *)

Lemma isWhiteSpace_latin1 a : isWhiteSpace (N_of_ascii a) = JS.isWhiteSpace a.
Proof. destruct a as [[] [] [] [] [] [] [] []]; vm_compute; reflexivity. Qed.

Lemma lowercase_latin1 a :
  lowercaseMapping Unicode.lowercase (N_of_ascii a)
  = [N_of_ascii (JS.toLowerCaseUnit a)].
Proof. destruct a as [[] [] [] [] [] [] [] []]; vm_compute; reflexivity. Qed.

Lemma latin1_range a :
  N_of_ascii a < 0x10000 /\ isHigh (N_of_ascii a) = false
  /\ (N_of_ascii a =? capitalSigma) = false.
Proof. destruct a as [[] [] [] [] [] [] [] []]; vm_compute; auto. Qed.

Lemma unitsOf_cons a s : unitsOf (String a s) = N_of_ascii a :: unitsOf s.
Proof. reflexivity. Qed.

Lemma unitsOf_isEmpty s : isEmpty (unitsOf s) = JS.isEmpty s.
Proof. destruct s; reflexivity. Qed.

Lemma trimStart_latin1 s : trimStart (unitsOf s) = unitsOf (JS.trimStart s).
Proof.
  induction s as [|a s IH]; [reflexivity|].
  rewrite unitsOf_cons. cbn [trimStart JS.trimStart]. rewrite isWhiteSpace_latin1.
  destruct (JS.isWhiteSpace a); [exact IH|reflexivity].
Qed.

Lemma trimEnd_latin1 s : trimEnd (unitsOf s) = unitsOf (JS.trimEnd s).
Proof.
  induction s as [|a s IH]; [reflexivity|].
  rewrite unitsOf_cons. cbn [trimEnd JS.trimEnd].
  rewrite isWhiteSpace_latin1, IH, unitsOf_isEmpty.
  destruct (JS.isWhiteSpace a && JS.isEmpty (JS.trimEnd s)); reflexivity.
Qed.

Lemma trim_latin1 s : trim (unitsOf s) = unitsOf (JS.trim s).
Proof. unfold trim, JS.trim. rewrite trimStart_latin1. apply trimEnd_latin1. Qed.

Lemma codePoints_latin1 s : codePoints (unitsOf s) = unitsOf s.
Proof.
  induction s as [|a s IH]; [reflexivity|].
  rewrite unitsOf_cons, codePoints_cons; [rewrite IH; reflexivity|].
  destruct (latin1_range a) as (_ & -> & _). reflexivity.
Qed.

Lemma codeUnits_latin1 s : codeUnits (unitsOf s) = unitsOf s.
Proof.
  induction s as [|a s IH]; [reflexivity|].
  rewrite unitsOf_cons. cbn [codeUnits flat_map]. fold (codeUnits (unitsOf s)).
  rewrite IH. unfold encodeCodePoint.
  destruct (latin1_range a) as (Hlt & _). apply N.ltb_lt in Hlt. rewrite Hlt.
  reflexivity.
Qed.

Lemma toLowercaseFrom_latin1 cased caseIgnorable before s :
  toLowercaseFrom Unicode.lowercase cased caseIgnorable before (unitsOf s)
  = unitsOf (JS.toLowerCase s).
Proof.
  revert before. induction s as [|a s IH]; intros before; [reflexivity|].
  rewrite unitsOf_cons. cbn [toLowercaseFrom JS.toLowerCase]. unfold Utf16.image.
  destruct (latin1_range a) as (_ & _ & ->).
  rewrite lowercase_latin1, IH. reflexivity.
Qed.

Lemma toLowerCase_latin1 cased caseIgnorable s :
  toLowerCase Unicode.lowercase cased caseIgnorable (unitsOf s)
  = unitsOf (JS.toLowerCase s).
Proof.
  unfold toLowerCase. rewrite codePoints_latin1, toLowercaseFrom_latin1.
  apply codeUnits_latin1.
Qed.

Lemma unitsOf_append s t : unitsOf (s ++ t) = (unitsOf s ++ unitsOf t)%list.
Proof.
  induction s as [|a s IH]; [reflexivity|].
  cbn [String.append]. rewrite !unitsOf_cons, IH. reflexivity.
Qed.

Lemma replace_latin1 b s :
  replaceWhiteSpaceRuns [hyphen] b (unitsOf s)
  = unitsOf (JS.replaceWhiteSpaceRuns "-" b s).
Proof.
  revert b. induction s as [|a s IH]; intros b; [reflexivity|].
  rewrite unitsOf_cons. cbn [replaceWhiteSpaceRuns JS.replaceWhiteSpaceRuns].
  rewrite isWhiteSpace_latin1. destruct (JS.isWhiteSpace a).
  - destruct b; [apply IH|]. rewrite IH, unitsOf_append. reflexivity.
  - rewrite IH. reflexivity.
Qed.

(** The transforms of [Slug] are the transforms on every string,
    restricted to the strings of code units below 256. *)
Lemma nameTransform_latin1 cased caseIgnorable s :
  nameTransform Unicode.lowercase cased caseIgnorable (unitsOf s)
  = unitsOf (Slug.nameTransform s).
Proof.
  unfold nameTransform, Slug.nameTransform. rewrite trim_latin1.
  apply toLowerCase_latin1.
Qed.

Lemma slugTransform_latin1 cased caseIgnorable s :
  slugTransform Unicode.lowercase cased caseIgnorable (unitsOf s)
  = unitsOf (Slug.slugTransform s).
Proof.
  unfold slugTransform, Slug.slugTransform.
  rewrite trim_latin1, toLowerCase_latin1. apply replace_latin1.
Qed.

(** C9.  On every string of 16-bit code units, with the lower-case
    mappings of the Unicode Character Database and whatever the
    properties Cased and Case_Ignorable are, the slug transform of
    [createTopicSchema] (trim, lower case, every run of white space
    replaced by one hyphen) takes "  Machine Learning  " to
    "machine-learning", takes "machine-learning" to itself, and applied
    to any of its own outputs returns that output unchanged.  The result
    is a function of the input string alone. *)
Theorem slug_normalization_idempotent :
  forall (cased caseIgnorable : N -> bool) (s : list N),
    wellFormed s ->
    let slug := slugTransform Unicode.lowercase cased caseIgnorable in
    slug (unitsOf "  Machine Learning  ") = unitsOf "machine-learning"
    /\ slug (unitsOf "machine-learning") = unitsOf "machine-learning"
    /\ slug (slug s) = slug s.
Proof.
  intros cased caseIgnorable s H slug.
  split; [vm_compute; reflexivity|]. split; [vm_compute; reflexivity|].
  apply slugTransform_idempotent; [exact unicode_settled|exact H].
Qed.

Lemma slug_normalization_idempotent_witness :
  let slug := slugTransform Unicode.lowercase Unicode.casedSample (fun _ => false) in
  slug Unicode.sample
  = [0x69; 0x307; 0x73; 0x74; 0x2D; 0x3B1; 0x3C2; 0x2D; 0xD801; 0xDC28; 0xD800; 0x2D; 0xDC00]
  /\ slug (slug Unicode.sample) = slug Unicode.sample.
Proof.
  destruct (slug_normalization_idempotent Unicode.casedSample (fun _ => false)
              Unicode.sample) as (_ & _ & H).
  - unfold wellFormed, Unicode.sample.
    repeat (apply Forall_cons; [reflexivity|]). apply Forall_nil.
  - split; [vm_compute; reflexivity|exact H].
Defined.

End Utf16Facts.
